(** * Intent routing and entity resolution of the audit chatbot

    A shallow embedding of the decision logic found in
    [backend/CiscoAgents/AuditExecutionAgent.py] (class
    [ExecutionEntityExtractor]), [backend/CiscoAgents/OrchestratorAgent.py]
    (class [OrchestratorAgent]), [backend/IntentClassifier/Classifier.py]
    and the cache of [backend/database.py], together with the two standard
    library services the extractor leans on: [difflib.SequenceMatcher] and
    the handful of [re] patterns used for audit identifiers.

    Conventions.
    - A Python [str] is a [string]; a character is read as the code point
      of the same number (0..255).
    - A Python [float] is a rational of [Q].  The only floats of the code
      are quotients of small integers and their comparisons with 0.5, 0.70
      and 0.80; on such values the comparison of the rationals and the
      comparison of the doubles agree as long as the lengths involved stay
      below 2^50.
    - A Python [dict] is an association list in insertion order, a [list]
      is a [list].
    - The pictographs of the fixed replies are kept as their UTF-8
      bytes. *)

From Stdlib Require Import List String Ascii Bool Arith Lia ZArith QArith.
From Stdlib Require Import DecimalString Lqa Sorted.
Import ListNotations.

Local Open Scope nat_scope.
Local Open Scope list_scope.

(* ================================================================= *)
(** ** Characters and text *)

Module Text.

Definition code (c : ascii) : nat := nat_of_ascii c.

Definition between (lo hi n : nat) : bool := (lo <=? n) && (n <=? hi).

(** [\d] of [re] and [str.isdecimal]. *)
Definition isdecimal (c : ascii) : bool := between 48 57 (code c).

(** [str.isalnum]: letters, digits and the numeric signs of the first
    256 code points. *)
Definition isalnum (c : ascii) : bool :=
  let n := code c in
  between 48 57 n || between 65 90 n || between 97 122 n
  || (n =? 170) || (n =? 178) || (n =? 179) || (n =? 181)
  || (n =? 185) || (n =? 186) || between 188 190 n
  || between 192 214 n || between 216 246 n || between 248 255 n.

(** [\w] of [re]: alphanumeric or underscore. *)
Definition isword (c : ascii) : bool := isalnum c || (code c =? 95).

(** [\s] of [re] and [str.isspace]. *)
Definition isspace (c : ascii) : bool :=
  let n := code c in
  between 9 13 n || between 28 32 n || (n =? 133) || (n =? 160).

Definition lower_char (c : ascii) : ascii :=
  let n := code c in
  if between 65 90 n || (between 192 222 n && negb (n =? 215))
  then ascii_of_nat (n + 32) else c.

Fixpoint map_string (f : ascii -> ascii) (s : string) : string :=
  match s with
  | EmptyString => EmptyString
  | String c s' => String (f c) (map_string f s')
  end.

(** [str.lower]. *)
Definition lower (s : string) : string := map_string lower_char s.

(** [str.split()] without argument: maximal runs of non-blank
    characters; [cur] is the word being read. *)
Fixpoint split_from (cur s : string) : list string :=
  match s with
  | EmptyString => if String.eqb cur "" then [] else [cur]
  | String c s' =>
      if isspace c
      then (if String.eqb cur "" then split_from "" s'
            else cur :: split_from "" s')
      else split_from (String.append cur (String c "")) s'
  end.

Definition split (s : string) : list string := split_from "" s.

(** [sep.join(words)]. *)
Definition join (sep : string) (words : list string) : string :=
  String.concat sep words.

(** [sub in s]. *)
Fixpoint contains (sub s : string) : bool :=
  String.prefix sub s
  || match s with
     | EmptyString => false
     | String _ s' => contains sub s'
     end.

(** [re.sub(r'[^\w\s]', ' ', text)]. *)
Definition blank_punctuation (s : string) : string :=
  map_string (fun c => if isword c || isspace c then c else " "%char) s.

(** [preprocess_text] of both extractors. *)
Definition preprocess_text (text : string) : string :=
  let text := blank_punctuation text in
  let text := join " " (split text) in
  lower text.

End Text.

(* ================================================================= *)
(** ** difflib.SequenceMatcher(None, a, b) *)

Module Difflib.

Definition block : Type := nat * nat * nat.

Definition block_size (x : block) : nat := snd x.

Definition total_size (l : list block) : nat :=
  fold_right (fun x acc => block_size x + acc) 0 l.

Section Matcher.

Variables a b : list ascii.

Definition la : nat := List.length a.
Definition lb : nat := List.length b.

Definition at_a (i : nat) : ascii := nth i a zero.
Definition at_b (j : nat) : ascii := nth j b zero.

(** *** [__chain_b] *)

(** [b2j.setdefault(elt, []).append(i)] *)
Fixpoint setdefault_append (elt : ascii) (i : nat)
         (d : list (ascii * list nat)) : list (ascii * list nat) :=
  match d with
  | [] => [(elt, [i])]
  | (e, idxs) :: d' =>
      if Ascii.eqb e elt then (e, idxs ++ [i]) :: d'
      else (e, idxs) :: setdefault_append elt i d'
  end.

Fixpoint chain_b_loop (i : nat) (bs : list ascii)
         (d : list (ascii * list nat)) : list (ascii * list nat) :=
  match bs with
  | [] => d
  | elt :: bs' => chain_b_loop (S i) bs' (setdefault_append elt i d)
  end.

Definition autojunk : bool := true.

(** No junk predicate is given, so only the "popular" elements of a
    long [b] are purged. *)
Definition b2j : list (ascii * list nat) :=
  let d := chain_b_loop 0 b [] in
  let n := lb in
  if autojunk && (200 <=? n)
  then let ntest := n / 100 + 1 in
       filter (fun p => negb (ntest <? List.length (snd p))) d
  else d.

(** [b2j.get(c, nothing)] *)
Definition b2j_get (c : ascii) : list nat :=
  match find (fun p => Ascii.eqb (fst p) c) b2j with
  | Some p => snd p
  | None => []
  end.

(** [bjunk] stays empty. *)
Definition isbjunk (c : ascii) : bool := false.

(** *** [find_longest_match] *)

(** [j2len.get(j, 0)] *)
Fixpoint j2len_get (d : list (nat * nat)) (j : nat) : nat :=
  match d with
  | [] => 0
  | (j', k) :: d' => if j' =? j then k else j2len_get d' j
  end.

(** The loop over [b2j.get(a[i], nothing)] with its [continue] and
    [break]; [j - 1] is the key -1, never present, when [j] is 0. *)
Fixpoint scan_row (i blo bhi : nat) (js : list nat)
         (j2len newj2len : list (nat * nat)) (best : block)
  : list (nat * nat) * block :=
  match js with
  | [] => (newj2len, best)
  | j :: js' =>
      if j <? blo then scan_row i blo bhi js' j2len newj2len best
      else if bhi <=? j then (newj2len, best)
      else
        let k := match j with
                 | 0 => 0
                 | S j' => j2len_get j2len j'
                 end + 1 in
        let best' :=
          if block_size best <? k then (i + 1 - k, j + 1 - k, k)
          else best in
        scan_row i blo bhi js' j2len ((j, k) :: newj2len) best'
  end.

(** [for i in range(alo, ahi)], [n] iterations left. *)
Fixpoint scan_rows (n i blo bhi : nat) (j2len : list (nat * nat))
         (best : block) : block :=
  match n with
  | 0 => best
  | S n' =>
      let '(newj2len, best') :=
        scan_row i blo bhi (b2j_get (at_a i)) j2len [] best in
      scan_rows n' (S i) blo bhi newj2len best'
  end.

(** [while besti > alo and bestj > blo and (not) isbjunk(b[bestj-1])
    and a[besti-1] == b[bestj-1]]; [junk] tells which of the two
    loops is meant. *)
Fixpoint extend_left (junk : bool) (alo blo besti bestj bestsize : nat)
         {struct besti} : block :=
  match besti, bestj with
  | S i', S j' =>
      if (alo <? besti) && (blo <? bestj)
         && Bool.eqb (isbjunk (at_b j')) junk
         && Ascii.eqb (at_a i') (at_b j')
      then extend_left junk alo blo i' j' (S bestsize)
      else (besti, bestj, bestsize)
  | _, _ => (besti, bestj, bestsize)
  end.

(** [while besti+bestsize < ahi and bestj+bestsize < bhi and ...];
    [n] is [ahi - (besti+bestsize)]. *)
Fixpoint extend_right (junk : bool) (n bhi besti bestj bestsize : nat)
  : nat :=
  match n with
  | 0 => bestsize
  | S n' =>
      if (bestj + bestsize <? bhi)
         && Bool.eqb (isbjunk (at_b (bestj + bestsize))) junk
         && Ascii.eqb (at_a (besti + bestsize)) (at_b (bestj + bestsize))
      then extend_right junk n' bhi besti bestj (S bestsize)
      else bestsize
  end.

Definition find_longest_match (alo ahi blo bhi : nat) : block :=
  let '(besti, bestj, bestsize) :=
    scan_rows (ahi - alo) alo blo bhi [] (alo, blo, 0) in
  let '(besti, bestj, bestsize) :=
    extend_left false alo blo besti bestj bestsize in
  let bestsize :=
    extend_right false (ahi - (besti + bestsize)) bhi
                 besti bestj bestsize in
  let '(besti, bestj, bestsize) :=
    extend_left true alo blo besti bestj bestsize in
  let bestsize :=
    extend_right true (ahi - (besti + bestsize)) bhi
                 besti bestj bestsize in
  (besti, bestj, bestsize).

(** *** [get_matching_blocks] *)

Definition range : Type := nat * nat * nat * nat.

(** The work list [queue]; the head of the list is the end of the
    Python list, where [pop] and [append] operate. *)
Fixpoint blocks_loop (fuel : nat) (queue : list range)
         (matching_blocks : list block) : option (list block) :=
  match queue with
  | [] => Some matching_blocks
  | (alo, ahi, blo, bhi) :: queue' =>
      match fuel with
      | 0 => None
      | S fuel' =>
          let '(i, j, k) := find_longest_match alo ahi blo bhi in
          if k =? 0 then blocks_loop fuel' queue' matching_blocks
          else
            let q1 := if (alo <? i) && (blo <? j)
                      then (alo, i, blo, j) :: queue' else queue' in
            let q2 := if (i + k <? ahi) && (j + k <? bhi)
                      then (i + k, ahi, j + k, bhi) :: q1 else q1 in
            blocks_loop fuel' q2 (matching_blocks ++ [(i, j, k)])
      end
  end.

(** Order of tuples, for [matching_blocks.sort()]. *)
Definition block_leb (x y : block) : bool :=
  let '(i1, j1, k1) := x in
  let '(i2, j2, k2) := y in
  (i1 <? i2)
  || ((i1 =? i2) && ((j1 <? j2) || ((j1 =? j2) && (k1 <=? k2)))).

Fixpoint insert_block (x : block) (l : list block) : list block :=
  match l with
  | [] => [x]
  | y :: l' => if block_leb x y then x :: l else y :: insert_block x l'
  end.

Definition sort_blocks (l : list block) : list block :=
  fold_right insert_block [] l.

(** The loop that merges adjacent blocks. *)
Fixpoint collapse (l : list block) (i1 j1 k1 : nat)
         (non_adjacent : list block) : list block :=
  match l with
  | [] => if k1 =? 0 then non_adjacent
          else non_adjacent ++ [(i1, j1, k1)]
  | (i2, j2, k2) :: l' =>
      if (i1 + k1 =? i2) && (j1 + k1 =? j2)
      then collapse l' i1 j1 (k1 + k2) non_adjacent
      else collapse l' i2 j2 k2
             (if k1 =? 0 then non_adjacent
              else non_adjacent ++ [(i1, j1, k1)])
  end.

Definition raw_blocks : option (list block) :=
  blocks_loop (2 * la + 1) [(0, la, 0, lb)] [].

Definition get_matching_blocks : list block :=
  match raw_blocks with
  | Some l => collapse (sort_blocks l) 0 0 0 [] ++ [(la, lb, 0)]
  | None => []
  end.

(** [_calculate_ratio] *)
Definition calculate_ratio (matches length : nat) : Q :=
  if length =? 0 then 1%Q
  else (2 * inject_Z (Z.of_nat matches) / inject_Z (Z.of_nat length))%Q.

Definition ratio : Q :=
  calculate_ratio (total_size get_matching_blocks) (la + lb).

End Matcher.

(** *** Invariants of the search, used by the proofs below *)

(** A block lies inside the window it was searched in. *)
Definition in_range (alo ahi blo bhi : nat) (x : block) : Prop :=
  let '(i, j, k) := x in
  alo <= i /\ i + k <= ahi /\ blo <= j /\ j + k <= bhi.

(** The lengths recorded for the row that ends at index [i - 1] of
    [a]. *)
Definition row_ok (alo blo i : nat) (d : list (nat * nat)) : Prop :=
  forall j k, In (j, k) d -> blo <= j /\ k + alo <= i /\ k + blo <= j + 1.

Definition wf_range (r : range) : Prop :=
  let '(alo, ahi, blo, bhi) := r in alo <= ahi /\ blo <= bhi.

Definition span (r : range) : nat :=
  let '(alo, ahi, blo, bhi) := r in Nat.min (ahi - alo) (bhi - blo).

Definition cost (r : range) : nat :=
  let '(alo, ahi, blo, bhi) := r in 2 * (ahi - alo) + 1.

Definition sum_of (f : range -> nat) (q : list range) : nat :=
  fold_right (fun r acc => f r + acc) 0 q.

End Difflib.

(* ================================================================= *)
(** ** The fragment of [re] used for audit identifiers *)

Module Regex.
Import Text.

Local Open Scope string_scope.

Inductive regex : Type :=
| Lit (s : string)             (* literal characters *)
| Boundary                     (* \b *)
| Plus (p : ascii -> bool)     (* one or more of a class, greedy *)
| Star (p : ascii -> bool)     (* zero or more of a class, greedy *)
| Opt (r : regex)              (* (?:r)? *)
| Alt (r1 r2 : regex)          (* r1|r2 *)
| Seq (r1 r2 : regex)
| Group (r : regex).           (* the capturing group *)

(** [\b]: exactly one side of the position is a word character; the
    outside of the string counts as a non-word character. *)
Definition at_boundary (prev : option ascii) (rest : string) : bool :=
  xorb (match prev with Some c => isword c | None => false end)
       (match rest with String c _ => isword c | EmptyString => false end).

Fixpoint match_lit (lit : string) (prev : option ascii) (rest : string)
  : option (option ascii * string) :=
  match lit with
  | EmptyString => Some (prev, rest)
  | String c lit' =>
      match rest with
      | String d rest' =>
          if Ascii.eqb c d then match_lit lit' (Some d) rest' else None
      | EmptyString => None
      end
  end.

(** The text between two positions of which the second is a suffix of
    the first. *)
Definition consumed (rest rest_end : string) : string :=
  String.substring 0 (String.length rest - String.length rest_end) rest.

Section Backtracking.

Variable X : Type.

(** Greedy repetition of a class: the longest run first, then shorter
    ones as long as the continuation fails. *)
Fixpoint star (p : ascii -> bool) (prev : option ascii) (rest : string)
         (k : option ascii -> string -> option X) : option X :=
  match rest with
  | String c rest' =>
      if p c
      then match star p (Some c) rest' k with
           | Some x => Some x
           | None => k prev rest
           end
      else k prev rest
  | EmptyString => k prev rest
  end.

(** [rmatch r prev rest cap k]: match [r] at the position whose previous
    character is [prev] and whose remaining text is [rest]; [cap] is the
    text of the group so far, [k] what remains to be matched. *)
Fixpoint rmatch (r : regex) (prev : option ascii) (rest : string)
         (cap : option string)
         (k : option ascii -> string -> option string -> option X)
  : option X :=
  match r with
  | Lit s =>
      match match_lit s prev rest with
      | Some (prev', rest') => k prev' rest' cap
      | None => None
      end
  | Boundary => if at_boundary prev rest then k prev rest cap else None
  | Plus p =>
      match rest with
      | String c rest' =>
          if p c then star p (Some c) rest' (fun pv rs => k pv rs cap)
          else None
      | EmptyString => None
      end
  | Star p => star p prev rest (fun pv rs => k pv rs cap)
  | Opt r' =>
      match rmatch r' prev rest cap k with
      | Some x => Some x
      | None => k prev rest cap
      end
  | Alt r1 r2 =>
      match rmatch r1 prev rest cap k with
      | Some x => Some x
      | None => rmatch r2 prev rest cap k
      end
  | Seq r1 r2 =>
      rmatch r1 prev rest cap (fun pv rs cp => rmatch r2 pv rs cp k)
  | Group r' =>
      rmatch r' prev rest cap
             (fun pv rs _ => k pv rs (Some (consumed rest rs)))
  end.

End Backtracking.

(** A match starting exactly here: the text left after it and the
    group. *)
Definition match_here (r : regex) (prev : option ascii) (rest : string)
  : option (string * option string) :=
  rmatch (string * option string) r prev rest None
         (fun _ rs cp => Some (rs, cp)).

(** [re.findall] for a pattern with one group: the leftmost match, then
    the leftmost match after its end, and so on; [skip] counts the
    characters still covered by the last match.  The patterns below use at
    least one character, so the special rule for empty matches is not
    needed. *)
Fixpoint findall_from (r : regex) (prev : option ascii) (s : string)
         (skip : nat) {struct s} : list string :=
  match skip with
  | S skip' =>
      match s with
      | String c s' => findall_from r (Some c) s' skip'
      | EmptyString => []
      end
  | 0 =>
      match match_here r prev s with
      | Some (rs, cp) =>
          let n := String.length s - String.length rs in
          let g := match cp with Some g => g | None => "" end in
          g :: match s with
               | String c s' => findall_from r (Some c) s' (n - 1)
               | EmptyString => []
               end
      | None =>
          match s with
          | String c s' => findall_from r (Some c) s' 0
          | EmptyString => []
          end
      end
  end.

Definition findall (r : regex) (s : string) : list string :=
  findall_from r None s 0.

Fixpoint seq (rs : list regex) : regex :=
  match rs with
  | [] => Lit ""
  | [r] => r
  | r :: rs' => Seq r (seq rs')
  end.

(** [\b<verb>\s+(?:audit\s+)?(\d+)\b] *)
Definition verb_pattern (verb : string) : regex :=
  seq [Boundary; Lit verb; Plus isspace;
       Opt (seq [Lit "audit"; Plus isspace]);
       Group (Plus isdecimal); Boundary].

(** [\baudit\s+(?:id\s+)?(\d+)\b] *)
Definition audit_pattern : regex :=
  seq [Boundary; Lit "audit"; Plus isspace;
       Opt (seq [Lit "id"; Plus isspace]);
       Group (Plus isdecimal); Boundary].

(** The list [audit_id_patterns] of [extract_audit_entities]. *)
Definition audit_id_patterns : list regex :=
  [ audit_pattern;
    (* \bid\s+(\d+)\b *)
    seq [Boundary; Lit "id"; Plus isspace; Group (Plus isdecimal); Boundary];
    verb_pattern "execute";
    verb_pattern "run";
    verb_pattern "start";
    verb_pattern "launch";
    (* \b(\d+)(?:st|nd|rd|th)?\s*audit\b *)
    seq [Boundary; Group (Plus isdecimal);
         Opt (Alt (Lit "st") (Alt (Lit "nd") (Alt (Lit "rd") (Lit "th"))));
         Star isspace; Lit "audit"; Boundary] ].

End Regex.

(* ================================================================= *)
(** ** Python dictionaries with string keys *)

Module Dict.

Section Dict.

Variable V : Type.

Definition dict : Type := list (string * V).

(** [d.get(k)] *)
Fixpoint get (d : dict) (k : string) : option V :=
  match d with
  | [] => None
  | (k', v) :: d' => if String.eqb k' k then Some v else get d' k
  end.

(** [k in d] *)
Definition mem (d : dict) (k : string) : bool :=
  match get d k with Some _ => true | None => false end.

(** [d[k] = v]: an existing key keeps its place, a new one goes last. *)
Fixpoint set (d : dict) (k : string) (v : V) : dict :=
  match d with
  | [] => [(k, v)]
  | (k', v') :: d' =>
      if String.eqb k' k then (k', v) :: d' else (k', v') :: set d' k v
  end.

Definition keys (d : dict) : list string := map fst d.

End Dict.

Arguments get {V} d k.
Arguments mem {V} d k.
Arguments set {V} d k v.
Arguments keys {V} d.

End Dict.

(* ================================================================= *)
(** ** database.py: the loaders and the process-wide cache *)

Module Database.

Local Open Scope string_scope.

(** An audit as the loader builds it (a dictionary with these keys). *)
Record audit : Type := {
  audit_id : string;
  audit_name : string;
  audit_category : string;
  audit_tags : string;
  description : string;
  device_categories : list string
}.

Record device : Type := {
  device_id : string;
  device_name : string;
  device_category : string
}.

Record report : Type := {
  report_id : string;
  report_audit_id : string;
  report_device_id : string;
  report_audit_name : string;
  report_device_name : string;
  execution_time : option string;
  status : string;
  results : string
}.

(** Rows of the three tables as the cursor returns them; the text columns
    are taken to hold text. *)
Record audit_row : Type := {
  row_audit_id : Z;
  row_audit_name : string;
  row_category : string;
  row_tags : string;
  row_description : string;
  row_device_categories : option string
}.

Record device_row : Type := {
  row_device_id : Z;
  row_device_name : string;
  row_device_category : string
}.

Record report_row : Type := {
  row_report_id : Z;
  row_report_audit_id : Z;
  row_report_device_id : Z;
  row_report_audit_name : string;
  row_report_device_name : string;
  row_execution_time : option string;
  row_status : string;
  row_results : string
}.

(** The backing store seen from the process: for each table either its
    rows, or [None] when the connection cannot be opened or the query
    raises (the loaders treat both alike). *)
Record store : Type := {
  audits_table : option (list audit_row);
  devices_table : option (list device_row);
  reports_table : option (list report_row)
}.

(** [str(n)] for an integer. *)
Definition str_of_int (n : Z) : string :=
  NilEmpty.string_of_int (Z.to_int n).

(** [s.split(',')] *)
Fixpoint split_on (sep : ascii) (cur s : string) : list string :=
  match s with
  | EmptyString => [cur]
  | String c s' =>
      if Ascii.eqb c sep then cur :: split_on sep "" s'
      else split_on sep (String.append cur (String c "")) s'
  end.

Definition load_audits_data_from_db (db : store) : list audit :=
  match audits_table db with
  | None => []
  | Some rows =>
      map (fun row =>
             {| audit_id := str_of_int (row_audit_id row);
                audit_name := row_audit_name row;
                audit_category := row_category row;
                audit_tags := row_tags row;
                description := row_description row;
                device_categories :=
                  match row_device_categories row with
                  | Some s => if String.eqb s "" then []
                              else split_on ","%char "" s
                  | None => []
                  end |}) rows
  end.

Definition load_devices_data_from_db (db : store) : list device :=
  match devices_table db with
  | None => []
  | Some rows =>
      map (fun row =>
             {| device_id := str_of_int (row_device_id row);
                device_name := row_device_name row;
                device_category := row_device_category row |}) rows
  end.

Definition load_reports_data_from_db (db : store) : list report :=
  match reports_table db with
  | None => []
  | Some rows =>
      map (fun row =>
             {| report_id := str_of_int (row_report_id row);
                report_audit_id := str_of_int (row_report_audit_id row);
                report_device_id := str_of_int (row_report_device_id row);
                report_audit_name := row_report_audit_name row;
                report_device_name := row_report_device_name row;
                execution_time := row_execution_time row;
                status := row_status row;
                results := row_results row |}) rows
  end.

Definition generate_audit_device_compatibility (audits_data : list audit)
  : Dict.dict (list string) :=
  fold_left (fun compatibility a =>
               Dict.set compatibility (audit_name a) (device_categories a))
            audits_data [].

(** The hardcoded table [audit_aliases]. *)
Definition audit_aliases : Dict.dict (list string) :=
  [ ("Check Device Status and IP Address",
     ["device status"; "IP address check"; "status and IP audit";
      "device info"]);
    ("Check Uptime and Load Average",
     ["uptime check"; "load average audit"; "system load";
      "uptime and performance"]);
    ("Check Listening Ports",
     ["open ports"; "port check"; "listening ports audit"; "active ports"]);
    ("Check Logged in Users and Sessions",
     ["logged-in users"; "user sessions"; "login audit";
      "current sessions"]);
    ("Check Running Processes and Memory Usage",
     ["process check"; "memory usage"; "running processes";
      "CPU and memory audit"]);
    ("PC Security Posture",
     ["PC security check"; "endpoint posture"; "device hardening audit";
      "security posture assessment"]);
    ("Server Security Baseline",
     ["server baseline"; "security baseline"; "server audit";
      "system hardening check"]);
    ("Switch MAC Table",
     ["mac address table"; "switch MAC audit"; "MAC table check";
      "learned MACs"]);
    ("Switch Port Status",
     ["port status"; "switch port check"; "interface status";
      "switch interface audit"]);
    ("Router Network Config",
     ["router config"; "network config check"; "router setup";
      "routing configuration"]);
    ("Router Security Audit",
     ["router security"; "router hardening audit";
      "network security check"; "router vulnerability scan"]);
    ("Server Services Audit",
     ["server services"; "running services check"; "service audit";
      "server process status"]) ].

Record metadata_t : Type := {
  total_audits : nat;
  total_devices : nat;
  total_reports : nat;
  last_updated : nat
}.

(** The dictionary kept in [_cached_data]. *)
Record cached_data : Type := {
  audit_names : list string;
  audit_ids : list string;
  audit_categories : list string;
  device_names : list string;
  cached_device_categories : list string;
  audit_device_compatibility : Dict.dict (list string);
  cached_audit_aliases : Dict.dict (list string);
  audits : list audit;
  devices : list device;
  reports : list report;
  metadata : metadata_t
}.

(** The two module globals. *)
Record process : Type := {
  _cached_data : option cached_data;
  _cache_timestamp : option nat
}.

(** A set of strings: its elements without repetition, in the order they
    were added. *)
Definition set_add (x : string) (s : list string) : list string :=
  if existsb (String.eqb x) s then s else s ++ [x].

Definition set_of (l : list string) : list string :=
  fold_left (fun s x => set_add x s) l [].

Section Sets.

(** The order in which Python walks a set of strings is not fixed by the
    language; it is a parameter. *)
Variable set_iteration : list string -> list string.

(** [refresh_all_data]; [now] is the clock reading. *)
Definition refresh_all_data (db : store) (now : nat) (p : process)
  : cached_data * process :=
  let audits_data := load_audits_data_from_db db in
  let devices_data := load_devices_data_from_db db in
  let reports_data := load_reports_data_from_db db in
  let fresh :=
    {| audit_names := map audit_name audits_data;
       audit_ids := map audit_id audits_data;
       audit_categories :=
         set_iteration (set_of (map audit_category audits_data));
       device_names := map device_name devices_data;
       cached_device_categories :=
         set_iteration (set_of (map device_category devices_data));
       audit_device_compatibility :=
         generate_audit_device_compatibility audits_data;
       cached_audit_aliases := audit_aliases;
       audits := audits_data;
       devices := devices_data;
       reports := reports_data;
       metadata :=
         {| total_audits := List.length audits_data;
            total_devices := List.length devices_data;
            total_reports := List.length reports_data;
            last_updated := now |} |} in
  (fresh, {| _cached_data := Some fresh; _cache_timestamp := Some now |}).

End Sets.

Definition get_cached_data (p : process) : option cached_data :=
  _cached_data p.

(** *** The work items of the engineers *)

(** What the [engineer_tasks] table does with an INSERT: [None] when no
    connection can be opened, otherwise the answer of the statement,
    [None] when it raises and the new [task_id] when it succeeds;
    [close_raises] tells whether closing the connection fails. *)
Record task_store : Type := {
  connection : option (string -> string -> string -> option Z);
  close_raises : bool
}.

(** A call that may raise. *)
Inductive outcome (A : Type) : Type :=
| Ok (a : A)
| Exc (what : string).

Arguments Ok {A} a.
Arguments Exc {A} what.

Definition insert_engineer_task (ts : task_store)
           (user_id request_description task_type : string)
  : outcome (option Z) :=
  match connection ts with
  | None => Ok None
  | Some execute =>
      let answer :=
        if String.eqb user_id "" || String.eqb request_description ""
        then None
        else execute user_id request_description task_type in
      (* finally: cursor.close(); conn.close() *)
      if close_raises ts then Exc "close" else Ok answer
  end.

End Database.

(* ================================================================= *)
(** ** AuditExecutionAgent.py: ExecutionEntityExtractor *)

Module Extractor.
Import Database.

Local Open Scope string_scope.

(** Exceptions the operations of the extractor could raise. *)
Inductive exn : Type :=
| KeyError (key : string)
| ZeroDivisionError.

(** [d[k]] *)
Definition subscript {V : Type} (d : Dict.dict V) (k : string) : exn + V :=
  match Dict.get d k with
  | Some v => inr v
  | None => inl (KeyError k)
  end.

(** [m / n] on two counts. *)
Definition truediv (m n : nat) : exn + Q :=
  if Nat.eqb n 0 then inl ZeroDivisionError
  else inr (inject_Z (Z.of_nat m) / inject_Z (Z.of_nat n))%Q.

Definition Qlt_bool (x y : Q) : bool := negb (Qle_bool y x).

(** The attributes set once in [__init__]. *)
Definition fuzzy_threshold : Q := 0.70%Q.

Definition confidence_scores : Dict.dict Q :=
  [("exact", 1.0%Q); ("fuzzy", 0.85%Q); ("alias", 0.80%Q);
   ("category", 0.75%Q)].

Definition exact_score : Q := 1.0%Q.
Definition fuzzy_score : Q := 0.85%Q.

(** The data containers of an instance; [audit_categories] is a set. *)
Record extractor : Type := {
  data : option cached_data;
  audits_data : list audit;
  audit_categories : list string;
  audit_name_to_id : Dict.dict string;
  audit_id_to_name : Dict.dict string;
  category_to_audits : Dict.dict (list audit)
}.

(** The containers as [__init__] leaves them before loading. *)
Definition empty_extractor : extractor :=
  {| data := None; audits_data := []; audit_categories := [];
     audit_name_to_id := []; audit_id_to_name := [];
     category_to_audits := [] |}.

Record entity : Type := {
  value : string;
  confidence : Q
}.

(** The dictionary returned by [extract_audit_entities]; the key
    [category_audits] is present in the two category answers only. *)
Record result : Type := {
  entities : Dict.dict entity;
  type : string;
  category_audits : option (list audit);
  success : bool
}.

(** Where a stage of the cascade leaves the function. *)
Inductive step : Type :=
| Continue
| Return (r : result)
| Raise (e : exn).

Definition orelse (s next : step) : step :=
  match s with
  | Continue => next
  | _ => s
  end.

(** [similarity] (the same in [entity_extractor.AuditEntityRecognizer]). *)
Definition similarity (a b : string) : Q :=
  Difflib.ratio (list_ascii_of_string (Text.lower a))
                (list_ascii_of_string (Text.lower b)).

(** One turn of the loop of [_build_lookup_maps]. *)
Definition add_audit (self : extractor) (a : audit) : extractor :=
  let id := audit_id a in
  let name := audit_name a in
  let category := Text.lower (audit_category a) in
  let c2a := category_to_audits self in
  let c2a := if Dict.mem c2a category then c2a else Dict.set c2a category [] in
  let c2a :=
    Dict.set c2a category
             (match Dict.get c2a category with
              | Some l => (l ++ [a])%list
              | None => [a]
              end) in
  {| data := data self;
     audits_data := audits_data self;
     audit_categories := set_add category (audit_categories self);
     audit_name_to_id := Dict.set (audit_name_to_id self) (Text.lower name) id;
     audit_id_to_name := Dict.set (audit_id_to_name self) id name;
     category_to_audits := c2a |}.

Definition _build_lookup_maps (self : extractor) : extractor :=
  match audits_data self with
  | [] => self
  | _ =>
      fold_left add_audit (audits_data self)
                {| data := data self;
                   audits_data := audits_data self;
                   audit_categories := [];
                   audit_name_to_id := [];
                   audit_id_to_name := [];
                   category_to_audits := [] |}
  end.

(** [self.data = d; self.audits_data = d['audits']; _build_lookup_maps()] *)
Definition adopt (self : extractor) (d : cached_data) : extractor :=
  _build_lookup_maps
    {| data := Some d;
       audits_data := audits d;
       audit_categories := audit_categories self;
       audit_name_to_id := audit_name_to_id self;
       audit_id_to_name := audit_id_to_name self;
       category_to_audits := category_to_audits self |}.

Definition get_audits_by_category (self : extractor) (category : string)
  : list audit :=
  match Dict.get (category_to_audits self) (Text.lower category) with
  | Some l => l
  | None => []
  end.

Section Sets.

Variable set_iteration : list string -> list string.

Definition _try_cached_fallback (p : process) (self : extractor)
  : extractor :=
  match get_cached_data p with
  | Some d =>
      match audits d with
      | [] => {| data := Some d; audits_data := [];
                 audit_categories := audit_categories self;
                 audit_name_to_id := audit_name_to_id self;
                 audit_id_to_name := audit_id_to_name self;
                 category_to_audits := category_to_audits self |}
      | _ => adopt self d
      end
  | None => {| data := None; audits_data := [];
               audit_categories := audit_categories self;
               audit_name_to_id := audit_name_to_id self;
               audit_id_to_name := audit_id_to_name self;
               category_to_audits := category_to_audits self |}
  end.

Definition load_fresh_audit_data (db : store) (now : nat) (p : process)
           (self : extractor) : process * extractor :=
  let '(d, p') := refresh_all_data set_iteration db now p in
  match audits d with
  | [] => (p', _try_cached_fallback p'
                 {| data := Some d; audits_data := audits_data self;
                    audit_categories := audit_categories self;
                    audit_name_to_id := audit_name_to_id self;
                    audit_id_to_name := audit_id_to_name self;
                    category_to_audits := category_to_audits self |})
  | _ => (p', adopt self d)
  end.

(** [__init__] *)
Definition new_extractor (db : store) (now : nat) (p : process)
  : process * extractor :=
  load_fresh_audit_data db now p empty_extractor.

Definition refresh_data_if_needed (db : store) (now : nat) (p : process)
           (self : extractor) : bool * process * extractor :=
  let '(fresh_data, p') := refresh_all_data set_iteration db now p in
  match audits fresh_data with
  | [] => (false, p', self)
  | _ => (true, p', adopt self fresh_data)
  end.

(** *** The cascade of [extract_audit_entities] *)

(** 1. exact audit id *)
Fixpoint id_matches (self : extractor) (matches : list string) : step :=
  match matches with
  | [] => Continue
  | m :: matches' =>
      if Dict.mem (audit_id_to_name self) m
      then match subscript (audit_id_to_name self) m with
           | inl e => Raise e
           | inr name =>
               Return
                 {| entities :=
                      [("audit_id",
                        {| value := m; confidence := exact_score |});
                       ("audit_name",
                        {| value := name; confidence := exact_score |})];
                    type := "specific_audit";
                    category_audits := None;
                    success := true |}
           end
      else id_matches self matches'
  end.

Fixpoint exact_id (self : extractor) (patterns : list Regex.regex)
         (text_clean : string) : step :=
  match patterns with
  | [] => Continue
  | pattern :: patterns' =>
      orelse (id_matches self (Regex.findall pattern text_clean))
             (exact_id self patterns' text_clean)
  end.

(** 2. exact audit name *)
Fixpoint exact_name (items : list (string * string)) (text_clean : string)
  : step :=
  match items with
  | [] => Continue
  | (name, id) :: items' =>
      if Text.contains name text_clean
      then Return
             {| entities :=
                  [("audit_name",
                    {| value := name; confidence := exact_score |});
                   ("audit_id",
                    {| value := id; confidence := exact_score |})];
                type := "specific_audit";
                category_audits := None;
                success := true |}
      else exact_name items' text_clean
  end.

Definition category_answer (self : extractor) (category : string)
           (score : Q) : result :=
  {| entities :=
       [("audit_category", {| value := category; confidence := score |})];
     type := "category_clarification";
     category_audits := Some (get_audits_by_category self category);
     success := true |}.

(** 3. exact category *)
Fixpoint exact_category (self : extractor) (categories : list string)
         (text_clean : string) : step :=
  match categories with
  | [] => Continue
  | category :: categories' =>
      if Text.contains category text_clean
      then Return (category_answer self category exact_score)
      else exact_category self categories' text_clean
  end.

(** 4. fuzzy audit name *)

(** The loop over [text_words], left by [break] at the first hit. *)
Fixpoint word_hit (audit_word : string) (text_words : list string) : bool :=
  match text_words with
  | [] => false
  | text_word :: text_words' =>
      if Qle_bool fuzzy_threshold (similarity audit_word text_word)
      then true
      else word_hit audit_word text_words'
  end.

Fixpoint count_matches (audit_words text_words : list string) : nat :=
  match audit_words with
  | [] => 0
  | audit_word :: audit_words' =>
      (if word_hit audit_word text_words then 1 else 0)
      + count_matches audit_words' text_words
  end.

Definition match_percentage (name text_clean : string) : exn + Q :=
  let audit_words := Text.split name in
  let text_words := Text.split text_clean in
  let matches := count_matches audit_words text_words in
  match audit_words with
  | [] => inr 0%Q
  | _ => truediv matches (List.length audit_words)
  end.

(** The loop over the names; the state is [(best_name_match,
    best_name_score)]. *)
Fixpoint best_name (names : list string) (text_clean : string)
         (best : option string * Q) : exn + (option string * Q) :=
  match names with
  | [] => inr best
  | name :: names' =>
      match match_percentage name text_clean with
      | inl e => inl e
      | inr percentage =>
          if Qlt_bool (snd best) percentage && Qle_bool 0.5%Q percentage
          then best_name names' text_clean (Some name, percentage)
          else best_name names' text_clean best
      end
  end.

Definition fuzzy_name (self : extractor) (text_clean : string) : step :=
  match best_name (Dict.keys (audit_name_to_id self)) text_clean
                  (None, 0%Q) with
  | inl e => Raise e
  | inr (best_name_match, best_name_score) =>
      match best_name_match with
      | None => Continue
      | Some name =>
          if String.eqb name "" then Continue
          else
            match subscript (audit_name_to_id self) name with
            | inl e => Raise e
            | inr id =>
                let confidence := (fuzzy_score * best_name_score)%Q in
                Return
                  {| entities :=
                       [("audit_name",
                         {| value := name; confidence := confidence |});
                        ("audit_id",
                         {| value := id; confidence := confidence |})];
                     type := "specific_audit";
                     category_audits := None;
                     success := true |}
            end
      end
  end.

(** 5. fuzzy category *)
Fixpoint category_hit (category : string) (text_words : list string)
  : bool :=
  match text_words with
  | [] => false
  | word :: text_words' =>
      if Qle_bool fuzzy_threshold (similarity word category) then true
      else category_hit category text_words'
  end.

Fixpoint fuzzy_category (self : extractor) (categories : list string)
         (text_clean : string) : step :=
  match categories with
  | [] => Continue
  | category :: categories' =>
      if category_hit category (Text.split text_clean)
      then Return (category_answer self category fuzzy_score)
      else fuzzy_category self categories' text_clean
  end.

Definition no_data : result :=
  {| entities := []; type := "no_data"; category_audits := None;
     success := false |}.

Definition no_match : result :=
  {| entities := []; type := "no_match"; category_audits := None;
     success := false |}.

(** The five stages in the order of the source, each entered only when
    the ones before it fell through. *)
Definition cascade (self : extractor) (text_clean : string) : step :=
  orelse (exact_id self Regex.audit_id_patterns text_clean)
  (orelse (exact_name (audit_name_to_id self) text_clean)
  (orelse (exact_category self (set_iteration (audit_categories self))
                          text_clean)
  (orelse (fuzzy_name self text_clean)
          (fuzzy_category self (set_iteration (audit_categories self))
                          text_clean)))).

(** The part of [extract_audit_entities] that follows the refresh. *)
Definition extract_from (self : extractor) (text : string) : exn + result :=
  let text_clean := Text.preprocess_text text in
  match audits_data self with
  | [] => inr no_data
  | _ =>
      match cascade self text_clean with
      | Return r => inr r
      | Raise e => inl e
      | Continue => inr no_match
      end
  end.

Definition extract_audit_entities (db : store) (now : nat) (p : process)
           (self : extractor) (text : string)
  : (exn + result) * process * extractor :=
  let '(_, p', self') := refresh_data_if_needed db now p self in
  (extract_from self' text, p', self').

End Sets.

End Extractor.

(* ================================================================= *)
(** ** IntentClassifier/Classifier.py *)

Module Classifier.

(** Reading the persisted weights and the label encoder. *)
Inductive event : Type :=
| LoadWeights.

Record IntentClassifier : Type := {
  is_loaded : bool
}.

(** [IntentClassifier()] *)
Definition new_classifier : IntentClassifier := {| is_loaded := false |}.

Definition load_model (self : IntentClassifier)
  : list event * IntentClassifier :=
  ([LoadWeights], {| is_loaded := true |}).

Section Model.

(** The trained network: label and confidence (rounded to four places)
    for a text. *)
Variable infer : string -> string * Q.

Definition predict (self : IntentClassifier) (text : string)
  : list event * IntentClassifier * (string * Q) :=
  let '(loads, self') :=
    if is_loaded self then ([], self) else load_model self in
  (loads, self', infer text).

(** Successive calls of [predict] on one instance. *)
Fixpoint predict_each (self : IntentClassifier) (texts : list string)
  : list event :=
  match texts with
  | [] => []
  | text :: texts' =>
      let '(loads, self', _) := predict self text in
      loads ++ predict_each self' texts'
  end.

End Model.

End Classifier.

(* ================================================================= *)
(** ** OrchestratorAgent.py *)

Module Orchestrator.
Import Database.

Local Open Scope string_scope.

(** config.py *)
Definition ORCHESTRATOR_AGENT_TOPIC : string := "OrchestratorAgent".
Definition AUDIT_RETRIEVAL_AGENT_TOPIC : string := "AuditRetrievalAgent".
Definition EXECUTE_AUDIT_AGENT_TOPIC : string := "ExecuteAuditAgent".
Definition ENGINEER_AGENT_TOPIC : string := "EngineerAgent".
Definition USER_TOPIC : string := "User".

Definition INTENT_MAPPING : Dict.dict string :=
  [("EXECUTE_AUDIT", EXECUTE_AUDIT_AGENT_TOPIC);
   ("LIST_AUDITS", AUDIT_RETRIEVAL_AGENT_TOPIC);
   ("GET_AUDIT_HISTORY", AUDIT_RETRIEVAL_AGENT_TOPIC);
   ("GET_AUDIT_HISTORY_FILTERED", AUDIT_RETRIEVAL_AGENT_TOPIC);
   ("AUDIT_RETRIEVAL_BY_CATEGORY", AUDIT_RETRIEVAL_AGENT_TOPIC);
   ("ENGINEER_AUDIT", ENGINEER_AGENT_TOPIC);
   ("GENERAL", "LLM_HANDLER")].

(** The initial value of the global [CONFIDENCE_THRESHOLD]. *)
Definition CONFIDENCE_THRESHOLD : Q := 0.8000%Q.

(** A message of the conversation. *)
Record message : Type := {
  content : string;
  source : string
}.

(** The two system prompts. *)
Inductive system_message : Type :=
| _general_system_message
| _classification_system_message.

(** What the agent does to the outside, in order. *)
Inductive event : Type :=
| Classify (e : Classifier.event)
| LLMCall (system : system_message) (context : list message)
| SendToUser (context : list message)
| Delegate (topic intent action original_message : string)
           (context : list message)
| InsertTask (user_id request_description task_type : string)
| NotifyEngineer (task_id : Z)
                 (user_id audit_description task_type : string).

(** The collaborators of one run of the handler. *)
Record world : Type := {
  infer : string -> string * Q;
  llm : system_message -> list message -> option string;
  tasks : task_store;
  session_id : string;
  notify_raises : bool;
  agent_type : string
}.

(** [predict_intent]: a new classifier for every call. *)
Definition predict_intent (w : world) (text : string)
  : list Classifier.event * (string * Q) :=
  let classifier := Classifier.new_classifier in
  let '(loads, _, r) :=
    Classifier.predict (infer w) classifier (Text.lower text) in
  (loads, r).

Definition _extract_user_message (context : list message) : string :=
  match rev context with
  | [] => ""
  | last_message :: _ => content last_message
  end.

Definition _send_response_to_user (w : world) (context : list message)
           (response_content : string) : list event * list message :=
  let context' :=
    (context ++ [{| content := response_content;
                    source := agent_type w |}])%list in
  ([SendToUser context'], context').

Definition apology : string :=
  "I apologize, but I'm having trouble processing your request right now. Please try again.".

Definition handle_with_llm (w : world) (user_message : string)
           (message_context : list message) (scenario : string)
  : list event * string :=
  let system_msg :=
    if String.eqb scenario "general" then _general_system_message
    else if String.eqb scenario "low_confidence"
         then _classification_system_message
         else _general_system_message in
  ([LLMCall system_msg message_context],
   match llm w system_msg message_context with
   | Some text => text
   | None => apology
   end).

Definition extract_intent_from_llm_response (llm_response : string)
  : string :=
  let response_lower := Text.lower llm_response in
  if Text.contains "list_audits" response_lower then "LIST_AUDITS"
  else if Text.contains "audit_retrieval_by_category" response_lower
       then "AUDIT_RETRIEVAL_BY_CATEGORY"
  else if Text.contains "get_audit_history_filtered" response_lower
       then "GET_AUDIT_HISTORY_FILTERED"
  else if Text.contains "get_audit_history" response_lower
       then "GET_AUDIT_HISTORY"
  else if Text.contains "execute_audit" response_lower
       then "EXECUTE_AUDIT"
  else if Text.contains "engineer_audit" response_lower
       then "ENGINEER_AUDIT"
  else "GENERAL".

Definition success_message : string :=
  "📤 Your audit creation request has been forwarded to our engineering team.
⏳ Please wait for the engineer to process your request...".

Definition error_message : string :=
  "❌ Sorry, there was an error processing your request. Please try again.".

(** Truth value of the [task_id] returned by the insert. *)
Definition truthy_id (task_id : option Z) : option Z :=
  match task_id with
  | Some id => if Z.eqb id 0 then None else Some id
  | None => None
  end.

Definition is_retrieval (intent : string) : bool :=
  existsb (String.eqb intent)
          ["LIST_AUDITS"; "AUDIT_RETRIEVAL_BY_CATEGORY";
           "GET_AUDIT_HISTORY"; "GET_AUDIT_HISTORY_FILTERED"].

Definition route_to_agent (w : world) (intent : string)
           (context : list message) : list event * list message :=
  let user_message := _extract_user_message context in
  if is_retrieval intent then
    let action :=
      if String.eqb intent "LIST_AUDITS" then "list_audits"
      else if String.eqb intent "AUDIT_RETRIEVAL_BY_CATEGORY"
           then "get_audits_by_category"
      else if String.eqb intent "GET_AUDIT_HISTORY"
           then "get_audit_history"
      else "get_audit_history_filtered" in
    ([Delegate AUDIT_RETRIEVAL_AGENT_TOPIC intent action user_message
               context], context)
  else if String.eqb intent "EXECUTE_AUDIT" then
    ([Delegate EXECUTE_AUDIT_AGENT_TOPIC intent "execute_audit"
               user_message context], context)
  else if String.eqb intent "ENGINEER_AUDIT" then
    let user_session_id := session_id w in
    let call := InsertTask user_session_id user_message "create_new_audit" in
    match insert_engineer_task (tasks w) user_session_id user_message
                               "create_new_audit" with
    | Ok task_id =>
        match truthy_id task_id with
        | Some id =>
            let '(sent, context') :=
              _send_response_to_user w context success_message in
            let notified :=
              if notify_raises w then []
              else [NotifyEngineer id user_session_id user_message
                                   "create_new_audit"] in
            (call :: sent ++ notified, context')%list
        | None =>
            let '(sent, context') :=
              _send_response_to_user w context error_message in
            (call :: sent, context')
        end
    | Exc _ =>
        let '(sent, context') :=
          _send_response_to_user w context error_message in
        (call :: sent, context')
    end
  else ([], context).

Definition no_content : string :=
  "❌ No message content found. Please try again.".

Definition handle_task (w : world) (threshold : Q) (context : list message)
  : list event * list message :=
  let user_message := _extract_user_message context in
  if String.eqb user_message "" then
    _send_response_to_user w context no_content
  else
    let '(loads, (predicted_intent, confidence)) :=
      predict_intent w user_message in
    let classified := map Classify loads in
    if Qle_bool threshold confidence
       && negb (String.eqb predicted_intent "GENERAL")
    then
      let '(routed, context') := route_to_agent w predicted_intent context in
      (classified ++ routed, context')%list
    else if String.eqb predicted_intent "GENERAL" then
      let '(asked, llm_response) :=
        handle_with_llm w user_message context "general" in
      let '(sent, context') :=
        _send_response_to_user w context llm_response in
      (classified ++ asked ++ sent, context')%list
    else
      let '(asked, llm_response) :=
        handle_with_llm w user_message context "low_confidence" in
      let clarified_intent :=
        extract_intent_from_llm_response llm_response in
      if negb (String.eqb clarified_intent "GENERAL") then
        let '(routed, context') :=
          route_to_agent w clarified_intent context in
        (classified ++ asked ++ routed, context')%list
      else
        let '(asked', fallback_response) :=
          handle_with_llm w user_message context "general" in
        let '(sent, context') :=
          _send_response_to_user w context fallback_response in
        (classified ++ asked ++ asked' ++ sent, context')%list.

(** The classifier loads made while a sequence of messages is served. *)
Fixpoint classifier_loads (w : world) (texts : list string)
  : list Classifier.event :=
  match texts with
  | [] => []
  | text :: texts' =>
      (fst (predict_intent w text) ++ classifier_loads w texts')%list
  end.

End Orchestrator.

(* ================================================================= *)
(** ** Vocabulary of the statements about the router *)

Module Routing.
Import Orchestrator.

Local Open Scope string_scope.

Definition is_llm_call (e : event) : bool :=
  match e with
  | LLMCall _ _ => true
  | _ => false
  end.

(** A message published for one of the handlers. *)
Definition is_handler_message (e : event) : bool :=
  match e with
  | Delegate _ _ _ _ _ => true
  | NotifyEngineer _ _ _ _ => true
  | _ => false
  end.

Definition is_engineer_notification (e : event) : bool :=
  match e with
  | NotifyEngineer _ _ _ _ => true
  | _ => false
  end.

Definition calls_llm (trace : list event) : bool := existsb is_llm_call trace.

Definition dispatches (trace : list event) : bool :=
  existsb is_handler_message trace.

(** The reply appended to the conversation and sent to the user. *)
Definition reply (w : world) (context : list message) (text : string)
  : event :=
  SendToUser (context ++ [{| content := text; source := agent_type w |}]).

(** The answer of [handle_with_llm]. *)
Definition llm_text (w : world) (system : system_message)
           (context : list message) : string :=
  match llm w system context with
  | Some text => text
  | None => apology
  end.

(** The keyword table of the spec, in the order the source tests it. *)
Definition keyword_table : list (string * string) :=
  [("list_audits", "LIST_AUDITS");
   ("audit_retrieval_by_category", "AUDIT_RETRIEVAL_BY_CATEGORY");
   ("get_audit_history_filtered", "GET_AUDIT_HISTORY_FILTERED");
   ("get_audit_history", "GET_AUDIT_HISTORY");
   ("execute_audit", "EXECUTE_AUDIT");
   ("engineer_audit", "ENGINEER_AUDIT")].

(** The label of the first keyword of the table found in the text. *)
Fixpoint first_keyword (table : list (string * string)) (text : string)
  : string :=
  match table with
  | [] => "GENERAL"
  | (keyword, label) :: table' =>
      if Text.contains keyword text then label
      else first_keyword table' text
  end.

(** A world and a conversation for the examples. *)
Definition demo_world (label : string) (conf : Q) (answer : option string)
           (insert : option Z) : world :=
  {| infer := fun _ => (label, conf);
     llm := fun system _ =>
              match system with
              | _classification_system_message => answer
              | _general_system_message => Some "How can I help?"
              end;
     tasks := {| Database.connection := Some (fun _ _ _ => insert);
                 Database.close_raises := false |};
     session_id := "1a2b3c4d";
     notify_raises := false;
     agent_type := ORCHESTRATOR_AGENT_TOPIC |}.

Definition demo_context (text : string) : list message :=
  [{| content := text; source := "User" |}].

End Routing.

(* ================================================================= *)
(** ** Vocabulary of the statements about the catalog and the resolver *)

Module Catalog.
Import Database Extractor.

Local Open Scope string_scope.

(** The backing store is unreachable or returns no audits. *)
Definition no_audits (db : store) : Prop :=
  audits_table db = None \/ audits_table db = Some [].

(** The answer of the two stages that name one audit. *)
Definition specific_audit (first second : string * string) (score : Q)
  : result :=
  {| entities :=
       [(fst first, {| value := snd first; confidence := score |});
        (fst second, {| value := snd second; confidence := score |})];
     type := "specific_audit";
     category_audits := None;
     success := true |}.

(** The words of an audit name for which some word of the text is
    similar enough. *)
Definition similar_words (name text_clean : string) : list string :=
  filter (fun audit_word =>
            existsb (fun text_word =>
                       Qle_bool 0.70%Q (similarity audit_word text_word))
                    (Text.split text_clean))
         (Text.split name).

(** The match percentage of the spec: words with a hit over words. *)
Definition percentage (name text_clean : string) : Q :=
  match Text.split name with
  | [] => 0%Q
  | audit_words =>
      (inject_Z (Z.of_nat (List.length (similar_words name text_clean)))
       / inject_Z (Z.of_nat (List.length audit_words)))%Q
  end.

(** Data for the examples: two audits, sets walked in insertion order. *)
Definition in_order (l : list string) : list string := l.

Definition demo_rows : list audit_row :=
  [ {| row_audit_id := 3; row_audit_name := "Router Security Audit";
       row_category := "Security"; row_tags := "";
       row_description := ""; row_device_categories := None |};
    {| row_audit_id := 16; row_audit_name := "Cisco Audit New";
       row_category := "Network"; row_tags := "";
       row_description := "";
       row_device_categories := Some "Router,Switch" |} ].

Definition demo_store : store :=
  {| audits_table := Some demo_rows;
     devices_table := Some [];
     reports_table := Some [] |}.

Definition unreachable_store : store :=
  {| audits_table := None; devices_table := None; reports_table := None |}.

Definition fresh_process : process :=
  {| _cached_data := None; _cache_timestamp := None |}.

(** The process and the extractor after a start with the demo store. *)
Definition demo_process : process :=
  fst (new_extractor in_order demo_store 0 fresh_process).

Definition demo_extractor : extractor :=
  snd (new_extractor in_order demo_store 0 fresh_process).

(** The catalog of the scenario of the spec: one audit, number 16. *)
Definition scenario_store : store :=
  {| audits_table :=
       Some [ {| row_audit_id := 16; row_audit_name := "Cisco Audit New";
                 row_category := "Network"; row_tags := "";
                 row_description := "";
                 row_device_categories := None |} ];
     devices_table := Some [];
     reports_table := Some [] |}.

End Catalog.

(* ================================================================= *)
(** ** Vocabulary of the statements about the cascade *)

Module Cascade.
Import Database Extractor.

(** A stage that does not leave by an exception. *)
Definition quiet (s : step) : Prop :=
  match s with
  | Raise _ => False
  | _ => True
  end.

(** The five stages on a cleaned text, in the order of the source. *)
Definition stages (set_iteration : list string -> list string)
           (self : extractor) (text_clean : string) : list step :=
  [ exact_id self Regex.audit_id_patterns text_clean;
    exact_name (audit_name_to_id self) text_clean;
    exact_category self (set_iteration (audit_categories self)) text_clean;
    fuzzy_name self text_clean;
    fuzzy_category self (set_iteration (audit_categories self)) text_clean ].

(** The answer of the first stage of a list that does not fall
    through. *)
Fixpoint first_answer (l : list step) : step :=
  match l with
  | [] => Continue
  | Continue :: l' => first_answer l'
  | s :: _ => s
  end.

End Cascade.

(* ================================================================= *)
(** ** The extractor of the scenario of the spec *)

Module Scenario.
Import Database Extractor Catalog.

Definition scenario_extractor : extractor :=
  snd (new_extractor in_order scenario_store 0 fresh_process).

Definition scenario_process : process :=
  fst (new_extractor in_order scenario_store 0 fresh_process).

End Scenario.

(* ================================================================= *)
(** ** OrchestratorAgent.py: the threshold setter; more vocabulary *)

Module Threshold.
Import Orchestrator.

(** [set_confidence_threshold]: the new value of the global. *)
Definition set_confidence_threshold (threshold current : Q) : Q :=
  if Qle_bool 0.0%Q threshold && Qle_bool threshold 1.0%Q
  then threshold else current.

(** [get_confidence_threshold] *)
Definition get_confidence_threshold (current : Q) : Q := current.

(** The global after a sequence of calls of the setter. *)
Definition after_calls (thresholds : list Q) : Q :=
  fold_left (fun current threshold =>
               set_confidence_threshold threshold current)
            thresholds CONFIDENCE_THRESHOLD.

(** A message that leaves the router for the user or for a handler. *)
Definition is_answer (e : event) : bool :=
  match e with
  | SendToUser _ => true
  | Delegate _ _ _ _ _ => true
  | _ => false
  end.

Definition is_user_reply (e : event) : bool :=
  match e with
  | SendToUser _ => true
  | _ => false
  end.


(** The intents [route_to_agent] has a branch for. *)
Definition routable : list string :=
  ["LIST_AUDITS"; "AUDIT_RETRIEVAL_BY_CATEGORY"; "GET_AUDIT_HISTORY";
   "GET_AUDIT_HISTORY_FILTERED"; "EXECUTE_AUDIT"; "ENGINEER_AUDIT"]%string.

End Threshold.

(* ================================================================= *)
(** ** Vocabulary of the statements about the lookup maps *)

Module Lookup.
Import Database Extractor.

(** The audit belongs to the (lower-cased) category. *)
Definition in_category (category : string) (a : audit) : bool :=
  String.eqb (Text.lower (audit_category a)) category.

Definition has_id (id : string) (a : audit) : bool :=
  String.eqb (audit_id a) id.

Definition has_name (name : string) (a : audit) : bool :=
  String.eqb (Text.lower (audit_name a)) name.

(** The last element of a list that satisfies a test. *)
Definition find_last {A : Type} (f : A -> bool) (l : list A) : option A :=
  find f (rev l).

(** An extractor whose maps were built from its records. *)
Definition built (self : extractor) : Prop :=
  audits_data self <> []
  /\ exists before, audits_data before = audits_data self
                    /\ self = _build_lookup_maps before.

(** The value of an entity of a result, if present. *)
Definition entity_value (r : result) (key : string) : option string :=
  option_map value (Dict.get (entities r) key).

End Lookup.

(* ================================================================= *)
(** ** The forms of an answer of the resolver *)

Module Answers.
Import Database Extractor Catalog.

Local Open Scope string_scope.

(** The six forms an answer can take. *)
Inductive answer_form (set_iteration : list string -> list string)
          (self : extractor) (r : result) : Prop :=
| form_no_data : audits_data self = [] -> r = no_data ->
                 answer_form set_iteration self r
| form_no_match : r = no_match -> answer_form set_iteration self r
| form_id (m name : string) :
    Dict.get (audit_id_to_name self) m = Some name ->
    r = specific_audit ("audit_id", m) ("audit_name", name) 1.0%Q ->
    answer_form set_iteration self r
| form_name (name id : string) (score : Q) :
    Dict.get (audit_name_to_id self) name = Some id
    \/ In (name, id) (audit_name_to_id self) ->
    r = specific_audit ("audit_name", name) ("audit_id", id) score ->
    answer_form set_iteration self r
| form_category (c : string) (score : Q) :
    In c (set_iteration (audit_categories self)) ->
    r = category_answer self c score ->
    answer_form set_iteration self r.

End Answers.

(* ================================================================= *)
(** ** Vocabulary of the statements about cleaned text *)

Module CleanText.
Import Text.

(** All the characters of a string pass a test. *)
Fixpoint all_chars (p : ascii -> bool) (s : string) : bool :=
  match s with
  | EmptyString => true
  | String c s' => p c && all_chars p s'
  end.

(** A word character that is no blank and that [lower] leaves alone. *)
Definition clean_char (c : ascii) : bool :=
  isword c && negb (isspace c) && Ascii.eqb (lower_char c) c.

(** A word of a cleaned text. *)
Definition clean_word (w : string) : bool :=
  negb (String.eqb w "") && all_chars clean_char w.

(** The normal form: clean words separated by single spaces. *)
Definition normal (s : string) : Prop :=
  exists words, forallb clean_word words = true /\ s = join " " words.

End CleanText.

(* ================================================================= *)
(** ** database.py: lookups in the cache *)

Module CacheLookups.
Import Database.

Definition get_audit_by_name (p : process) (name : string) : option audit :=
  match get_cached_data p with
  | None => None
  | Some d => find (fun a => String.eqb (audit_name a) name) (audits d)
  end.

Definition get_device_by_name (p : process) (name : string)
  : option device :=
  match get_cached_data p with
  | None => None
  | Some d => find (fun x => String.eqb (device_name x) name) (devices d)
  end.

Definition get_compatible_devices_for_audit (p : process) (name : string)
  : list device :=
  match get_cached_data p with
  | None => []
  | Some d =>
      match get_audit_by_name p name with
      | None => []
      | Some a =>
          let compatible_categories := device_categories a in
          filter (fun x =>
                    existsb (String.eqb (device_category x))
                            compatible_categories)
                 (devices d)
      end
  end.

(** The stored text of the column [device_categories] of a row. *)
Definition stored_categories (row : audit_row) : string :=
  match row_device_categories row with
  | Some s => s
  | None => EmptyString
  end.

End CacheLookups.

(* ================================================================= *)
(** ** Vocabulary of the statements about [__chain_b] and equal
    sequences *)

Module Chain.

(** The positions, counted from [i], at which [c] occurs in [bs]. *)
Fixpoint positions (c : ascii) (bs : list ascii) (i : nat) : list nat :=
  match bs with
  | [] => []
  | x :: bs' =>
      (if Ascii.eqb x c then [i] else []) ++ positions c bs' (S i)
  end.

(** The entry of a dictionary of index lists, empty when absent. *)
Definition lookup (d : list (ascii * list nat)) (c : ascii) : list nat :=
  match find (fun p => Ascii.eqb (fst p) c) d with
  | Some p => snd p
  | None => []
  end.

(** An element of a long [b] that occurs too often to be indexed. *)
Definition popular (b : list ascii) (c : ascii) : bool :=
  let n := List.length b in
  Difflib.autojunk && (200 <=? n)
  && (n / 100 + 1 <? List.length (positions c b 0)).

(** The length of the run of indexed elements of [a] that ends at
    position [x]. *)
Fixpoint run (a : list ascii) (x : nat) : nat :=
  match x with
  | 0 => if popular a (nth 0 a zero) then 0 else 1
  | S x' => if popular a (nth x a zero) then 0 else S (run a x')
  end.

(** The run that ends just before position [i]. *)
Definition run_before (a : list ascii) (i : nat) : nat :=
  match i with
  | 0 => 0
  | S i' => run a i'
  end.

(** The length looked up for the column before [j]. *)
Definition before (j2len : list (nat * nat)) (j : nat) : nat :=
  match j with
  | 0 => 0
  | S j' => Difflib.j2len_get j2len j'
  end.

End Chain.

(* ================================================================= *)
(** ** AuditExecutionAgent.py: AuditExecutionAgent *)

Module ExecutionAgent.
Import Database Extractor.

Local Open Scope string_scope.

Definition message := Orchestrator.message.
Definition content := Orchestrator.content.
Definition source := Orchestrator.source.

(** [s.strip()] *)
Fixpoint lstrip (s : string) : string :=
  match s with
  | EmptyString => EmptyString
  | String c s' => if Text.isspace c then lstrip s' else s
  end.

Fixpoint rstrip (s : string) : string :=
  match s with
  | EmptyString => EmptyString
  | String c s' =>
      match rstrip s' with
      | EmptyString => if Text.isspace c then EmptyString else String c ""
      | r => String c r
      end
  end.

Definition strip (s : string) : string := rstrip (lstrip s).

(** [s[:n]] *)
Definition prefix (n : nat) (s : string) : string := String.substring 0 n s.

(** [s.endswith(suffix)] *)
Definition endswith (s suffix : string) : bool :=
  Nat.leb (String.length suffix) (String.length s)
  && String.eqb
       (String.substring (String.length s - String.length suffix)
                         (String.length suffix) s)
       suffix.

(** The line feed. *)
Definition nl : string := String "010"%char "".

(** [str(n)] for a count. *)
Definition str_of_nat (n : nat) : string := str_of_int (Z.of_nat n).

Definition _extract_user_message (context : list message) : string :=
  match find (fun msg => negb (endswith (source msg) "Agent"))
             (rev context) with
  | Some msg => content msg
  | None => ""
  end.

Definition _generate_safe_summary
           (execution_result audit_name status : string) : string :=
  if negb (String.eqb execution_result "")
     && Nat.ltb 0 (String.length (strip execution_result))
  then
    let summary := prefix 100 (strip execution_result) in
    if Nat.ltb 100 (String.length execution_result) then summary ++ "..."
    else summary
  else "Audit '" ++ audit_name ++ "' execution " ++ status.

Definition _generate_safe_error_message (execution_result status : string)
  : string :=
  if existsb (String.eqb status) ["failed"; "error"; "timeout"]
  then if String.eqb execution_result ""
       then "Audit execution " ++ status
       else execution_result
  else "".

(** The values Python puts in the dictionary [safe_values]. *)
Inductive pyvalue : Type :=
| VInt (n : Z)
| VStr (s : string)
| VFloat (q : Q)
| VTime (t : nat).

(** The [reports] table seen from the agent: whether a connection can be
    opened; the answer of the query for the table ([None] when the
    cursor or the query raises); the answer of an INSERT with its fetch
    and commit ([None] when one of them raises, otherwise the row
    returned, if any); whether [rollback] and the closing calls raise. *)
Record report_store : Type := {
  report_connection : bool;
  table_exists : option bool;
  insert_answer : list string -> list pyvalue -> option (option Z);
  rollback_raises : bool;
  report_close_raises : bool
}.

(** The same store with another behaviour of the INSERT. *)
Definition with_insert
           (rs : report_store)
           (answer : list string -> list pyvalue -> option (option Z))
  : report_store :=
  {| report_connection := report_connection rs;
     table_exists := table_exists rs;
     insert_answer := answer;
     rollback_raises := rollback_raises rs;
     report_close_raises := report_close_raises rs |}.

Definition insert_patterns : list (string * list string * option string) :=
  [ ("Full Schema (12 columns)",
     ["report_id"; "audit_id"; "device_id"; "audit_name"; "device_name";
      "execution_time"; "status"; "results"; "summary"; "error_message";
      "duration_seconds"; "created_at"],
     Some "report_id") ].

(** [[safe_values[col] for col in columns]] *)
Fixpoint values_of (safe_values : Dict.dict pyvalue)
         (columns : list string) : exn + list pyvalue :=
  match columns with
  | [] => inr []
  | col :: columns' =>
      match subscript safe_values col with
      | inl e => inl e
      | inr v =>
          match values_of safe_values columns' with
          | inl e => inl e
          | inr vs => inr (v :: vs)
          end
      end
  end.

(** The loop over [insert_patterns]: [Ok (Some x)] when a pattern
    returned [x], [Ok None] when all of them failed, [Exc] when the
    rollback after a failed pattern raised. *)
Fixpoint try_patterns (rs : report_store) (safe_values : Dict.dict pyvalue)
         (patterns : list (string * list string * option string))
  : outcome (option (option Z)) :=
  match patterns with
  | [] => Ok None
  | (_, columns, returning) :: patterns' =>
      let failed :=
        if rollback_raises rs then Exc "rollback"
        else try_patterns rs safe_values patterns' in
      match values_of safe_values columns with
      | inl _ => failed
      | inr values =>
          match insert_answer rs columns values with
          | None => failed
          | Some result =>
              match returning with
              | Some _ => Ok (Some result)
              | None => Ok (Some (Some 1%Z))
              end
          end
      end
  end.

(** Truth value of a [report_id]. *)
Definition truthy (report_id : option Z) : bool :=
  match report_id with
  | Some id => negb (Z.eqb id 0)
  | None => false
  end.

(** How the call of [execute_audit_by_identifier] under [wait_for]
    ends. *)
Inductive run_outcome : Type :=
| Finished (result : string)
| TimedOut
| Crashed (what : string).

Record results_metadata : Type := {
  execution_status : string;
  data_freshness : string;
  tools_available : bool;
  audit_count : nat;
  agent_version : string
}.

(** What the agent does to the outside, in order. *)
Inductive event : Type :=
| Execute (audit_id : string) (timeout_seconds : nat)
| Publish (context : list message) (results : results_metadata).

(** The collaborators of one run of the handler: the store of the
    catalog, the audit tool with the duration measured around it, the
    [reports] table and the time read when the report is built. *)
Record world : Type := {
  db : store;
  run : string -> nat -> run_outcome * Q;
  reports : report_store;
  report_time : nat;
  TOOLS_AVAILABLE : bool;
  agent_type : string
}.

Section Agent.

(** [int(s)], [None] when it raises; the format [:.2f]; [str(e)] for an
    exception of the extractor. *)
Variable int : string -> option Z.
Variable format_2f : Q -> string.
Variable str : exn -> string.
Variable set_iteration : list string -> list string.

Definition safe_values_of (now : nat)
           (audit_id : Z) (audit_id_text audit_name execution_result
                           status : string)
           (duration_seconds : Q) : Dict.dict pyvalue :=
  [ ("audit_id", VInt audit_id);
    ("audit_name",
     VStr (if String.eqb audit_name "" then "Audit_" ++ audit_id_text
           else audit_name));
    ("device_id", VInt (-1));
    ("device_name", VStr "AUDIT_ONLY_EXECUTION");
    ("execution_time", VTime now);
    ("status", VStr (if String.eqb status "" then "unknown" else status));
    ("results",
     VStr (if String.eqb execution_result ""
           then "Audit " ++ audit_id_text ++ " execution completed"
           else execution_result));
    ("summary",
     VStr (_generate_safe_summary execution_result audit_name status));
    ("error_message",
     VStr (_generate_safe_error_message execution_result status));
    ("duration_seconds",
     VFloat (if Qle_bool 0 duration_seconds then duration_seconds
             else 0.0%Q));
    ("created_at", VTime now);
    ("report_type", VStr "audit_execution");
    ("user_id", VStr "system_automated");
    ("notes", VStr ("Automated execution of audit " ++ audit_name));
    ("severity", VStr "info");
    ("category", VStr "audit");
    ("source", VStr "audit_execution_agent");
    ("version", VStr "1.0") ].

(** The body of the outer [try]. *)
Definition report_body (rs : report_store) (now : nat)
           (audit_id audit_name execution_result status : string)
           (duration_seconds : Q) : outcome (option Z) :=
  match table_exists rs with
  | None => Exc "query"
  | Some false => Ok None
  | Some true =>
      match int audit_id with
      | None => Exc "ValueError"
      | Some n =>
          match try_patterns
                  rs
                  (safe_values_of now n audit_id audit_name
                                  execution_result status duration_seconds)
                  insert_patterns with
          | Exc what => Exc what
          | Ok (Some report_id) => Ok report_id
          | Ok None => Ok None
          end
      end
  end.

Definition create_execution_report (rs : report_store) (now : nat)
           (audit_id audit_name execution_result status : string)
           (duration_seconds : Q) : outcome (option Z) :=
  if negb (report_connection rs) then Ok None
  else
    let handled :=
      match report_body rs now audit_id audit_name execution_result
                        status duration_seconds with
      | Ok report_id => Ok report_id
      | Exc _ =>
          (* except Exception: conn.rollback(); return None *)
          if rollback_raises rs then Exc "rollback" else Ok None
      end in
    (* finally: cursor.close(); conn.close() *)
    if report_close_raises rs then Exc "close" else handled.

Definition format_category_clarification (category : string)
           (audits : list audit) : string :=
  match audits with
  | [] => "❌ Found '" ++ category
          ++ "' category but no audits are available in this category."
  | _ =>
      fold_left
        (fun message audit =>
           (message ++ audit_id audit ++ ". " ++ audit_name audit ++ nl)
           ++ "   Description: " ++ description audit ++ nl ++ nl)
        audits
        ("📋 Found '" ++ category ++ "' category with "
         ++ str_of_nat (List.length audits) ++ " available audits:"
         ++ nl ++ nl)
      ++ "Please specify which audit you'd like to execute by ID or name."
  end.

Definition format_specific_audit_response (entities : Dict.dict entity)
  : string :=
  match Dict.get entities "audit_id", Dict.get entities "audit_name" with
  | Some id_entity, Some name_entity =>
      "🎯 Audit Identified for Execution:" ++ nl ++ nl
      ++ "ID: " ++ value id_entity ++ nl
      ++ "Name: " ++ value name_entity ++ nl
      ++ "Confidence: " ++ format_2f (confidence id_entity) ++ nl ++ nl
      ++ "🚀 Executing audit now..."
  | _, _ => "Audit identified but details unavailable."
  end.

Definition safe_execute_audit (w : world) (audit_id : string)
           (timeout_seconds : nat) : bool * string * Q :=
  match run w audit_id timeout_seconds with
  | (Finished result, duration) => (true, result, duration)
  | (TimedOut, duration) =>
      (false,
       "Audit execution timed out after " ++ str_of_nat timeout_seconds
       ++ " seconds",
       duration)
  | (Crashed what, duration) =>
      (false, "Audit execution failed: " ++ what, duration)
  end.

(** [str(report_id)] *)
Definition str_of_report_id (report_id : option Z) : string :=
  match report_id with
  | Some id => str_of_int id
  | None => "None"
  end.

(** [execution_result[:200]] followed by the dots. *)
Definition shown_result (execution_result : string) : string :=
  prefix 200 execution_result
  ++ (if Nat.ltb 200 (String.length execution_result) then "..." else "").

(** The text sent after an execution, by its outcome and the report. *)
Definition execution_text (identification_msg : string) (success : bool)
           (execution_result : string) (duration : Q)
           (report_id : option Z) : string :=
  if success then
    if truthy report_id then
      identification_msg ++ nl ++ nl
      ++ "✅ Execution completed successfully in " ++ format_2f duration
      ++ " seconds!" ++ nl
      ++ "📊 Report ID: " ++ str_of_report_id report_id
      ++ " created in database" ++ nl
      ++ "📝 Results: " ++ shown_result execution_result
    else
      identification_msg ++ nl ++ nl
      ++ "✅ Execution completed successfully in " ++ format_2f duration
      ++ " seconds!" ++ nl
      ++ "⚠️  Report creation failed, but execution succeeded" ++ nl
      ++ "📝 Results: " ++ shown_result execution_result
  else
    if truthy report_id then
      identification_msg ++ nl ++ nl
      ++ "❌ Execution failed after " ++ format_2f duration ++ " seconds!"
      ++ nl
      ++ "📊 Error report ID: " ++ str_of_report_id report_id
      ++ " created in database" ++ nl
      ++ "🔍 Error: " ++ execution_result
    else
      identification_msg ++ nl ++ nl
      ++ "❌ Execution failed after " ++ format_2f duration ++ " seconds!"
      ++ nl
      ++ "⚠️  Report creation also failed" ++ nl
      ++ "🔍 Error: " ++ execution_result.

(** The branch of a [specific_audit] answer: the execution, the report
    and the text; [Exc] carries [str(e)] of an exception that reaches
    the handler's [except]. *)
Definition execute_specific (w : world) (entities : Dict.dict entity)
  : list event * outcome string :=
  match subscript entities "audit_id" with
  | inl e => ([], Exc (str e))
  | inr id_entity =>
      match subscript entities "audit_name" with
      | inl e => ([], Exc (str e))
      | inr name_entity =>
          let audit_id := value id_entity in
          let audit_name := value name_entity in
          let identification_msg :=
            format_specific_audit_response entities in
          let '(success, execution_result, duration) :=
            safe_execute_audit w audit_id 30 in
          let report_status :=
            if success then "completed" else "failed" in
          ([Execute audit_id 30],
           match create_execution_report
                   (reports w) (report_time w) audit_id audit_name
                   execution_result report_status duration with
           | Exc what => Exc what
           | Ok report_id =>
               Ok (execution_text identification_msg success
                                  execution_result duration report_id)
           end)
      end
  end.

Definition guidance (self : extractor) : string :=
  let audit_count := List.length (audits_data self) in
  if Nat.eqb audit_count 0
  then "❌ No audits available in the system. Please contact administrator."
  else "❌ Cannot identify the audit to execute from "
       ++ str_of_nat audit_count ++ " available audits." ++ nl ++ nl
       ++ "Please specify:" ++ nl
       ++ "• An audit ID (e.g., 'run audit 16', 'execute 5')" ++ nl
       ++ "• An audit name (e.g., 'execute Cisco Audit New', 'run network check')"
       ++ nl
       ++ "• An audit category (e.g., 'run network audits', 'execute security audits')".

(** The body of the handler's [try], after the extraction. *)
Definition respond (w : world) (self : extractor)
           (extraction : exn + result) : list event * outcome string :=
  match extraction with
  | inl e => ([], Exc (str e))
  | inr extraction_result =>
      if success extraction_result then
        let entities := entities extraction_result in
        let extraction_type := type extraction_result in
        if String.eqb extraction_type "specific_audit"
        then execute_specific w entities
        else if String.eqb extraction_type "category_clarification"
        then
          match subscript entities "audit_category" with
          | inl e => ([], Exc (str e))
          | inr category_entity =>
              match category_audits extraction_result with
              | None => ([], Exc (str (KeyError "category_audits")))
              | Some audits =>
                  ([], Ok (format_category_clarification
                             (value category_entity) audits))
              end
          end
        else if String.eqb extraction_type "no_data"
        then ([], Ok "❌ No audit data available. Please ensure the database is properly configured and contains audit records.")
        else ([], Ok "❌ Unable to identify the requested audit for execution.")
      else ([], Ok (guidance self))
  end.

Definition _send_response (w : world) (self : extractor)
           (context : list message) (response_content : string)
  : list event * list message :=
  let context' :=
    (context
     ++ [ {| Orchestrator.content := response_content;
             Orchestrator.source := agent_type w |} ])%list in
  ([Publish context'
            {| execution_status := "completed";
               data_freshness := "fresh";
               tools_available := TOOLS_AVAILABLE w;
               audit_count := List.length (audits_data self);
               agent_version := "complete_working_v1.0" |}],
   context').

Definition handle_task (w : world) (now : nat) (p : process)
           (self : extractor) (context : list message)
  : list event * list message * process * extractor :=
  let user_message := _extract_user_message context in
  if String.eqb user_message "" then
    let '(sent, context') :=
      _send_response w self context
                     "❌ No message content found for audit execution." in
    (sent, context', p, self)
  else
    let '(extraction, p', self') :=
      extract_audit_entities set_iteration (db w) now p self user_message in
    let '(executed, answer) := respond w self' extraction in
    let response_text :=
      match answer with
      | Ok text => text
      | Exc what => "❌ Error during audit execution: " ++ what
      end in
    let '(sent, context') := _send_response w self' context response_text in
    ((executed ++ sent)%list, context', p', self').

End Agent.

Definition is_execution (e : event) : bool :=
  match e with
  | Execute _ _ => true
  | Publish _ _ => false
  end.

Definition is_publication (e : event) : bool :=
  match e with
  | Publish _ _ => true
  | Execute _ _ => false
  end.

(** A run on the demo catalog: the tool answers at once with a result,
    the [reports] table exists and an INSERT would return the id 7. *)
Definition demo_reports : report_store :=
  {| report_connection := true;
     table_exists := Some true;
     insert_answer := fun _ _ => Some (Some 7%Z);
     rollback_raises := false;
     report_close_raises := false |}.

Definition demo_world : world :=
  {| db := Catalog.demo_store;
     run := fun _ _ => (Finished "42 checks passed", 1.5%Q);
     reports := demo_reports;
     report_time := 1;
     TOOLS_AVAILABLE := true;
     agent_type := "ExecuteAuditAgent" |}.

Definition demo_int (s : string) : option Z :=
  if String.eqb s "16" then Some 16%Z
  else if String.eqb s "3" then Some 3%Z else None.

(** Two decimals of a rational that is not negative, rounding half up
    (on the values of the demo what [:.2f] prints). *)
Definition demo_format (q : Q) : string :=
  let cents := ((2 * 100 * Qnum q + Z.pos (Qden q))
                / (2 * Z.pos (Qden q)))%Z in
  let digits := (cents mod 100)%Z in
  str_of_int (cents / 100)%Z ++ "."
  ++ (if (digits <? 10)%Z then "0" else "") ++ str_of_int digits.

Definition demo_str (e : exn) : string :=
  match e with
  | KeyError key => "'" ++ key ++ "'"
  | ZeroDivisionError => "division by zero"
  end.

End ExecutionAgent.

(* ================================================================= *)
(** * Verified properties *)

(** ** The matcher *)


Module DifflibFacts.
Import Difflib.

Lemma total_size_app (l1 l2 : list block) :
  total_size (l1 ++ l2) = total_size l1 + total_size l2.
Proof.
  induction l1 as [|x l1 IH]; simpl; [reflexivity|].
  rewrite IH. lia.
Qed.

Section Bounds.

Variables a b : list ascii.

Lemma j2len_get_spec (d : list (nat * nat)) (j : nat) :
  j2len_get d j = 0 \/ In (j, j2len_get d j) d.
Proof.
  induction d as [|[j' k] d IH]; simpl; [now left|].
  destruct (Nat.eqb_spec j' j) as [->|Hne].
  - right. now left.
  - destruct IH as [IH|IH]; [now left|right; now right].
Qed.

Lemma scan_row_ok (alo ahi blo bhi i : nat) (js : list nat)
      (j2len : list (nat * nat)) :
  alo <= i -> i < ahi -> row_ok alo blo i j2len ->
  forall newj2len best,
    row_ok alo blo (S i) newj2len ->
    in_range alo ahi blo bhi best ->
    row_ok alo blo (S i)
           (fst (scan_row i blo bhi js j2len newj2len best))
    /\ in_range alo ahi blo bhi
                (snd (scan_row i blo bhi js j2len newj2len best)).
Proof.
  intros Hlo Hhi Hrow.
  induction js as [|j js IH]; intros newj2len best Hnew Hbest; simpl.
  - now split.
  - destruct (Nat.ltb_spec j blo) as [Hj|Hj]; [now apply IH|].
    destruct (Nat.leb_spec bhi j) as [Hj'|Hj']; [now split|].
    set (v := match j with 0 => 0 | S j' => j2len_get j2len j' end).
    assert (Hv : v + 1 + alo <= S i /\ v + 1 + blo <= j + 1).
    { subst v. destruct j as [|j']; [lia|].
      destruct (j2len_get_spec j2len j') as [E|E].
      - rewrite E. lia.
      - apply Hrow in E. lia. }
    apply IH.
    + intros j0 k0 [E|E].
      * inversion E; subst. lia.
      * now apply Hnew.
    + destruct (block_size best <? v + 1); [|exact Hbest].
      unfold in_range. lia.
Qed.

Lemma scan_rows_ok (alo ahi blo bhi : nat) :
  forall n i j2len best,
    alo <= i -> i + n <= ahi -> row_ok alo blo i j2len ->
    in_range alo ahi blo bhi best ->
    in_range alo ahi blo bhi (scan_rows a b n i blo bhi j2len best).
Proof.
  induction n as [|n IH]; intros i j2len best Hlo Hhi Hrow Hbest; simpl.
  - exact Hbest.
  - destruct (scan_row_ok alo ahi blo bhi i (b2j_get b (at_a a i)) j2len)
      with (newj2len := @nil (nat * nat)) (best := best) as [H1 H2];
      try assumption; try lia.
    { intros j k []. }
    destruct (scan_row i blo bhi (b2j_get b (at_a a i)) j2len [] best)
      as [newj2len best'].
    simpl in H1, H2. apply IH; try assumption; lia.
Qed.

Lemma extend_left_ok (junk : bool) (alo ahi blo bhi : nat) :
  forall besti bestj bestsize,
    in_range alo ahi blo bhi (besti, bestj, bestsize) ->
    in_range alo ahi blo bhi
             (extend_left a b junk alo blo besti bestj bestsize).
Proof.
  induction besti as [|i' IH]; intros bestj bestsize H; simpl.
  - exact H.
  - destruct bestj as [|j']; [exact H|].
    match goal with
    | |- context [if ?c then _ else _] => destruct c eqn:E
    end; [|exact H].
    apply andb_prop in E as [E _]. apply andb_prop in E as [E _].
    apply andb_prop in E as [E1 E2].
    apply Nat.ltb_lt in E1. apply Nat.ltb_lt in E2.
    apply IH. unfold in_range in *. lia.
Qed.

Lemma extend_right_ok (junk : bool) (alo ahi blo bhi besti bestj : nat) :
  forall n bestsize,
    besti + bestsize + n <= ahi ->
    in_range alo ahi blo bhi (besti, bestj, bestsize) ->
    in_range alo ahi blo bhi
             (besti, bestj,
              extend_right a b junk n bhi besti bestj bestsize).
Proof.
  induction n as [|n IH]; intros bestsize Hn H; simpl.
  - exact H.
  - match goal with
    | |- context [if ?c then _ else _] => destruct c eqn:E
    end; [|exact H].
    apply andb_prop in E as [E _]. apply andb_prop in E as [E _].
    apply Nat.ltb_lt in E.
    apply IH; [lia|]. unfold in_range in *. lia.
Qed.

Lemma find_longest_match_in_range (alo ahi blo bhi : nat) :
  alo <= ahi -> blo <= bhi ->
  in_range alo ahi blo bhi (find_longest_match a b alo ahi blo bhi).
Proof.
  intros Ha Hb. unfold find_longest_match.
  assert (H0 : in_range alo ahi blo bhi
                 (scan_rows a b (ahi - alo) alo blo bhi [] (alo, blo, 0))).
  { apply scan_rows_ok; try lia.
    - intros j k [].
    - unfold in_range. lia. }
  destruct (scan_rows a b (ahi - alo) alo blo bhi [] (alo, blo, 0))
    as [[i0 j0] k0].
  apply (extend_left_ok false) in H0.
  destruct (extend_left a b false alo blo i0 j0 k0) as [[i1 j1] k1].
  apply (extend_right_ok false) with (n := ahi - (i1 + k1)) in H0;
    [|unfold in_range in H0; lia].
  apply (extend_left_ok true) in H0.
  destruct (extend_left a b true alo blo i1 j1
              (extend_right a b false (ahi - (i1 + k1)) bhi i1 j1 k1))
    as [[i2 j2] k2].
  apply (extend_right_ok true) with (n := ahi - (i2 + k2)) in H0;
    [exact H0|unfold in_range in H0; lia].
Qed.

(** With fuel for every window that can still be opened the loop ends,
    and it never collects more than the windows can hold. *)
Lemma blocks_loop_total :
  forall fuel queue acc,
    Forall wf_range queue ->
    sum_of cost queue <= fuel ->
    exists l, blocks_loop a b fuel queue acc = Some l
              /\ total_size l <= total_size acc + sum_of span queue.
Proof.
  induction fuel as [|fuel IH]; intros queue acc Hwf Hfuel.
  - destruct queue as [|[[[alo ahi] blo] bhi] queue'].
    + exists acc. simpl. split; [reflexivity|lia].
    + simpl in Hfuel. lia.
  - destruct queue as [|[[[alo ahi] blo] bhi] queue'].
    + exists acc. simpl. split; [reflexivity|lia].
    + inversion Hwf as [|r q Hr Hwf']; subst.
      destruct Hr as [Ha Hb].
      pose proof (find_longest_match_in_range alo ahi blo bhi Ha Hb) as Hm.
      simpl. simpl in Hfuel.
      destruct (find_longest_match a b alo ahi blo bhi) as [[i j] k].
      unfold in_range in Hm.
      destruct (Nat.eqb_spec k 0) as [->|Hk].
      * destruct (IH queue' acc Hwf') as [l [E Hl]]; [lia|].
        exists l. split; [exact E|]. simpl. lia.
      * set (q1 := if (alo <? i) && (blo <? j)
                   then (alo, i, blo, j) :: queue' else queue').
        set (q2 := if (i + k <? ahi) && (j + k <? bhi)
                   then (i + k, ahi, j + k, bhi) :: q1 else q1).
        assert (H1 : Forall wf_range q1
                     /\ sum_of cost q1
                        <= sum_of cost queue'
                           + (if (alo <? i) && (blo <? j)
                              then 2 * (i - alo) + 1 else 0)
                     /\ sum_of span q1
                        <= sum_of span queue'
                           + Nat.min (i - alo) (j - blo)).
        { subst q1. destruct ((alo <? i) && (blo <? j)) eqn:E.
          - apply andb_prop in E as [E1 E2].
            apply Nat.ltb_lt in E1. apply Nat.ltb_lt in E2.
            split; [constructor; [simpl; lia|exact Hwf']|].
            simpl. lia.
          - split; [exact Hwf'|]. lia. }
        destruct H1 as [Hw1 [Hc1 Hs1]].
        assert (H2 : Forall wf_range q2
                     /\ sum_of cost q2
                        <= sum_of cost q1
                           + (if (i + k <? ahi) && (j + k <? bhi)
                              then 2 * (ahi - (i + k)) + 1 else 0)
                     /\ sum_of span q2
                        <= sum_of span q1
                           + Nat.min (ahi - (i + k)) (bhi - (j + k))).
        { subst q2. destruct ((i + k <? ahi) && (j + k <? bhi)) eqn:E.
          - apply andb_prop in E as [E1 E2].
            apply Nat.ltb_lt in E1. apply Nat.ltb_lt in E2.
            split; [constructor; [simpl; lia|exact Hw1]|].
            simpl. lia.
          - split; [exact Hw1|]. lia. }
        destruct H2 as [Hw2 [Hc2 Hs2]].
        destruct (IH q2 (acc ++ [(i, j, k)]) Hw2) as [l [E Hl]].
        { destruct ((alo <? i) && (blo <? j));
            destruct ((i + k <? ahi) && (j + k <? bhi)); lia. }
        exists l. split; [exact E|].
        rewrite total_size_app in Hl. simpl in Hl.
        unfold block_size in Hl. simpl in Hl. simpl. lia.
Qed.

Lemma raw_blocks_total :
  exists l, raw_blocks a b = Some l
            /\ total_size l <= Nat.min (la a) (lb b).
Proof.
  unfold raw_blocks.
  destruct (blocks_loop_total (2 * la a + 1) [(0, la a, 0, lb b)] [])
    as [l [E Hl]].
  - constructor; [simpl; lia|constructor].
  - simpl. lia.
  - exists l. split; [exact E|]. simpl in Hl. lia.
Qed.

Lemma total_size_insert (x : block) (l : list block) :
  total_size (insert_block x l) = block_size x + total_size l.
Proof.
  induction l as [|y l IH]; simpl; [reflexivity|].
  destruct (block_leb x y); simpl; [reflexivity|].
  rewrite IH. lia.
Qed.

Lemma total_size_sort (l : list block) :
  total_size (sort_blocks l) = total_size l.
Proof.
  induction l as [|x l IH]; simpl; [reflexivity|].
  rewrite total_size_insert, IH. reflexivity.
Qed.

Lemma total_size_collapse (l : list block) :
  forall i1 j1 k1 non_adjacent,
    total_size (collapse l i1 j1 k1 non_adjacent)
    = total_size non_adjacent + k1 + total_size l.
Proof.
  induction l as [|[[i2 j2] k2] l IH]; intros i1 j1 k1 na; simpl.
  - destruct (Nat.eqb_spec k1 0) as [->|_]; [lia|].
    rewrite total_size_app. simpl. unfold block_size. simpl. lia.
  - destruct ((i1 + k1 =? i2) && (j1 + k1 =? j2)).
    + rewrite IH. unfold block_size. simpl. lia.
    + rewrite IH.
      destruct (Nat.eqb_spec k1 0) as [->|_];
        [unfold block_size; simpl; lia|].
      rewrite total_size_app. simpl. unfold block_size. simpl. lia.
Qed.

Lemma matches_bound :
  total_size (get_matching_blocks a b) <= Nat.min (la a) (lb b).
Proof.
  unfold get_matching_blocks.
  destruct raw_blocks_total as [l [E Hl]]. rewrite E.
  rewrite total_size_app, total_size_collapse, total_size_sort.
  simpl. unfold block_size. simpl. lia.
Qed.

Lemma calculate_ratio_range (m n : nat) :
  2 * m <= n ->
  (0 <= calculate_ratio m n /\ calculate_ratio m n <= 1)%Q.
Proof.
  intros H. unfold calculate_ratio.
  destruct (Nat.eqb_spec n 0) as [->|Hn].
  - split; [discriminate|apply Qle_refl].
  - assert (Hpos : (0 < inject_Z (Z.of_nat n))%Q).
    { rewrite <- (Zlt_Qlt 0). lia. }
    split.
    + apply Qle_shift_div_l; [exact Hpos|].
      rewrite Qmult_0_l. change 2%Q with (inject_Z 2).
      rewrite <- inject_Z_mult. rewrite <- (Zle_Qle 0). lia.
    + apply Qle_shift_div_r; [exact Hpos|].
      rewrite Qmult_1_l. change 2%Q with (inject_Z 2).
      rewrite <- inject_Z_mult. rewrite <- Zle_Qle. lia.
Qed.

Lemma ratio_range : (0 <= ratio a b /\ ratio a b <= 1)%Q.
Proof.
  unfold ratio. apply calculate_ratio_range.
  pose proof matches_bound. lia.
Qed.

End Bounds.

End DifflibFacts.

(* ================================================================= *)
(** ** The string matcher *)

Module SimilarityFacts.
Import Extractor.

Local Open Scope string_scope.

(** C9, as amended: for every pair of strings the similarity lies in
    [0, 1]. *)
Theorem similarity_range (a b : string) :
  (0 <= similarity a b /\ similarity a b <= 1)%Q.
Proof.
  unfold similarity. apply DifflibFacts.ratio_range.
Qed.

(** C9, as stated, fails: the similarity of "tide" and "diet" is 1/4 in
    one order and 1/2 in the other. *)
Lemma similarity_not_symmetric :
  (similarity "tide" "diet" == 1 # 4)%Q
  /\ (similarity "diet" "tide" == 1 # 2)%Q
  /\ ~ (similarity "tide" "diet" == similarity "diet" "tide")%Q.
Proof.
  split; [|split].
  - vm_compute. reflexivity.
  - vm_compute. reflexivity.
  - intro H. vm_compute in H. discriminate H.
Qed.

End SimilarityFacts.

(* ================================================================= *)
(** ** The classifier *)

Module ClassifierFacts.
Import Classifier.

(** One instance reads the weights at most once, whatever the number of
    calls. *)
Lemma predict_each_loads_once (infer : string -> string * Q)
      (self : IntentClassifier) (texts : list string) :
  List.length (predict_each infer self texts) <= 1
  /\ (is_loaded self = true -> predict_each infer self texts = []).
Proof.
  revert self. induction texts as [|t texts IH]; intros self; simpl.
  - split; [lia|reflexivity].
  - destruct self as [[|]]; simpl.
    + apply (IH {| is_loaded := true |}).
    + destruct (IH {| is_loaded := true |}) as [_ H].
      rewrite (H eq_refl). simpl. split; [lia|discriminate].
Qed.

(** C10 on the code: [predict_intent] builds a new classifier for every
    message, so serving [n] messages reads the weights [n] times. *)
Theorem predict_intent_loads_every_call (w : Orchestrator.world)
        (texts : list string) :
  Orchestrator.classifier_loads w texts
  = repeat LoadWeights (List.length texts).
Proof.
  induction texts as [|t texts IH]; simpl; [reflexivity|].
  rewrite IH. reflexivity.
Qed.

(** Two messages, two loads. *)
Example two_messages_two_loads :
  Orchestrator.classifier_loads
    (Routing.demo_world "GENERAL" 0.9%Q None None)
    ["hello"%string; "run audit 3"%string]
  = [LoadWeights; LoadWeights].
Proof. reflexivity. Qed.

End ClassifierFacts.

(* ================================================================= *)
(** ** The router *)

Module RouterFacts.
Import Database Orchestrator Routing.

Local Open Scope string_scope.

Lemma route_to_agent_no_llm (w : world) (intent : string)
      (context : list message) :
  calls_llm (fst (route_to_agent w intent context)) = false.
Proof.
  unfold route_to_agent.
  destruct (is_retrieval intent); [reflexivity|].
  destruct (String.eqb intent "EXECUTE_AUDIT"); [reflexivity|].
  destruct (String.eqb intent "ENGINEER_AUDIT"); [|reflexivity].
  destruct (insert_engineer_task _ _ _ _) as [task_id|what];
    [|reflexivity].
  destruct (truthy_id task_id); [|reflexivity].
  simpl. destruct (notify_raises w); reflexivity.
Qed.

(** The trace of [handle_task] once the classifier has answered. *)
Lemma handle_task_classified (w : world) (threshold : Q)
      (context : list message) (label : string) (conf : Q) :
  _extract_user_message context <> "" ->
  infer w (Text.lower (_extract_user_message context)) = (label, conf) ->
  fst (handle_task w threshold context)
  = Classify Classifier.LoadWeights
    :: (if Qle_bool threshold conf && negb (String.eqb label "GENERAL")
        then fst (route_to_agent w label context)
        else if String.eqb label "GENERAL"
        then [LLMCall _general_system_message context;
              reply w context (llm_text w _general_system_message context)]
        else
          let answer := llm_text w _classification_system_message context in
          let clarified := extract_intent_from_llm_response answer in
          LLMCall _classification_system_message context
          :: (if negb (String.eqb clarified "GENERAL")
              then fst (route_to_agent w clarified context)
              else [LLMCall _general_system_message context;
                    reply w context
                          (llm_text w _general_system_message context)])).
Proof.
  intros Hmsg Hinfer. unfold handle_task.
  apply String.eqb_neq in Hmsg. rewrite Hmsg.
  unfold predict_intent, Classifier.predict. simpl.
  rewrite Hinfer.
  destruct (Qle_bool threshold conf && negb (String.eqb label "GENERAL")).
  - destruct (route_to_agent w label context). reflexivity.
  - destruct (String.eqb label "GENERAL"); [reflexivity|].
    simpl. unfold llm_text.
    destruct (negb (String.eqb (extract_intent_from_llm_response _)
                               "GENERAL")).
    + destruct (route_to_agent w _ context). reflexivity.
    + reflexivity.
Qed.

(** C2: with the configured threshold 0.80, a message is dispatched
    straight to its handler, with no call of the language model, exactly
    when the confidence reaches the threshold and the label is not
    "GENERAL"; a "GENERAL" label always gets the general answer of the
    language model and no handler is sent anything. *)
Theorem direct_dispatch_iff (w : world) (context : list message)
        (label : string) (conf : Q) :
  _extract_user_message context <> "" ->
  infer w (Text.lower (_extract_user_message context)) = (label, conf) ->
  let trace := fst (handle_task w CONFIDENCE_THRESHOLD context) in
  (((0.80 <= conf)%Q /\ label <> "GENERAL") <-> calls_llm trace = false)
  /\ ((0.80 <= conf)%Q -> label <> "GENERAL" ->
      trace = Classify Classifier.LoadWeights
              :: fst (route_to_agent w label context))
  /\ (label = "GENERAL" ->
      trace = [Classify Classifier.LoadWeights;
               LLMCall _general_system_message context;
               reply w context
                     (llm_text w _general_system_message context)]
      /\ dispatches trace = false).
Proof.
  intros Hmsg Hinfer trace. subst trace.
  rewrite (handle_task_classified w _ context label conf Hmsg Hinfer).
  assert (Hthr : Qle_bool CONFIDENCE_THRESHOLD conf = true
                 <-> (0.80 <= conf)%Q).
  { rewrite Qle_bool_iff. unfold CONFIDENCE_THRESHOLD.
    split; intros H; (eapply Qle_trans; [|exact H]); discriminate. }
  destruct (Qle_bool CONFIDENCE_THRESHOLD conf) eqn:Hq;
    destruct (String.eqb_spec label "GENERAL") as [Hl|Hl]; simpl.
  - split; [|split].
    + split; [intros [_ H]; contradiction|discriminate].
    + intros _ H. contradiction.
    + intros _. split; reflexivity.
  - split; [|split].
    + split; [intros _; apply route_to_agent_no_llm|].
      intros _. split; [now apply Hthr|exact Hl].
    + reflexivity.
    + intros H. contradiction.
  - split; [|split].
    + split; [intros [_ H]; contradiction|discriminate].
    + intros _ H. contradiction.
    + intros _. split; reflexivity.
  - split; [|split].
    + split; [|discriminate].
      intros [H _]. apply Hthr in H. discriminate H.
    + intros H. apply Hthr in H. discriminate H.
    + intros H. contradiction.
Qed.

(** Confidence 0.95 with label "EXECUTE_AUDIT": one message for the
    execution handler and no call of the language model. *)
Lemma direct_dispatch_witness :
  let w := demo_world "EXECUTE_AUDIT" 0.95%Q None None in
  let context := demo_context "run audit 16" in
  let trace := fst (handle_task w CONFIDENCE_THRESHOLD context) in
  calls_llm trace = false
  /\ trace = [Classify Classifier.LoadWeights;
              Delegate EXECUTE_AUDIT_AGENT_TOPIC "EXECUTE_AUDIT"
                       "execute_audit" "run audit 16" context].
Proof.
  intros w context trace.
  destruct (direct_dispatch_iff w context "EXECUTE_AUDIT" 0.95%Q)
    as [[H1 _] [H2 _]].
  - discriminate.
  - reflexivity.
  - split.
    + apply H1. split; [discriminate|discriminate].
    + apply H2; discriminate.
Defined.

End RouterFacts.

(* ================================================================= *)
(** ** The clarification by the language model *)

Module ClarificationFacts.
Import Database Orchestrator Routing.

Local Open Scope string_scope.
Local Open Scope list_scope.

Lemma extract_intent_first_keyword (llm_response : string) :
  extract_intent_from_llm_response llm_response
  = first_keyword keyword_table (Text.lower llm_response).
Proof. reflexivity. Qed.

Lemma first_keyword_none (table : list (string * string)) (text : string) :
  (forall keyword label,
      In (keyword, label) table -> Text.contains keyword text = false) ->
  first_keyword table text = "GENERAL".
Proof.
  induction table as [|[keyword label] table IH]; intros H; simpl.
  - reflexivity.
  - rewrite (H keyword label) by now left.
    apply IH. intros k l Hin. apply (H k l). now right.
Qed.

(** C6, as amended: below the threshold and with a label other than
    "GENERAL", the router asks the language model to classify, and takes
    the label of the first keyword of the table that occurs in the
    lower-cased answer.  An answer with "execute_audit" and none of the
    four keywords tested before it goes to the execution handler; an
    answer without any keyword is treated as "GENERAL". *)
Theorem low_confidence_clarification (w : world) (context : list message)
        (label : string) (conf : Q) :
  _extract_user_message context <> "" ->
  infer w (Text.lower (_extract_user_message context)) = (label, conf) ->
  (conf < 0.80)%Q ->
  label <> "GENERAL" ->
  let answer := llm_text w _classification_system_message context in
  let low := Text.lower answer in
  let clarified := first_keyword keyword_table low in
  let trace := fst (handle_task w CONFIDENCE_THRESHOLD context) in
  let asked :=
    [Classify Classifier.LoadWeights;
     LLMCall _classification_system_message context] in
  (clarified <> "GENERAL" ->
   trace = asked ++ fst (route_to_agent w clarified context))
  /\ (clarified = "GENERAL" ->
      trace = asked ++ [LLMCall _general_system_message context;
                        reply w context
                              (llm_text w _general_system_message context)])
  /\ (Text.contains "execute_audit" low = true ->
      Text.contains "list_audits" low = false ->
      Text.contains "audit_retrieval_by_category" low = false ->
      Text.contains "get_audit_history_filtered" low = false ->
      Text.contains "get_audit_history" low = false ->
      trace = asked ++ [Delegate EXECUTE_AUDIT_AGENT_TOPIC "EXECUTE_AUDIT"
                                 "execute_audit"
                                 (_extract_user_message context) context])
  /\ ((forall keyword intent,
          In (keyword, intent) keyword_table ->
          Text.contains keyword low = false) ->
      clarified = "GENERAL").
Proof.
  intros Hmsg Hinfer Hconf Hlabel answer low clarified trace asked.
  assert (Htrace :
            trace = asked
                    ++ (if negb (String.eqb clarified "GENERAL")
                        then fst (route_to_agent w clarified context)
                        else [LLMCall _general_system_message context;
                              reply w context
                                    (llm_text w _general_system_message
                                              context)])).
  { subst trace.
    rewrite (RouterFacts.handle_task_classified
               w _ context label conf Hmsg Hinfer).
    assert (Hq : Qle_bool CONFIDENCE_THRESHOLD conf = false).
    { destruct (Qle_bool CONFIDENCE_THRESHOLD conf) eqn:E; [|reflexivity].
      apply Qle_bool_iff in E. exfalso.
      apply (Qlt_not_le _ _ Hconf).
      eapply Qle_trans; [|exact E]. discriminate. }
    rewrite Hq. apply String.eqb_neq in Hlabel. rewrite Hlabel.
    reflexivity. }
  split; [|split; [|split]].
  - intros H. rewrite Htrace. apply String.eqb_neq in H. now rewrite H.
  - intros H. rewrite Htrace, H. reflexivity.
  - intros H5 H1 H2 H3 H4. rewrite Htrace.
    assert (E : clarified = "EXECUTE_AUDIT").
    { subst clarified. simpl. now rewrite H1, H2, H3, H4, H5. }
    rewrite E. reflexivity.
  - apply first_keyword_none.
Qed.

(** Confidence 0.50 with label "EXECUTE_AUDIT" and an answer naming
    "execute_audit" only. *)
Lemma low_confidence_witness :
  let w := demo_world "EXECUTE_AUDIT" 0.50%Q
             (Some "I classify this as execute_audit because it asks to run.")
             None in
  let context := demo_context "please do the audit thing" in
  fst (handle_task w CONFIDENCE_THRESHOLD context)
  = [Classify Classifier.LoadWeights;
     LLMCall _classification_system_message context;
     Delegate EXECUTE_AUDIT_AGENT_TOPIC "EXECUTE_AUDIT" "execute_audit"
              "please do the audit thing" context].
Proof.
  intros w context.
  destruct (low_confidence_clarification w context "EXECUTE_AUDIT" 0.50%Q)
    as [_ [_ [H _]]].
  - discriminate.
  - reflexivity.
  - reflexivity.
  - discriminate.
  - apply H; reflexivity.
Defined.

(** C6, as stated, fails: the answer below contains "execute_audit", yet
    the request goes to the retrieval handler, because "list_audits" is
    looked for first. *)
Lemma execute_keyword_not_decisive :
  let answer := "This is execute_audit, not list_audits." in
  let w := demo_world "EXECUTE_AUDIT" 0.50%Q (Some answer) None in
  let context := demo_context "please do the audit thing" in
  Text.contains "execute_audit" answer = true
  /\ fst (handle_task w CONFIDENCE_THRESHOLD context)
     = [Classify Classifier.LoadWeights;
        LLMCall _classification_system_message context;
        Delegate AUDIT_RETRIEVAL_AGENT_TOPIC "LIST_AUDITS" "list_audits"
                 "please do the audit thing" context]
  /\ ~ In (Delegate EXECUTE_AUDIT_AGENT_TOPIC "EXECUTE_AUDIT"
                    "execute_audit" "please do the audit thing" context)
          (fst (handle_task w CONFIDENCE_THRESHOLD context)).
Proof.
  intros answer w context. split; [reflexivity|]. split; [reflexivity|].
  intros [H|[H|[H|[]]]]; discriminate H.
Qed.

End ClarificationFacts.

(* ================================================================= *)
(** ** Requests for a new audit *)

Module EngineerFacts.
Import Database Orchestrator Routing.

Local Open Scope string_scope.
Local Open Scope list_scope.

(** C7: for the "ENGINEER_AUDIT" intent the insert into the store comes
    first; the engineer is notified only after an insert that returned a
    task id, and after the user was told so; when the insert returns no
    task id or raises, the user gets the error reply, which differs from
    the success reply, and nothing is published for the engineer. *)
Theorem engineer_insert_first (w : world) (context : list message) :
  let user_message := _extract_user_message context in
  let inserted :=
    insert_engineer_task (tasks w) (session_id w) user_message
                         "create_new_audit" in
  let call := InsertTask (session_id w) user_message "create_new_audit" in
  let trace := fst (route_to_agent w "ENGINEER_AUDIT" context) in
  (exists rest, trace = call :: rest)
  /\ (forall id u d t,
         In (NotifyEngineer id u d t) trace ->
         inserted = Ok (Some id) /\ id <> 0%Z
         /\ trace = [call; reply w context success_message;
                     NotifyEngineer id u d t])
  /\ ((inserted = Ok None \/ exists what, inserted = Exc what) ->
      trace = [call; reply w context error_message]
      /\ existsb is_engineer_notification trace = false)
  /\ error_message <> success_message.
Proof.
  intros user_message inserted call trace.
  assert (Htrace :
            trace
            = call
              :: match inserted with
                 | Ok task_id =>
                     match truthy_id task_id with
                     | Some id =>
                         reply w context success_message
                         :: (if notify_raises w then []
                             else [NotifyEngineer id (session_id w)
                                                  user_message
                                                  "create_new_audit"])
                     | None => [reply w context error_message]
                     end
                 | Exc _ => [reply w context error_message]
                 end).
  { subst trace. unfold route_to_agent. simpl.
    fold user_message. fold inserted.
    destruct inserted as [task_id|what]; [|reflexivity].
    destruct (truthy_id task_id); reflexivity. }
  split; [|split; [|split]].
  - rewrite Htrace. eexists. reflexivity.
  - intros id u d t Hin. rewrite Htrace in Hin. rewrite Htrace.
    destruct Hin as [Hin|Hin]; [discriminate Hin|].
    destruct inserted as [task_id|what].
    + destruct task_id as [id'|]; simpl in *.
      * destruct (Z.eqb_spec id' 0) as [->|Hne].
        -- destruct Hin as [Hin|[]]. discriminate Hin.
        -- destruct Hin as [Hin|Hin]; [discriminate Hin|].
           destruct (notify_raises w); [destruct Hin|].
           destruct Hin as [Hin|[]]. inversion Hin; subst.
           split; [reflexivity|]. split; [exact Hne|reflexivity].
      * destruct Hin as [Hin|[]]. discriminate Hin.
    + destruct Hin as [Hin|[]]. discriminate Hin.
  - intros [H|[what H]]; rewrite Htrace, H; split; reflexivity.
  - discriminate.
Qed.

End EngineerFacts.

(* ================================================================= *)
(** ** Refreshing the catalog *)

Module RefreshFacts.
Import Database Extractor Catalog.

Local Open Scope string_scope.

Lemma no_audits_loaded (db : store) :
  no_audits db -> load_audits_data_from_db db = [].
Proof.
  unfold load_audits_data_from_db.
  intros [H|H]; rewrite H; reflexivity.
Qed.

(** C3, as amended: when the backing store is unreachable or returns no
    audits, [refresh_data_if_needed] returns false and leaves the
    extractor (its records and every index built from them) as it was, so
    the extractor answers from the old complete snapshot. *)
Theorem failed_refresh_keeps_extractor
        (set_iteration : list string -> list string)
        (db : store) (now : nat) (p : process) (self : extractor) :
  no_audits db ->
  let after := refresh_data_if_needed set_iteration db now p self in
  fst (fst after) = false
  /\ snd after = self
  /\ forall text,
      fst (fst (extract_audit_entities set_iteration db now p self text))
      = extract_from set_iteration self text.
Proof.
  intros H after.
  assert (E : after
              = (false, snd (refresh_all_data set_iteration db now p), self)).
  { subst after. unfold refresh_data_if_needed, refresh_all_data. simpl.
    rewrite (no_audits_loaded db H). reflexivity. }
  split; [|split].
  - rewrite E. reflexivity.
  - rewrite E. reflexivity.
  - intros text. unfold extract_audit_entities. fold after.
    rewrite E. reflexivity.
Qed.

(** The demo extractor keeps its two audits when the store goes away. *)
Lemma failed_refresh_witness :
  let after :=
    refresh_data_if_needed in_order unreachable_store 1 demo_process
                           demo_extractor in
  fst (fst after) = false /\ snd after = demo_extractor.
Proof.
  intros after.
  destruct (failed_refresh_keeps_extractor
              in_order unreachable_store 1 demo_process demo_extractor)
    as [H1 [H2 _]].
  - left. reflexivity.
  - split; [exact H1|exact H2].
Defined.

(** C3, as stated, fails for the process-wide cache: the same failed
    refresh replaces a cache that held two audits by one that holds none,
    and an extractor created afterwards finds nothing to fall back to. *)
Lemma failed_refresh_overwrites_cache :
  let after :=
    refresh_data_if_needed in_order unreachable_store 1 demo_process
                           demo_extractor in
  let p' := snd (fst after) in
  fst (fst after) = false
  /\ option_map (fun d => List.length (audits d))
                (get_cached_data demo_process) = Some 2
  /\ option_map (fun d => List.length (audits d))
                (get_cached_data p') = Some 0
  /\ get_cached_data p' <> get_cached_data demo_process
  /\ audits_data
       (snd (new_extractor in_order unreachable_store 1 demo_process)) = [].
Proof.
  intros after p'. split; [reflexivity|]. split; [reflexivity|].
  split; [reflexivity|]. split; [|reflexivity].
  intros H. apply (f_equal (option_map (fun d => List.length (audits d)))) in H.
  vm_compute in H. discriminate H.
Qed.

End RefreshFacts.

(* ================================================================= *)
(** ** The resolver *)

Module ResolverFacts.
Import Database Extractor Catalog Cascade.

Local Open Scope string_scope.
Local Open Scope list_scope.

Lemma mem_get {V : Type} (d : Dict.dict V) (k : string) :
  Dict.mem d k = true -> exists v, Dict.get d k = Some v.
Proof.
  unfold Dict.mem. destruct (Dict.get d k) as [v|]; [|discriminate].
  intros _. now exists v.
Qed.

Lemma get_of_key {V : Type} (d : Dict.dict V) (k : string) :
  In k (Dict.keys d) -> exists v, Dict.get d k = Some v.
Proof.
  induction d as [|[k' v'] d IH]; simpl; [intros []|].
  intros [E|Hin].
  - subst k'. rewrite String.eqb_refl. now exists v'.
  - destruct (String.eqb k' k); [now exists v'|now apply IH].
Qed.

(** The first stage answers for the first captured number that is a key
    of [audit_id_to_name]. *)
Lemma id_matches_find (self : extractor) (matches : list string) :
  id_matches self matches
  = match find (Dict.mem (audit_id_to_name self)) matches with
    | Some m =>
        match Dict.get (audit_id_to_name self) m with
        | Some name =>
            Return (specific_audit ("audit_id", m) ("audit_name", name)
                                   1.0%Q)
        | None => Raise (KeyError m)
        end
    | None => Continue
    end.
Proof.
  induction matches as [|m matches IH]; simpl; [reflexivity|].
  destruct (Dict.mem (audit_id_to_name self) m) eqn:E; [|exact IH].
  unfold subscript. destruct (Dict.get (audit_id_to_name self) m);
    reflexivity.
Qed.

Lemma id_matches_quiet (self : extractor) (matches : list string) :
  quiet (id_matches self matches).
Proof.
  rewrite id_matches_find.
  destruct (find _ matches) as [m|] eqn:E; [|exact I].
  apply find_some in E as [_ E]. apply mem_get in E as [v E].
  rewrite E. exact I.
Qed.

Lemma orelse_quiet (s next : step) :
  quiet s -> quiet next -> quiet (orelse s next).
Proof. destruct s; simpl; auto. Qed.

Lemma exact_id_quiet (self : extractor) (patterns : list Regex.regex)
      (text_clean : string) :
  quiet (exact_id self patterns text_clean).
Proof.
  induction patterns as [|pattern patterns IH]; simpl; [exact I|].
  apply orelse_quiet; [apply id_matches_quiet|exact IH].
Qed.

Lemma exact_name_quiet (items : list (string * string))
      (text_clean : string) :
  quiet (exact_name items text_clean).
Proof.
  induction items as [|[name id] items IH]; simpl; [exact I|].
  destruct (Text.contains name text_clean); [exact I|exact IH].
Qed.

Lemma exact_category_quiet (self : extractor) (categories : list string)
      (text_clean : string) :
  quiet (exact_category self categories text_clean).
Proof.
  induction categories as [|category categories IH]; simpl; [exact I|].
  destruct (Text.contains category text_clean); [exact I|exact IH].
Qed.

Lemma fuzzy_category_quiet (self : extractor) (categories : list string)
      (text_clean : string) :
  quiet (fuzzy_category self categories text_clean).
Proof.
  induction categories as [|category categories IH]; simpl; [exact I|].
  destruct (category_hit category (Text.split text_clean));
    [exact I|exact IH].
Qed.

(** *** The fuzzy stage on names *)

Lemma word_hit_existsb (audit_word : string) (text_words : list string) :
  word_hit audit_word text_words
  = existsb (fun text_word =>
               Qle_bool 0.70%Q (similarity audit_word text_word))
            text_words.
Proof.
  induction text_words as [|w ws IH]; simpl; [reflexivity|].
  rewrite IH. unfold fuzzy_threshold.
  destruct (Qle_bool 0.70%Q (similarity audit_word w)); reflexivity.
Qed.

Lemma count_matches_filter (audit_words text_words : list string) :
  count_matches audit_words text_words
  = List.length
      (filter (fun audit_word =>
                 existsb (fun text_word =>
                            Qle_bool 0.70%Q
                                     (similarity audit_word text_word))
                         text_words)
              audit_words).
Proof.
  induction audit_words as [|w ws IH]; simpl; [reflexivity|].
  rewrite IH, word_hit_existsb.
  destruct (existsb _ text_words); reflexivity.
Qed.

(** The division of the source is guarded: the percentage is always
    defined and is the one of the spec. *)
Lemma match_percentage_defined (name text_clean : string) :
  match_percentage name text_clean = inr (percentage name text_clean).
Proof.
  unfold match_percentage, percentage, similar_words.
  rewrite count_matches_filter.
  destruct (Text.split name) as [|w ws]; [reflexivity|].
  reflexivity.
Qed.

Lemma Qlt_bool_iff (x y : Q) : Qlt_bool x y = true <-> (x < y)%Q.
Proof.
  unfold Qlt_bool. rewrite negb_true_iff.
  destruct (Qle_bool y x) eqn:E.
  - apply Qle_bool_iff in E. split; [discriminate|].
    intros H. exfalso. apply (Qlt_not_le _ _ H E).
  - split; [|reflexivity]. intros _. apply Qnot_le_lt.
    intros H. apply Qle_bool_iff in H. congruence.
Qed.

Lemma percentage_empty_name (text_clean : string) :
  percentage "" text_clean = 0%Q.
Proof. reflexivity. Qed.

(** What the loop over the names leaves in [(best_name_match,
    best_name_score)]: either the state it started from, when no name
    both beats the starting score and reaches one half, or the first name
    of the best percentage. *)
Lemma best_name_spec (text_clean : string) :
  forall names best score,
  exists best' score',
    best_name names text_clean (best, score) = inr (best', score')
    /\ ((best' = best /\ score' = score
         /\ forall n, In n names ->
                      ~ ((score < percentage n text_clean)%Q
                         /\ (0.5 <= percentage n text_clean)%Q))
        \/ (exists l1 n l2,
               names = l1 ++ n :: l2
               /\ best' = Some n
               /\ score' = percentage n text_clean
               /\ (0.5 <= percentage n text_clean)%Q
               /\ (score < percentage n text_clean)%Q
               /\ (forall n', In n' l1 ->
                     (percentage n' text_clean < percentage n text_clean)%Q)
               /\ (forall n', In n' l2 ->
                     (percentage n' text_clean
                      <= percentage n text_clean)%Q))).
Proof.
  induction names as [|n0 names IH]; intros best score; simpl.
  - exists best, score. split; [reflexivity|]. left.
    repeat split. intros n [].
  - rewrite match_percentage_defined. simpl.
    set (p0 := percentage n0 text_clean).
    destruct (Qlt_bool score p0 && Qle_bool 0.5%Q p0) eqn:E.
    + apply andb_prop in E as [E1 E2].
      apply Qlt_bool_iff in E1. apply Qle_bool_iff in E2.
      destruct (IH (Some n0) p0) as [best' [score' [Hrun Hcase]]].
      exists best', score'. split; [exact Hrun|]. right.
      destruct Hcase as [[Hb [Hs Hrest]]|
                         [l1 [n [l2 [Hn [Hb [Hs [Hh [Hlt [H1 H2]]]]]]]]]].
      * exists [], n0, names. repeat split; try assumption.
        -- intros n' [].
        -- intros n' Hin. specialize (Hrest n' Hin). fold p0.
           destruct (Qlt_le_dec p0 (percentage n' text_clean)) as [Hc|Hc];
             [|exact Hc].
           exfalso. apply Hrest. split; [exact Hc|]. fold p0 in Hc. lra.
      * exists (n0 :: l1), n, l2. repeat split; try assumption.
        -- rewrite Hn. reflexivity.
        -- lra.
        -- intros n' [E|Hin]; [subst n'; exact Hlt|now apply H1].
    + destruct (IH best score) as [best' [score' [Hrun Hcase]]].
      exists best', score'. split; [exact Hrun|].
      assert (Hnot : ~ ((score < p0)%Q /\ (0.5 <= p0)%Q)).
      { intros [H1 H2]. apply Qlt_bool_iff in H1.
        apply Qle_bool_iff in H2. rewrite H1, H2 in E. discriminate E. }
      destruct Hcase as [[Hb [Hs Hrest]]|
                         [l1 [n [l2 [Hn [Hb [Hs [Hh [Hlt [H1 H2]]]]]]]]]].
      * left. repeat split; try assumption.
        intros n [E'|Hin]; [subst n; exact Hnot|now apply Hrest].
      * right. exists (n0 :: l1), n, l2. repeat split; try assumption.
        -- rewrite Hn. reflexivity.
        -- intros n' [E'|Hin]; [subst n'|now apply H1]. fold p0.
           destruct (Qlt_le_dec p0 (percentage n text_clean)) as [Hc|Hc];
             [exact Hc|].
           exfalso. apply Hnot. split; lra.
Qed.

(** The two ways the fuzzy stage on names can end. *)
Lemma fuzzy_name_cases (self : extractor) (text_clean : string) :
  let names := Dict.keys (audit_name_to_id self) in
  (fuzzy_name self text_clean = Continue
   /\ forall n, In n names -> (percentage n text_clean < 0.5)%Q)
  \/ (exists l1 name l2 id,
         names = l1 ++ name :: l2
         /\ Dict.get (audit_name_to_id self) name = Some id
         /\ (0.5 <= percentage name text_clean)%Q
         /\ (forall n', In n' l1 ->
               (percentage n' text_clean < percentage name text_clean)%Q)
         /\ (forall n', In n' l2 ->
               (percentage n' text_clean <= percentage name text_clean)%Q)
         /\ fuzzy_name self text_clean
            = Return (specific_audit
                        ("audit_name", name) ("audit_id", id)
                        (0.85 * percentage name text_clean)%Q)).
Proof.
  intros names. unfold fuzzy_name. fold names.
  destruct (best_name_spec text_clean names None 0%Q)
    as [best' [score' [Hrun Hcase]]].
  rewrite Hrun.
  destruct Hcase as [[Hb [Hs Hrest]]|
                     [l1 [n [l2 [Hn [Hb [Hs [Hh [Hlt [H1 H2]]]]]]]]]].
  - left. subst best'. split; [reflexivity|].
    intros n Hin. specialize (Hrest n Hin).
    destruct (Qlt_le_dec (percentage n text_clean) 0.5%Q) as [Hc|Hc];
      [exact Hc|].
    exfalso. apply Hrest. split; lra.
  - right. subst best' score'.
    assert (Hne : String.eqb n "" = false).
    { apply String.eqb_neq. intros ->.
      rewrite percentage_empty_name in Hh. lra. }
    rewrite Hne.
    destruct (get_of_key (audit_name_to_id self) n) as [id Hid].
    { fold names. rewrite Hn. apply in_or_app. right. now left. }
    exists l1, n, l2, id. repeat split; try assumption.
    unfold subscript. rewrite Hid. reflexivity.
Qed.

Lemma fuzzy_name_quiet (self : extractor) (text_clean : string) :
  quiet (fuzzy_name self text_clean).
Proof.
  destruct (fuzzy_name_cases self text_clean)
    as [[H _]|[l1 [name [l2 [id [_ [_ [_ [_ [_ H]]]]]]]]]];
    rewrite H; exact I.
Qed.

End ResolverFacts.

(* ================================================================= *)
(** ** The fuzzy stage on audit names *)

Module FuzzyNameFacts.
Import Database Extractor Catalog Cascade.

Local Open Scope string_scope.
Local Open Scope list_scope.

(** C5: in the fuzzy stage on names the percentage of a name is the
    number of its words for which some word of the text has similarity at
    least 0.70, over the number of its words; the stage walks all the
    names, keeps the first one of the highest percentage provided that
    percentage is at least 0.50, and answers with confidence 0.85 times
    the percentage; a name with one similar word out of four is never the
    answer. *)
Theorem fuzzy_name_stage (self : extractor) (text_clean : string) :
  let names := Dict.keys (audit_name_to_id self) in
  let p := fun name => percentage name text_clean in
  (forall name, match_percentage name text_clean = inr (p name))
  /\ ((forall name, In name names -> (p name < 0.5)%Q)
      <-> fuzzy_name self text_clean = Continue)
  /\ (forall r,
         fuzzy_name self text_clean = Return r ->
         exists l1 name l2 id,
           names = l1 ++ name :: l2
           /\ Dict.get (audit_name_to_id self) name = Some id
           /\ (0.5 <= p name)%Q
           /\ (forall n', In n' l1 -> (p n' < p name)%Q)
           /\ (forall n', In n' l2 -> (p n' <= p name)%Q)
           /\ r = specific_audit ("audit_name", name) ("audit_id", id)
                                 (0.85 * p name)%Q)
  /\ (forall name,
         List.length (Text.split name) = 4 ->
         List.length (similar_words name text_clean) = 1 ->
         (p name == 1 # 4)%Q
         /\ forall id score,
             fuzzy_name self text_clean
             <> Return (specific_audit ("audit_name", name)
                                       ("audit_id", id) score)).
Proof.
  intros names p.
  pose proof (ResolverFacts.fuzzy_name_cases self text_clean) as Hcases.
  fold names in Hcases.
  assert (Hquarter :
            forall name,
              List.length (Text.split name) = 4 ->
              List.length (similar_words name text_clean) = 1 ->
              (p name == 1 # 4)%Q).
  { intros name H4 H1. subst p. cbv beta. unfold percentage.
    destruct (Text.split name) as [|w ws] eqn:E; [discriminate H4|].
    rewrite H1, H4. reflexivity. }
  split; [|split; [|split]].
  - intros name. apply ResolverFacts.match_percentage_defined.
  - split.
    + intros Hlow.
      destruct Hcases
        as [[H _]|[l1 [name [l2 [id [Hn [_ [Hh _]]]]]]]]; [exact H|].
      exfalso. assert (Hin : In name names).
      { rewrite Hn. apply in_or_app. right. now left. }
      specialize (Hlow name Hin). subst p. cbv beta in Hlow. lra.
    + intros Hc.
      destruct Hcases
        as [[_ H]|[l1 [name [l2 [id [_ [_ [_ [_ [_ H]]]]]]]]]];
        [exact H|].
      rewrite H in Hc. discriminate Hc.
  - intros r Hr.
    destruct Hcases
      as [[H _]|[l1 [name [l2 [id [Hn [Hid [Hh [H1 [H2 H]]]]]]]]]].
    + rewrite H in Hr. discriminate Hr.
    + rewrite H in Hr. inversion Hr; subst r.
      exists l1, name, l2, id. repeat split; assumption.
  - intros name H4 H1. split; [now apply Hquarter|].
    intros id score Hr.
    destruct Hcases
      as [[H _]|[l1 [name' [l2 [id' [_ [_ [Hh [_ [_ H]]]]]]]]]].
    + rewrite H in Hr. discriminate Hr.
    + rewrite H in Hr. inversion Hr; subst name'.
      pose proof (Hquarter name H4 H1) as Hq.
      subst p. cbv beta in Hq. lra.
Qed.

(** Two misspelt words out of the three of "router security audit":
    percentage 2/3 and confidence 0.85 * 2/3. *)
Example fuzzy_name_two_of_three :
  (percentage "router security audit" "rooter securty" == 2 # 3)%Q
  /\ fuzzy_name demo_extractor "rooter securty"
     = Return (specific_audit
                 ("audit_name", "router security audit") ("audit_id", "3")
                 (0.85 * percentage "router security audit"
                                    "rooter securty")%Q).
Proof.
  split.
  - vm_compute. reflexivity.
  - vm_compute. reflexivity.
Qed.

(** One similar word out of four: no answer. *)
Example fuzzy_name_one_of_four :
  let self :=
    {| data := None; audits_data := [];
       audit_categories := [];
       audit_name_to_id := [("check uptime load average", "7")];
       audit_id_to_name := [("7", "Check Uptime Load Average")];
       category_to_audits := [] |} in
  List.length (similar_words "check uptime load average" "uptyme now") = 1
  /\ fuzzy_name self "uptyme now" = Continue.
Proof.
  intros self. split.
  - vm_compute. reflexivity.
  - vm_compute. reflexivity.
Qed.

End FuzzyNameFacts.

(* ================================================================= *)
(** ** The cascade as a whole *)

Module CascadeFacts.
Import Database Extractor Catalog Cascade Scenario.

Local Open Scope string_scope.
Local Open Scope list_scope.

Lemma cascade_first_answer (set_iteration : list string -> list string)
      (self : extractor) (text_clean : string) :
  cascade set_iteration self text_clean
  = first_answer (stages set_iteration self text_clean).
Proof.
  unfold cascade, stages.
  destruct (exact_id self Regex.audit_id_patterns text_clean);
    try reflexivity.
  destruct (exact_name (audit_name_to_id self) text_clean);
    try reflexivity.
  destruct (exact_category self _ text_clean); try reflexivity.
  destruct (fuzzy_name self text_clean); try reflexivity.
  destruct (fuzzy_category self _ text_clean); reflexivity.
Qed.

Lemma first_answer_skips (before : list step) (s : step)
      (after : list step) :
  Forall (fun s' => s' = Continue) before ->
  first_answer (before ++ s :: after)
  = match s with
    | Continue => first_answer after
    | _ => s
    end.
Proof.
  induction before as [|s0 before IH]; intros H; simpl.
  - destruct s; reflexivity.
  - inversion H as [|x l Hx Hl]; subst. now apply IH.
Qed.

Lemma first_answer_none (l : list step) :
  Forall (fun s => s = Continue) l -> first_answer l = Continue.
Proof.
  induction l as [|s l IH]; intros H; simpl; [reflexivity|].
  inversion H as [|x l' Hx Hl]; subst. now apply IH.
Qed.

Lemma cascade_quiet (set_iteration : list string -> list string)
      (self : extractor) (text_clean : string) :
  quiet (cascade set_iteration self text_clean).
Proof.
  unfold cascade.
  apply ResolverFacts.orelse_quiet;
    [apply ResolverFacts.exact_id_quiet|].
  apply ResolverFacts.orelse_quiet;
    [apply ResolverFacts.exact_name_quiet|].
  apply ResolverFacts.orelse_quiet;
    [apply ResolverFacts.exact_category_quiet|].
  apply ResolverFacts.orelse_quiet;
    [apply ResolverFacts.fuzzy_name_quiet|].
  apply ResolverFacts.fuzzy_category_quiet.
Qed.

(** The exact stage on categories answers as soon as one category of the
    catalog occurs in the text. *)
Lemma exact_category_hit (self : extractor) (categories : list string)
      (text_clean : string) :
  (exists category,
      In category categories /\ Text.contains category text_clean = true) ->
  exists c,
    In c categories /\ Text.contains c text_clean = true
    /\ exact_category self categories text_clean
       = Return (category_answer self c 1.0%Q).
Proof.
  induction categories as [|c0 categories IH]; intros [category [Hin Hc]].
  - destruct Hin.
  - simpl. destruct (Text.contains c0 text_clean) eqn:E.
    + exists c0. split; [now left|]. split; [exact E|reflexivity].
    + destruct Hin as [->|Hin]; [congruence|].
      destruct IH as [c [H1 [H2 H3]]]; [now exists category|].
      exists c. split; [now right|]. split; assumption.
Qed.

(** C1: on a catalog that is not empty the answer is the one of the first
    of the five stages (exact id, exact name, exact category, fuzzy name,
    fuzzy category) that does not fall through, and "no_match" when all
    do; in particular a text without exact id or name hit that contains a
    category gets the "category_clarification" answer of the exact
    category stage, whatever the fuzzy stage on names would find. *)
Theorem cascade_priority (set_iteration : list string -> list string)
        (self : extractor) (text : string) :
  audits_data self <> [] ->
  let text_clean := Text.preprocess_text text in
  let out := extract_from set_iteration self text in
  (forall before r after,
      stages set_iteration self text_clean = before ++ Return r :: after ->
      Forall (fun s => s = Continue) before ->
      out = inr r)
  /\ (Forall (fun s => s = Continue)
             (stages set_iteration self text_clean) ->
      out = inr no_match)
  /\ (exact_id self Regex.audit_id_patterns text_clean = Continue ->
      exact_name (audit_name_to_id self) text_clean = Continue ->
      (exists category,
          In category (set_iteration (audit_categories self))
          /\ Text.contains category text_clean = true) ->
      exists c,
        In c (set_iteration (audit_categories self))
        /\ Text.contains c text_clean = true
        /\ out = inr (category_answer self c 1.0%Q)
        /\ type (category_answer self c 1.0%Q) = "category_clarification").
Proof.
  intros Hdata text_clean out.
  assert (Hout :
            out = match first_answer (stages set_iteration self text_clean)
                  with
                  | Return r => inr r
                  | Raise e => inl e
                  | Continue => inr no_match
                  end).
  { subst out. unfold extract_from. fold text_clean.
    rewrite cascade_first_answer.
    destruct (audits_data self); [contradiction|reflexivity]. }
  split; [|split].
  - intros before r after Hst Hbefore.
    rewrite Hout, Hst, (first_answer_skips _ _ _ Hbefore). reflexivity.
  - intros Hall. rewrite Hout, (first_answer_none _ Hall). reflexivity.
  - intros H1 H2 Hcat.
    destruct (exact_category_hit self _ text_clean Hcat) as [c [Hin [Hc H3]]].
    exists c. split; [exact Hin|]. split; [exact Hc|].
    split; [|reflexivity].
    rewrite Hout. unfold stages. rewrite H1, H2, H3. reflexivity.
Qed.

(** "rooter securty network": the fuzzy stage on names would answer with
    "router security audit", but the category "network" occurs exactly
    and wins. *)
Lemma cascade_priority_witness :
  let text := "rooter securty network" in
  fuzzy_name demo_extractor (Text.preprocess_text text)
  = Return (specific_audit
              ("audit_name", "router security audit") ("audit_id", "3")
              (0.85 * percentage "router security audit"
                                 "rooter securty network")%Q)
  /\ extract_from in_order demo_extractor text
     = inr (category_answer demo_extractor "network" 1.0%Q).
Proof.
  intros text. split; [vm_compute; reflexivity|].
  destruct (cascade_priority in_order demo_extractor text) as [H _].
  - discriminate.
  - apply (H [Continue; Continue]
             (category_answer demo_extractor "network" 1.0%Q)
             [fuzzy_name demo_extractor (Text.preprocess_text text);
              fuzzy_category demo_extractor
                             (in_order (audit_categories demo_extractor))
                             (Text.preprocess_text text)]).
    + vm_compute. reflexivity.
    + repeat constructor.
Defined.

(** C8: [extract_audit_entities] never raises; on an empty catalog,
    tested before any stage, the answer is "no_data" with success false,
    and on a catalog that is not empty with all stages falling through it
    is "no_match" with no entity. *)
Theorem extract_never_raises (set_iteration : list string -> list string)
        (db : store) (now : nat) (p : process) (self : extractor)
        (text : string) :
  let run := extract_audit_entities set_iteration db now p self text in
  let self' := snd run in
  exists r,
    fst (fst run) = inr r
    /\ (audits_data self' = [] ->
        r = no_data /\ type r = "no_data" /\ success r = false)
    /\ (audits_data self' <> [] ->
        Forall (fun s => s = Continue)
               (stages set_iteration self' (Text.preprocess_text text)) ->
        r = no_match /\ type r = "no_match" /\ entities r = []
        /\ success r = false).
Proof.
  intros run self'.
  assert (Hrun : fst (fst run) = extract_from set_iteration self' text).
  { subst self' run. unfold extract_audit_entities.
    destruct (refresh_data_if_needed set_iteration db now p self)
      as [[ok p'] s']. reflexivity. }
  rewrite Hrun. clearbody self'. clear Hrun run.
  unfold extract_from.
  destruct (audits_data self') as [|a l] eqn:E.
  - exists no_data. split; [reflexivity|]. split.
    + intros _. repeat split.
    + intros H. contradiction.
  - pose proof (cascade_quiet set_iteration self'
                              (Text.preprocess_text text)) as Hq.
    pose proof (cascade_first_answer set_iteration self'
                                     (Text.preprocess_text text)) as Hf.
    destruct (cascade set_iteration self' (Text.preprocess_text text))
      as [|r|e].
    + exists no_match. split; [reflexivity|]. split.
      * intros H. discriminate H.
      * intros _ _. repeat split.
    + exists r. split; [reflexivity|]. split.
      * intros H. discriminate H.
      * intros _ Hall. rewrite (first_answer_none _ Hall) in Hf.
        discriminate Hf.
    + destruct Hq.
Qed.

(** C4: when the pattern "audit <n>" captures a number known to the
    catalog, the answer is "specific_audit" with the first such number as
    [audit_id] and the display name paired with it as [audit_name], both
    with confidence 1.0; it is [n] itself when no other captured number
    is known. *)
Theorem audit_id_pattern_resolves
        (set_iteration : list string -> list string)
        (self : extractor) (text n name : string) :
  audits_data self <> [] ->
  let captured :=
    Regex.findall Regex.audit_pattern (Text.preprocess_text text) in
  In n captured ->
  Dict.get (audit_id_to_name self) n = Some name ->
  exists m name',
    find (Dict.mem (audit_id_to_name self)) captured = Some m
    /\ Dict.get (audit_id_to_name self) m = Some name'
    /\ extract_from set_iteration self text
       = inr (specific_audit ("audit_id", m) ("audit_name", name') 1.0%Q)
    /\ ((forall m', In m' captured ->
                    Dict.mem (audit_id_to_name self) m' = true -> m' = n) ->
        m = n /\ name' = name).
Proof.
  intros Hdata captured Hin Hget.
  assert (Hmem : Dict.mem (audit_id_to_name self) n = true).
  { unfold Dict.mem. now rewrite Hget. }
  destruct (find (Dict.mem (audit_id_to_name self)) captured) as [m|] eqn:E.
  - pose proof (find_some _ _ E) as [Hm1 Hm2].
    destruct (ResolverFacts.mem_get _ _ Hm2) as [name' Hname'].
    exists m, name'. split; [reflexivity|]. split; [exact Hname'|]. split.
    + unfold extract_from.
      destruct (audits_data self); [contradiction|].
      unfold cascade, Regex.audit_id_patterns. simpl exact_id.
      fold captured.
      rewrite ResolverFacts.id_matches_find, E, Hname'. reflexivity.
    + intros Honly. assert (m = n) by now apply Honly. subst m.
      split; [reflexivity|congruence].
  - exfalso. pose proof (find_none _ _ E n Hin). congruence.
Qed.

(** The scenario of the spec: catalog with the single audit 16 "Cisco
    Audit New", input "run audit 16". *)
Lemma audit_id_pattern_witness :
  extract_from in_order scenario_extractor "run audit 16"
  = inr (specific_audit ("audit_id", "16") ("audit_name", "Cisco Audit New")
                        1.0%Q).
Proof.
  destruct (audit_id_pattern_resolves
              in_order scenario_extractor "run audit 16" "16"
              "Cisco Audit New")
    as [m [name' [_ [_ [H Honly]]]]].
  - discriminate.
  - left. reflexivity.
  - reflexivity.
  - destruct Honly as [-> ->]; [|exact H].
    intros m' [<-|[]] _. reflexivity.
Defined.

(** The same through the entry point, refresh included. *)
Example scenario_run_audit_16 :
  fst (fst (extract_audit_entities in_order scenario_store 1
                                   scenario_process scenario_extractor
                                   "run audit 16"))
  = inr {| entities :=
             [("audit_id", {| value := "16"; confidence := 1.0%Q |});
              ("audit_name",
               {| value := "Cisco Audit New"; confidence := 1.0%Q |})];
           type := "specific_audit";
           category_audits := None;
           success := true |}.
Proof. vm_compute. reflexivity. Qed.

(** Empty catalog: "no_data" whatever the text. *)
Example scenario_empty_catalog :
  fst (fst (extract_audit_entities in_order unreachable_store 0
                                   fresh_process empty_extractor
                                   "run audit 16"))
  = inr no_data.
Proof. reflexivity. Qed.

End CascadeFacts.

(* ================================================================= *)
(** ** More on the router *)

Module RouterMore.
Import Database Orchestrator Routing Threshold.

Local Open Scope string_scope.
Local Open Scope list_scope.

(** The intent read off an answer of the language model is always one of
    the seven labels of [INTENT_MAPPING]. *)
Theorem extracted_intent_is_known (llm_response : string) :
  In (extract_intent_from_llm_response llm_response)
     (Dict.keys INTENT_MAPPING).
Proof.
  unfold extract_intent_from_llm_response.
  repeat match goal with
         | |- context [if ?c then _ else _] => destruct c
         end; simpl; tauto.
Qed.

Lemma routable_cases (intent : string) :
  In intent routable ->
  intent = "LIST_AUDITS" \/ intent = "AUDIT_RETRIEVAL_BY_CATEGORY"
  \/ intent = "GET_AUDIT_HISTORY" \/ intent = "GET_AUDIT_HISTORY_FILTERED"
  \/ intent = "EXECUTE_AUDIT" \/ intent = "ENGINEER_AUDIT".
Proof.
  unfold routable. simpl. intros H.
  repeat (destruct H as [H|H]; [subst; tauto|]). destruct H.
Qed.

Lemma not_routable (intent : string) :
  ~ In intent routable ->
  is_retrieval intent = false
  /\ String.eqb intent "EXECUTE_AUDIT" = false
  /\ String.eqb intent "ENGINEER_AUDIT" = false.
Proof.
  intros H. unfold is_retrieval. simpl.
  repeat match goal with
         | |- context [String.eqb ?i ?s] =>
             destruct (String.eqb_spec i s) as [E|_];
             [exfalso; apply H; rewrite E; unfold routable; simpl; tauto|]
         end.
  repeat split.
Qed.

Lemma route_unknown_intent (w : world) (intent : string)
      (context : list message) :
  ~ In intent routable ->
  route_to_agent w intent context = ([], context).
Proof.
  intros H. destruct (not_routable intent H) as [H1 [H2 H3]].
  unfold route_to_agent. rewrite H1, H2, H3. reflexivity.
Qed.

(** Every message [route_to_agent] publishes for a handler goes to the
    topic that [INTENT_MAPPING] gives for the intent and carries the
    intent, the last message of the conversation and the conversation
    itself; for an intent without a branch (among them "GENERAL") nothing
    at all is published. *)
Theorem route_follows_mapping (w : world) (intent : string)
        (context : list message) :
  (forall topic i action original c,
      In (Delegate topic i action original c)
         (fst (route_to_agent w intent context)) ->
      Dict.get INTENT_MAPPING intent = Some topic
      /\ i = intent /\ original = _extract_user_message context
      /\ c = context)
  /\ (forall id u d t,
         In (NotifyEngineer id u d t)
            (fst (route_to_agent w intent context)) ->
         Dict.get INTENT_MAPPING intent = Some ENGINEER_AGENT_TOPIC)
  /\ (~ In intent routable ->
      route_to_agent w intent context = ([], context)).
Proof.
  split; [|split].
  - intros topic i action original c Hin.
    unfold route_to_agent in Hin.
    destruct (is_retrieval intent) eqn:Hr.
    + destruct Hin as [Hin|[]]. inversion Hin; subst.
      unfold is_retrieval in Hr. simpl in Hr.
      repeat match type of Hr with
             | context [String.eqb ?i ?s] =>
                 destruct (String.eqb_spec i s) as [E|_];
                 [rewrite E; repeat split|]
             end.
      discriminate Hr.
    + destruct (String.eqb_spec intent "EXECUTE_AUDIT") as [E|_].
      * destruct Hin as [Hin|[]]. inversion Hin; subst. repeat split.
      * exfalso.
        destruct (String.eqb intent "ENGINEER_AUDIT"); [|destruct Hin].
        destruct (insert_engineer_task _ _ _ _) as [task_id|what].
        -- destruct (truthy_id task_id); simpl in Hin.
           ++ destruct Hin as [Hin|[Hin|Hin]]; try discriminate Hin.
              destruct (notify_raises w); [destruct Hin|].
              destruct Hin as [Hin|[]]. discriminate Hin.
           ++ destruct Hin as [Hin|[Hin|[]]]; discriminate Hin.
        -- simpl in Hin. destruct Hin as [Hin|[Hin|[]]]; discriminate Hin.
  - intros id u d t Hin. unfold route_to_agent in Hin.
    destruct (is_retrieval intent).
    + destruct Hin as [Hin|[]]. discriminate Hin.
    + destruct (String.eqb intent "EXECUTE_AUDIT").
      * destruct Hin as [Hin|[]]. discriminate Hin.
      * destruct (String.eqb_spec intent "ENGINEER_AUDIT") as [E|_];
          [rewrite E; reflexivity|destruct Hin].
  - apply route_unknown_intent.
Qed.

(** A routable intent always produces a message for the user or for a
    handler. *)
Lemma route_answers (w : world) (intent : string) (context : list message) :
  In intent routable ->
  existsb is_answer (fst (route_to_agent w intent context)) = true.
Proof.
  intros H. apply routable_cases in H.
  destruct H as [H|[H|[H|[H|[H|H]]]]]; subst intent; try reflexivity.
  unfold route_to_agent. simpl.
  destruct (insert_engineer_task _ _ _ _) as [task_id|what];
    [|reflexivity].
  destruct (truthy_id task_id); reflexivity.
Qed.

Lemma known_label_cases (label : string) :
  In label (Dict.keys INTENT_MAPPING) ->
  label = "GENERAL" \/ In label routable.
Proof.
  simpl. intros H.
  repeat (destruct H as [H|H];
          [subst; first [left; reflexivity
                        |right; unfold routable; simpl; tauto]|]).
  destruct H.
Qed.

(** The whole trace of [handle_task], empty message included. *)
Lemma handle_task_trace (w : world) (threshold : Q)
      (context : list message) :
  let user_message := _extract_user_message context in
  let label := fst (infer w (Text.lower user_message)) in
  let conf := snd (infer w (Text.lower user_message)) in
  fst (handle_task w threshold context)
  = if String.eqb user_message "" then [reply w context no_content]
    else
      Classify Classifier.LoadWeights
      :: (if Qle_bool threshold conf && negb (String.eqb label "GENERAL")
          then fst (route_to_agent w label context)
          else if String.eqb label "GENERAL"
          then [LLMCall _general_system_message context;
                reply w context
                      (llm_text w _general_system_message context)]
          else
            let answer :=
              llm_text w _classification_system_message context in
            let clarified := extract_intent_from_llm_response answer in
            LLMCall _classification_system_message context
            :: (if negb (String.eqb clarified "GENERAL")
                then fst (route_to_agent w clarified context)
                else [LLMCall _general_system_message context;
                      reply w context
                            (llm_text w _general_system_message
                                      context)])).
Proof.
  intros user_message label conf.
  destruct (String.eqb_spec user_message "") as [E|E].
  - unfold handle_task. fold user_message. rewrite E. reflexivity.
  - apply (RouterFacts.handle_task_classified w threshold context label conf
                                              E).
    subst label conf. apply surjective_pairing.
Qed.

(** Whenever the classifier answers with one of the seven labels, the
    router sends something: a reply to the user or a task for a handler.
    No request is left without an answer. *)
Theorem handle_task_answers (w : world) (threshold : Q)
        (context : list message) :
  In (fst (infer w (Text.lower (_extract_user_message context))))
     (Dict.keys INTENT_MAPPING) ->
  existsb is_answer (fst (handle_task w threshold context)) = true.
Proof.
  intros Hknown. rewrite handle_task_trace.
  destruct (String.eqb (_extract_user_message context) "");
    [reflexivity|].
  set (label := fst (infer w (Text.lower (_extract_user_message context))))
    in *.
  simpl existsb.
  destruct (known_label_cases label Hknown) as [Hg|Hr].
  - rewrite Hg. rewrite andb_false_r. reflexivity.
  - destruct (Qle_bool threshold _ && negb (String.eqb label "GENERAL")).
    + now apply route_answers.
    + destruct (String.eqb label "GENERAL"); [reflexivity|].
      cbv zeta.
      assert (Hk : In (extract_intent_from_llm_response
                         (llm_text w _classification_system_message
                                   context))
                      (Dict.keys INTENT_MAPPING)).
      { unfold extract_intent_from_llm_response.
        repeat match goal with
               | |- context [if ?c then _ else _] => destruct c
               end; simpl; tauto. }
      apply known_label_cases in Hk.
      destruct (String.eqb_spec
                  (extract_intent_from_llm_response
                     (llm_text w _classification_system_message context))
                  "GENERAL") as [E|E]; [reflexivity|].
      destruct Hk as [Hk|Hk]; [contradiction|].
      simpl. now apply route_answers.
Qed.

(** The demo world answers "run audit 16" with one task for the
    execution handler. *)
Lemma handle_task_answers_witness :
  existsb is_answer
          (fst (handle_task (demo_world "EXECUTE_AUDIT" 0.95%Q None None)
                            CONFIDENCE_THRESHOLD
                            (demo_context "run audit 16")))
  = true.
Proof.
  apply handle_task_answers. simpl. tauto.
Defined.

(** A confident label for which [route_to_agent] has no branch leaves
    the request without any answer: only the classifier has run. *)
Theorem unknown_label_is_dropped (w : world) (threshold : Q)
        (context : list message) (label : string) (conf : Q) :
  _extract_user_message context <> "" ->
  infer w (Text.lower (_extract_user_message context)) = (label, conf) ->
  (threshold <= conf)%Q ->
  label <> "GENERAL" ->
  ~ In label routable ->
  handle_task w threshold context
  = ([Classify Classifier.LoadWeights], context).
Proof.
  intros Hmsg Hinfer Hconf Hg Hr. unfold handle_task.
  apply String.eqb_neq in Hmsg. rewrite Hmsg.
  unfold predict_intent, Classifier.predict. simpl. rewrite Hinfer.
  apply Qle_bool_iff in Hconf. rewrite Hconf.
  apply String.eqb_neq in Hg. rewrite Hg. simpl.
  rewrite (route_unknown_intent w label context Hr). reflexivity.
Qed.

Lemma unknown_label_witness :
  handle_task (demo_world "DELETE_AUDIT" 0.99%Q None None)
              CONFIDENCE_THRESHOLD (demo_context "delete audit 3")
  = ([Classify Classifier.LoadWeights], demo_context "delete audit 3").
Proof.
  apply (unknown_label_is_dropped _ _ _ "DELETE_AUDIT" 0.99%Q).
  - discriminate.
  - reflexivity.
  - discriminate.
  - discriminate.
  - unfold routable. simpl.
    intros [H|[H|[H|[H|[H|[H|[]]]]]]]; discriminate H.
Defined.

End RouterMore.

(* ================================================================= *)
(** ** Limits of one run of the router *)

Module RouterLimits.
Import Database Orchestrator Routing Threshold.

Local Open Scope string_scope.
Local Open Scope list_scope.



(** When every call of the language model fails, a request that needs
    the model is still answered: the user gets the fixed apology, and no
    handler is sent anything. *)
Theorem llm_failure_apology (w : world) (threshold : Q)
        (context : list message) :
  (forall system c, llm w system c = None) ->
  calls_llm (fst (handle_task w threshold context)) = true ->
  exists asked,
    fst (handle_task w threshold context)
    = Classify Classifier.LoadWeights
      :: asked ++ [reply w context apology]
    /\ forallb is_llm_call asked = true
    /\ dispatches (fst (handle_task w threshold context)) = false.
Proof.
  intros Hfail. rewrite RouterMore.handle_task_trace.
  assert (Htext : forall system, llm_text w system context = apology).
  { intros system. unfold llm_text. now rewrite Hfail. }
  destruct (String.eqb (_extract_user_message context) "");
    [discriminate|].
  set (label := fst (infer w (Text.lower (_extract_user_message context)))).
  destruct (Qle_bool threshold _ && negb (String.eqb label "GENERAL")).
  - intros H. simpl in H.
    rewrite RouterFacts.route_to_agent_no_llm in H. discriminate H.
  - destruct (String.eqb label "GENERAL").
    + intros _. rewrite Htext.
      exists [LLMCall _general_system_message context].
      repeat split.
    + intros _. cbv zeta. rewrite !Htext.
      change (extract_intent_from_llm_response apology) with "GENERAL".
      exists [LLMCall _classification_system_message context;
              LLMCall _general_system_message context].
      repeat split.
Qed.

(** A world whose model is down, a low confidence: two failed calls and
    the apology. *)
Lemma llm_failure_witness :
  let w :=
    {| infer := fun _ => ("EXECUTE_AUDIT", 0.5%Q);
       llm := fun _ _ => None;
       tasks := {| connection := None; close_raises := false |};
       session_id := "1a2b3c4d";
       notify_raises := false;
       agent_type := ORCHESTRATOR_AGENT_TOPIC |} in
  let context := demo_context "do the thing" in
  fst (handle_task w CONFIDENCE_THRESHOLD context)
  = [Classify Classifier.LoadWeights;
     LLMCall _classification_system_message context;
     LLMCall _general_system_message context;
     reply w context apology].
Proof.
  intros w context.
  destruct (llm_failure_apology w CONFIDENCE_THRESHOLD context)
    as [asked [H _]].
  - reflexivity.
  - reflexivity.
  - reflexivity.
Defined.

(** Whatever values the setter is called with, the threshold stays
    between 0 and 1: a value outside is refused and the previous one
    kept. *)
Theorem threshold_stays_in_range (thresholds : list Q) :
  (0 <= after_calls thresholds /\ after_calls thresholds <= 1)%Q.
Proof.
  unfold after_calls.
  assert (H : forall current,
             (0 <= current /\ current <= 1)%Q ->
             (0 <= fold_left (fun c t => set_confidence_threshold t c)
                             thresholds current
              /\ fold_left (fun c t => set_confidence_threshold t c)
                           thresholds current <= 1)%Q).
  { induction thresholds as [|t ts IH]; intros current Hc; simpl.
    - exact Hc.
    - apply IH. unfold set_confidence_threshold.
      destruct (Qle_bool 0.0%Q t && Qle_bool t 1.0%Q) eqn:E; [|exact Hc].
      apply andb_prop in E as [E1 E2].
      apply Qle_bool_iff in E1. apply Qle_bool_iff in E2. split; lra. }
  apply H. unfold CONFIDENCE_THRESHOLD. split; lra.
Qed.

End RouterLimits.

(* ================================================================= *)
(** ** The lookup maps *)

Module DictFacts.

Lemma get_set_same {V : Type} (d : Dict.dict V) (k : string) (v : V) :
  Dict.get (Dict.set d k v) k = Some v.
Proof.
  induction d as [|[k' v'] d IH]; simpl.
  - now rewrite String.eqb_refl.
  - destruct (String.eqb k' k) eqn:E; simpl; rewrite E; [reflexivity|].
    exact IH.
Qed.

Lemma get_set_other {V : Type} (d : Dict.dict V) (k k0 : string) (v : V) :
  k0 <> k -> Dict.get (Dict.set d k v) k0 = Dict.get d k0.
Proof.
  intros Hne. induction d as [|[k' v'] d IH]; simpl.
  - apply String.eqb_neq in Hne. rewrite String.eqb_sym in Hne.
    now rewrite Hne.
  - destruct (String.eqb_spec k' k) as [->|Hk]; simpl.
    + apply String.eqb_neq in Hne. rewrite String.eqb_sym in Hne.
      now rewrite Hne.
    + destruct (String.eqb k' k0); [reflexivity|exact IH].
Qed.

Lemma in_set {V : Type} (d : Dict.dict V) (k k0 : string) (v v0 : V) :
  In (k0, v0) (Dict.set d k v) -> (k0, v0) = (k, v) \/ In (k0, v0) d.
Proof.
  induction d as [|[k' v'] d IH]; simpl.
  - intros [H|[]]. left. now symmetry.
  - destruct (String.eqb_spec k' k) as [->|Hk]; simpl.
    + intros [H|H]; [left; now symmetry|right; now right].
    + intros [H|H]; [right; now left|].
      destruct (IH H) as [H'|H']; [now left|right; now right].
Qed.

Lemma get_in {V : Type} (d : Dict.dict V) (k : string) (v : V) :
  Dict.get d k = Some v -> In (k, v) d.
Proof.
  induction d as [|[k' v'] d IH]; simpl; [discriminate|].
  destruct (String.eqb_spec k' k) as [->|Hk].
  - intros H. inversion H. now left.
  - intros H. right. now apply IH.
Qed.

Lemma keys_set {V : Type} (d : Dict.dict V) (k : string) (v : V) :
  Dict.keys (Dict.set d k v)
  = if Dict.mem d k then Dict.keys d else Dict.keys d ++ [k].
Proof.
  unfold Dict.mem.
  induction d as [|[k' v'] d IH]; simpl; [reflexivity|].
  destruct (String.eqb k' k) eqn:E; simpl; [reflexivity|].
  rewrite IH. fold (@Dict.keys V).
  destruct (Dict.get d k); reflexivity.
Qed.

End DictFacts.

Module BuildFacts.
Import Database Extractor Lookup.

Local Open Scope string_scope.
Local Open Scope list_scope.

Lemma find_app {A : Type} (f : A -> bool) (l1 l2 : list A) :
  find f (l1 ++ l2)
  = match find f l1 with
    | Some x => Some x
    | None => find f l2
    end.
Proof.
  induction l1 as [|x l1 IH]; simpl; [reflexivity|].
  destruct (f x); [reflexivity|exact IH].
Qed.

Lemma find_last_snoc {A : Type} (f : A -> bool) (l : list A) (x : A) :
  find_last f (l ++ [x]) = if f x then Some x else find_last f l.
Proof.
  unfold find_last. rewrite rev_app_distr. reflexivity.
Qed.

(** The state after the loop of [_build_lookup_maps] over [l], started
    in [self]. *)
Lemma fold_add_audit (l : list audit) :
  forall self,
    let after := fold_left add_audit l self in
    data after = data self
    /\ audits_data after = audits_data self
    /\ audit_categories after
       = fold_left (fun s x => set_add x s)
                   (map (fun a => Text.lower (audit_category a)) l)
                   (audit_categories self)
    /\ (forall id,
           Dict.get (audit_id_to_name after) id
           = match find_last (has_id id) l with
             | Some a => Some (audit_name a)
             | None => Dict.get (audit_id_to_name self) id
             end)
    /\ (forall name,
           Dict.get (audit_name_to_id after) name
           = match find_last (has_name name) l with
             | Some a => Some (audit_id a)
             | None => Dict.get (audit_name_to_id self) name
             end)
    /\ (forall category,
           Dict.get (category_to_audits after) category
           = match Dict.get (category_to_audits self) category with
             | Some old => Some (old ++ filter (in_category category) l)
             | None =>
                 match filter (in_category category) l with
                 | [] => None
                 | found => Some found
                 end
             end).
Proof.
  induction l as [|a l IH] using rev_ind; intros self after.
  - subst after. simpl. repeat split; try reflexivity.
    intros category.
    destruct (Dict.get (category_to_audits self) category);
      [now rewrite app_nil_r|reflexivity].
  - subst after. rewrite fold_left_app. simpl.
    destruct (IH self) as [H1 [H2 [H3 [H4 [H5 H6]]]]].
    set (mid := fold_left add_audit l self) in *.
    split; [exact H1|]. split; [exact H2|]. split; [|split; [|split]].
    + simpl. rewrite H3, map_app, fold_left_app. reflexivity.
    + intros id. simpl. rewrite find_last_snoc. unfold has_id at 1.
      destruct (String.eqb_spec (audit_id a) id) as [<-|Hne].
      * apply DictFacts.get_set_same.
      * rewrite DictFacts.get_set_other by congruence. apply H4.
    + intros name. simpl. rewrite find_last_snoc. unfold has_name at 1.
      destruct (String.eqb_spec (Text.lower (audit_name a)) name)
        as [<-|Hne].
      * apply DictFacts.get_set_same.
      * rewrite DictFacts.get_set_other by congruence. apply H5.
    + intros category. simpl. rewrite filter_app. simpl.
      unfold in_category at 2 4.
      set (c := Text.lower (audit_category a)).
      destruct (String.eqb_spec c category) as [<-|Hne].
      * rewrite DictFacts.get_set_same.
        specialize (H6 c). unfold Dict.mem.
        destruct (Dict.get (category_to_audits mid) c) as [old|] eqn:E.
        -- rewrite E.
           destruct (Dict.get (category_to_audits self) c) as [old0|].
           ++ inversion H6; subst. now rewrite app_assoc.
           ++ destruct (filter (in_category c) l) as [|x xs];
                [discriminate H6|].
              inversion H6; subst. reflexivity.
        -- rewrite DictFacts.get_set_same.
           destruct (Dict.get (category_to_audits self) c) as [old0|];
             [discriminate H6|].
           destruct (filter (in_category c) l) as [|x xs];
             [reflexivity|discriminate H6].
      * rewrite DictFacts.get_set_other by congruence.
        assert (E : Dict.get
                      (if Dict.mem (category_to_audits mid) c
                       then category_to_audits mid
                       else Dict.set (category_to_audits mid) c [])
                      category
                    = Dict.get (category_to_audits mid) category).
        { destruct (Dict.mem (category_to_audits mid) c); [reflexivity|].
          apply DictFacts.get_set_other. congruence. }
        rewrite E, H6, !app_nil_r. reflexivity.
Qed.

(** The maps of a built extractor, read off its records. *)
Lemma built_maps (self : extractor) :
  built self ->
  let l := audits_data self in
  audit_categories self
  = set_of (map (fun a => Text.lower (audit_category a)) l)
  /\ (forall id,
         Dict.get (audit_id_to_name self) id
         = option_map audit_name (find_last (has_id id) l))
  /\ (forall name,
         Dict.get (audit_name_to_id self) name
         = option_map audit_id (find_last (has_name name) l))
  /\ (forall category,
         Dict.get (category_to_audits self) category
         = match filter (in_category category) l with
           | [] => None
           | found => Some found
           end).
Proof.
  intros [Hne [before [Hl Hself]]] l.
  unfold _build_lookup_maps in Hself. rewrite Hl in Hself. fold l in Hself.
  destruct l as [|a0 l0] eqn:El; [contradiction|]. rewrite <- El in *.
  match type of Hself with
  | self = fold_left add_audit l ?start =>
      destruct (fold_add_audit l start) as [_ [_ [H3 [H4 [H5 H6]]]]]
  end.
  rewrite <- Hself in H3, H4, H5, H6. simpl in H3, H4, H5, H6.
  split; [exact H3|]. split; [|split].
  - intros id. rewrite H4. destruct (find_last (has_id id) l); reflexivity.
  - intros name. rewrite H5.
    destruct (find_last (has_name name) l); reflexivity.
  - exact H6.
Qed.

Lemma find_last_some {A : Type} (f : A -> bool) (l : list A) (x : A) :
  find_last f l = Some x -> In x l /\ f x = true.
Proof.
  unfold find_last. intros H. apply find_some in H as [H1 H2].
  split; [now apply in_rev|exact H2].
Qed.

Lemma find_last_exists {A : Type} (f : A -> bool) (l : list A) (x : A) :
  In x l -> f x = true -> exists y, find_last f l = Some y.
Proof.
  unfold find_last. intros Hin Hf.
  destruct (find f (rev l)) as [y|] eqn:E; [now exists y|].
  apply in_rev in Hin. pose proof (find_none _ _ E x Hin). congruence.
Qed.

Lemma NoDup_map_injective {A B : Type} (key : A -> B) (l : list A)
      (x y : A) :
  NoDup (map key l) -> In x l -> In y l -> key x = key y -> x = y.
Proof.
  induction l as [|z l IH]; simpl; [intros _ []|].
  intros Hnd Hx Hy Hk. inversion Hnd as [|k ks Hnotin Hnd']; subst.
  destruct Hx as [->|Hx], Hy as [->|Hy].
  - reflexivity.
  - exfalso. apply Hnotin. rewrite Hk. now apply in_map.
  - exfalso. apply Hnotin. rewrite <- Hk. now apply in_map.
  - now apply IH.
Qed.

Lemma lookup_round_trip_core (self : extractor) :
  built self ->
  let l := audits_data self in
  (forall a, In a l ->
             Dict.mem (audit_id_to_name self) (audit_id a) = true
             /\ Dict.mem (audit_name_to_id self)
                         (Text.lower (audit_name a)) = true)
  /\ (forall id name,
         Dict.get (audit_id_to_name self) id = Some name ->
         exists a, In a l /\ audit_id a = id /\ audit_name a = name)
  /\ (forall name id,
         Dict.get (audit_name_to_id self) name = Some id ->
         exists a, In a l /\ Text.lower (audit_name a) = name
                   /\ audit_id a = id)
  /\ (NoDup (map audit_id l) ->
      forall a, In a l ->
                Dict.get (audit_id_to_name self) (audit_id a)
                = Some (audit_name a))
  /\ (NoDup (map (fun a => Text.lower (audit_name a)) l) ->
      forall a, In a l ->
                Dict.get (audit_name_to_id self)
                         (Text.lower (audit_name a))
                = Some (audit_id a)).
Proof.
  intros Hb l. destruct (built_maps self Hb) as [_ [Hid [Hname _]]].
  fold l in Hid, Hname.
  split; [|split; [|split; [|split]]].
  - intros a Hin. unfold Dict.mem. rewrite Hid, Hname. split.
    + destruct (find_last_exists (has_id (audit_id a)) l a Hin) as [y E];
        [apply String.eqb_refl|]. now rewrite E.
    + destruct (find_last_exists
                  (has_name (Text.lower (audit_name a))) l a Hin)
        as [y E]; [apply String.eqb_refl|]. now rewrite E.
  - intros id name H. rewrite Hid in H.
    destruct (find_last (has_id id) l) as [a|] eqn:E; [|discriminate H].
    apply find_last_some in E as [E1 E2]. apply String.eqb_eq in E2.
    exists a. inversion H. repeat split; assumption.
  - intros name id H. rewrite Hname in H.
    destruct (find_last (has_name name) l) as [a|] eqn:E;
      [|discriminate H].
    apply find_last_some in E as [E1 E2]. apply String.eqb_eq in E2.
    exists a. inversion H. repeat split; assumption.
  - intros Hnd a Hin. rewrite Hid.
    destruct (find_last_exists (has_id (audit_id a)) l a Hin) as [y E];
      [apply String.eqb_refl|]. rewrite E.
    apply find_last_some in E as [E1 E2]. apply String.eqb_eq in E2.
    rewrite (NoDup_map_injective audit_id l y a Hnd E1 Hin E2).
    reflexivity.
  - intros Hnd a Hin. rewrite Hname.
    destruct (find_last_exists
                (has_name (Text.lower (audit_name a))) l a Hin)
      as [y E]; [apply String.eqb_refl|]. rewrite E.
    apply find_last_some in E as [E1 E2]. apply String.eqb_eq in E2.
    rewrite (NoDup_map_injective (fun a => Text.lower (audit_name a))
                                 l y a Hnd E1 Hin E2).
    reflexivity.
Qed.

(** After [_build_lookup_maps] every audit of the catalog can be looked
    up by its id and by its lower-cased name; every entry of the two maps
    comes from an audit of the catalog; and when the ids (the lower-cased
    names) are pairwise distinct, looking up the id (the name) of an
    audit gives back its name (its id). *)
Theorem lookup_round_trip (self : extractor) :
  built self ->
  let l := audits_data self in
  (forall a, In a l ->
             Dict.mem (audit_id_to_name self) (audit_id a) = true
             /\ Dict.mem (audit_name_to_id self)
                         (Text.lower (audit_name a)) = true)
  /\ (forall id name,
         Dict.get (audit_id_to_name self) id = Some name ->
         exists a, In a l /\ audit_id a = id /\ audit_name a = name)
  /\ (forall name id,
         Dict.get (audit_name_to_id self) name = Some id ->
         exists a, In a l /\ Text.lower (audit_name a) = name
                   /\ audit_id a = id)
  /\ (NoDup (map audit_id l) ->
      forall a, In a l ->
                Dict.get (audit_id_to_name self) (audit_id a)
                = Some (audit_name a))
  /\ (NoDup (map (fun a => Text.lower (audit_name a)) l) ->
      forall a, In a l ->
                Dict.get (audit_name_to_id self)
                         (Text.lower (audit_name a))
                = Some (audit_id a)).
Proof. exact (lookup_round_trip_core self). Qed.

Lemma demo_extractor_built : built Catalog.demo_extractor.
Proof.
  split; [discriminate|].
  exists {| data := data Catalog.demo_extractor;
            audits_data := audits_data Catalog.demo_extractor;
            audit_categories := []; audit_name_to_id := [];
            audit_id_to_name := []; category_to_audits := [] |}.
  split; reflexivity.
Qed.

(** In the demo catalog "16" gives "Cisco Audit New" and back. *)
Lemma lookup_round_trip_witness :
  Dict.get (audit_id_to_name Catalog.demo_extractor) "16"
  = Some "Cisco Audit New"
  /\ Dict.get (audit_name_to_id Catalog.demo_extractor) "cisco audit new"
     = Some "16".
Proof.
  destruct (lookup_round_trip Catalog.demo_extractor demo_extractor_built)
    as [_ [_ [_ [H1 H2]]]].
  split.
  - apply (H1 ltac:(repeat constructor; simpl; intuition discriminate)
              (nth 1 (audits_data Catalog.demo_extractor)
                   (nth 0 (audits_data Catalog.demo_extractor)
                        {| audit_id := ""; audit_name := "";
                           audit_category := ""; audit_tags := "";
                           description := ""; device_categories := [] |}))).
    right. left. reflexivity.
  - apply (H2 ltac:(repeat constructor; simpl; intuition discriminate)
              (nth 1 (audits_data Catalog.demo_extractor)
                   (nth 0 (audits_data Catalog.demo_extractor)
                        {| audit_id := ""; audit_name := "";
                           audit_category := ""; audit_tags := "";
                           description := ""; device_categories := [] |}))).
    right. left. reflexivity.
Defined.

End BuildFacts.

(* ================================================================= *)
(** ** Categories of the catalog *)

Module CategoryFacts.
Import Database Extractor Lookup.

Local Open Scope string_scope.
Local Open Scope list_scope.

Lemma lower_char_idempotent (c : ascii) :
  Text.lower_char (Text.lower_char c) = Text.lower_char c.
Proof.
  destruct c as [[|] [|] [|] [|] [|] [|] [|] [|]]; reflexivity.
Qed.

Lemma lower_idempotent (s : string) :
  Text.lower (Text.lower s) = Text.lower s.
Proof.
  unfold Text.lower. induction s as [|c s IH]; simpl; [reflexivity|].
  now rewrite lower_char_idempotent, IH.
Qed.

Lemma existsb_eqb_in (x : string) (s : list string) :
  existsb (String.eqb x) s = true <-> In x s.
Proof.
  rewrite existsb_exists. split.
  - intros [y [Hin E]]. apply String.eqb_eq in E. now subst.
  - intros Hin. exists x. split; [exact Hin|apply String.eqb_refl].
Qed.

Lemma set_add_spec (x : string) (s : list string) :
  NoDup s ->
  NoDup (set_add x s) /\ forall y, In y (set_add x s) <-> y = x \/ In y s.
Proof.
  intros Hnd. unfold set_add.
  destruct (existsb (String.eqb x) s) eqn:E.
  - apply existsb_eqb_in in E. split; [exact Hnd|].
    intros y. split; [now right|]. intros [->|H]; assumption.
  - assert (Hnot : ~ In x s).
    { intros H. apply existsb_eqb_in in H. congruence. }
    split.
    + apply NoDup_app; [exact Hnd|repeat constructor; intros []|].
      intros y Hy [->|[]]. contradiction.
    + intros y. rewrite in_app_iff. simpl. intuition.
Qed.

Lemma fold_set_add_spec (l : list string) :
  forall s,
    NoDup s ->
    NoDup (fold_left (fun s x => set_add x s) l s)
    /\ forall y, In y (fold_left (fun s x => set_add x s) l s)
                 <-> In y l \/ In y s.
Proof.
  induction l as [|x l IH]; intros s Hnd; simpl.
  - split; [exact Hnd|]. intros y. intuition.
  - destruct (set_add_spec x s Hnd) as [H1 H2].
    destruct (IH (set_add x s) H1) as [H3 H4].
    split; [exact H3|]. intros y. rewrite H4, H2. intuition.
Qed.

Lemma category_index_core (self : extractor) :
  built self ->
  let l := audits_data self in
  NoDup (audit_categories self)
  /\ (forall c, In c (audit_categories self)
                <-> exists a, In a l /\ Text.lower (audit_category a) = c)
  /\ (forall category,
         get_audits_by_category self category
         = filter (in_category (Text.lower category)) l)
  /\ (forall c, In c (audit_categories self) ->
                get_audits_by_category self c <> []).
Proof.
  intros Hb l. destruct (BuildFacts.built_maps self Hb) as [Hc [_ [_ Hg]]].
  fold l in Hc, Hg.
  destruct (fold_set_add_spec
              (map (fun a => Text.lower (audit_category a)) l) [])
    as [Hnd Hin]; [constructor|].
  fold (set_of (map (fun a => Text.lower (audit_category a)) l)) in Hnd, Hin.
  rewrite <- Hc in Hnd, Hin.
  assert (Hmem : forall c, In c (audit_categories self)
                           <-> exists a, In a l
                                         /\ Text.lower (audit_category a) = c).
  { intros c. rewrite Hin, in_map_iff. split.
    - intros [[a [E Ha]]|[]]. now exists a.
    - intros [a [Ha E]]. left. now exists a. }
  assert (Hget : forall category,
             get_audits_by_category self category
             = filter (in_category (Text.lower category)) l).
  { intros category. unfold get_audits_by_category. rewrite Hg.
    destruct (filter (in_category (Text.lower category)) l); reflexivity. }
  split; [exact Hnd|]. split; [exact Hmem|]. split; [exact Hget|].
  intros c Hc'. apply Hmem in Hc' as [a [Ha E]]. rewrite Hget.
  assert (Hf : In a (filter (in_category (Text.lower c)) l)).
  { apply filter_In. split; [exact Ha|]. unfold in_category.
    rewrite <- E, lower_idempotent. apply String.eqb_refl. }
  intros Hnil. rewrite Hnil in Hf. destruct Hf.
Qed.

(** The category index of a built extractor: the categories form a set
    without repetition, made of the lower-cased categories of the
    catalog; [get_audits_by_category] returns, for any spelling of a
    category, the audits of that category in catalog order, and at least
    one audit for every category of the set. *)
Theorem category_index (self : extractor) :
  built self ->
  let l := audits_data self in
  NoDup (audit_categories self)
  /\ (forall c, In c (audit_categories self)
                <-> exists a, In a l /\ Text.lower (audit_category a) = c)
  /\ (forall category,
         get_audits_by_category self category
         = filter (in_category (Text.lower category)) l)
  /\ (forall c, In c (audit_categories self) ->
                get_audits_by_category self c <> []).
Proof. exact (category_index_core self). Qed.

(** "NETWORK", however spelt, gives the one network audit of the demo
    catalog. *)
Lemma category_index_witness :
  map audit_id (get_audits_by_category Catalog.demo_extractor "NETWORK")
  = ["16"].
Proof.
  destruct (category_index Catalog.demo_extractor
                           BuildFacts.demo_extractor_built)
    as [_ [_ [H _]]].
  rewrite H. reflexivity.
Defined.

End CategoryFacts.

(* ================================================================= *)
(** ** What every answer of the resolver looks like *)

Module AnswerFacts.
Import Database Extractor Catalog Cascade Lookup Answers.

Local Open Scope string_scope.
Local Open Scope list_scope.

Lemma exact_name_shape (items : list (string * string))
      (text_clean : string) (r : result) :
  exact_name items text_clean = Return r ->
  exists name id,
    In (name, id) items /\ Text.contains name text_clean = true
    /\ r = specific_audit ("audit_name", name) ("audit_id", id) 1.0%Q.
Proof.
  induction items as [|[name id] items IH]; simpl; [discriminate|].
  destruct (Text.contains name text_clean) eqn:E.
  - intros H. inversion H. exists name, id.
    split; [now left|]. split; [exact E|reflexivity].
  - intros H. destruct (IH H) as [n [i [H1 [H2 H3]]]].
    exists n, i. split; [now right|]. split; assumption.
Qed.

Lemma exact_category_shape (self : extractor) (categories : list string)
      (text_clean : string) (r : result) :
  exact_category self categories text_clean = Return r ->
  exists c, In c categories /\ Text.contains c text_clean = true
            /\ r = category_answer self c 1.0%Q.
Proof.
  induction categories as [|c categories IH]; simpl; [discriminate|].
  destruct (Text.contains c text_clean) eqn:E.
  - intros H. inversion H. exists c.
    split; [now left|]. split; [exact E|reflexivity].
  - intros H. destruct (IH H) as [c' [H1 [H2 H3]]].
    exists c'. split; [now right|]. split; assumption.
Qed.

Lemma fuzzy_category_shape (self : extractor) (categories : list string)
      (text_clean : string) (r : result) :
  fuzzy_category self categories text_clean = Return r ->
  exists c, In c categories /\ r = category_answer self c 0.85%Q.
Proof.
  induction categories as [|c categories IH]; simpl; [discriminate|].
  destruct (category_hit c (Text.split text_clean)).
  - intros H. inversion H. exists c. split; [now left|reflexivity].
  - intros H. destruct (IH H) as [c' [H1 H2]].
    exists c'. split; [now right|assumption].
Qed.

Lemma exact_id_shape (self : extractor) (patterns : list Regex.regex)
      (text_clean : string) (r : result) :
  exact_id self patterns text_clean = Return r ->
  exists m name,
    Dict.get (audit_id_to_name self) m = Some name
    /\ r = specific_audit ("audit_id", m) ("audit_name", name) 1.0%Q.
Proof.
  induction patterns as [|pattern patterns IH]; simpl; [discriminate|].
  rewrite ResolverFacts.id_matches_find.
  destruct (find _ (Regex.findall pattern text_clean)) as [m|] eqn:E.
  - apply find_some in E as [_ E].
    apply ResolverFacts.mem_get in E as [name E]. rewrite E. simpl.
    intros H. inversion H. now exists m, name.
  - simpl. exact IH.
Qed.

Lemma first_answer_in (l : list step) (r : result) :
  first_answer l = Return r -> In (Return r) l.
Proof.
  induction l as [|s l IH]; simpl; [discriminate|].
  destruct s; intros H.
  - right. now apply IH.
  - left. exact H.
  - discriminate H.
Qed.

Lemma answer_forms (set_iteration : list string -> list string)
      (self : extractor) (text : string) :
  exists r, extract_from set_iteration self text = inr r
            /\ answer_form set_iteration self r.
Proof.
  unfold extract_from.
  destruct (audits_data self) as [|a l] eqn:El.
  - exists no_data. split; [reflexivity|]. now apply form_no_data.
  - pose proof (CascadeFacts.cascade_quiet
                  set_iteration self (Text.preprocess_text text)) as Hq.
    pose proof (CascadeFacts.cascade_first_answer
                  set_iteration self (Text.preprocess_text text)) as Hf.
    destruct (cascade set_iteration self (Text.preprocess_text text))
      as [|r|e]; [|
      |destruct Hq].
    + exists no_match. split; [reflexivity|]. now apply form_no_match.
    + exists r. split; [reflexivity|].
      symmetry in Hf. apply first_answer_in in Hf.
      unfold stages in Hf.
      destruct Hf as [H|[H|[H|[H|[H|[]]]]]].
      * apply exact_id_shape in H as [m [name [H1 H2]]].
        now apply (form_id _ _ _ m name).
      * apply exact_name_shape in H as [name [id [H1 [_ H2]]]].
        apply (form_name _ _ _ name id 1.0%Q); [now right|exact H2].
      * apply exact_category_shape in H as [c [H1 [_ H2]]].
        now apply (form_category _ _ _ c 1.0%Q).
      * destruct (ResolverFacts.fuzzy_name_cases
                    self (Text.preprocess_text text))
          as [[H' _]|[l1 [name [l2 [id [_ [Hid [_ [_ [_ H']]]]]]]]]];
          rewrite H' in H; [discriminate H|].
        inversion H.
        apply (form_name _ _ _ name id
                         (0.85 * percentage name
                                            (Text.preprocess_text text))%Q);
          [now left|reflexivity].
      * apply fuzzy_category_shape in H as [c [H1 H2]].
        now apply (form_category _ _ _ c 0.85%Q).
Qed.

(** Every answer of [extract_audit_entities] has what its caller reads:
    a "specific_audit" carries both the [audit_id] and the [audit_name]
    entity, a "category_clarification" carries the [audit_category]
    entity and the list [category_audits]; both come with success, and an
    answer without success is "no_data" or "no_match" with no entity. *)
Theorem answer_well_formed (set_iteration : list string -> list string)
        (self : extractor) (text : string) :
  exists r,
    extract_from set_iteration self text = inr r
    /\ (type r = "specific_audit" ->
        success r = true /\ category_audits r = None
        /\ exists id name, entity_value r "audit_id" = Some id
                           /\ entity_value r "audit_name" = Some name)
    /\ (type r = "category_clarification" ->
        success r = true
        /\ exists c, entity_value r "audit_category" = Some c
                     /\ category_audits r
                        = Some (get_audits_by_category self c))
    /\ (success r = false ->
        entities r = [] /\ (type r = "no_data" \/ type r = "no_match"))
    /\ (success r = true ->
        type r = "specific_audit" \/ type r = "category_clarification").
Proof.
  destruct (answer_forms set_iteration self text) as [r [Hr Hform]].
  exists r. split; [exact Hr|].
  destruct Hform as [_ ->| ->|m name _ ->|name id score _ ->|c score _ ->];
    (split; [|split; [|split]]); intros H; try discriminate H;
    unfold entity_value; simpl; eauto 10.
Qed.

(** Every entry of [audit_name_to_id] holds the id of an audit of the
    catalog. *)
Lemma built_name_entries (self : extractor) :
  built self ->
  forall n i, In (n, i) (audit_name_to_id self) ->
              exists a, In a (audits_data self) /\ audit_id a = i.
Proof.
  intros [Hne [before [Hl Hself]]].
  unfold _build_lookup_maps in Hself. rewrite Hl in Hself.
  remember (audits_data self) as L eqn:EL.
  destruct L as [|a0 l0]; [contradiction|].
  assert (Hgen :
            forall l' start',
              (forall n i, In (n, i) (audit_name_to_id start') ->
                           exists a, In a (a0 :: l0) /\ audit_id a = i) ->
              (forall a, In a l' -> In a (a0 :: l0)) ->
              forall n i,
                In (n, i) (audit_name_to_id
                             (fold_left add_audit l' start')) ->
                exists a, In a (a0 :: l0) /\ audit_id a = i).
  { induction l' as [|a l' IH]; intros start' Hs Hsub n i Hin.
    - now apply (Hs n i).
    - simpl in Hin. apply (IH (add_audit start' a)) in Hin;
        [exact Hin| |intros y Hy; apply Hsub; now right].
      intros n' i' Hin'. simpl in Hin'.
      apply DictFacts.in_set in Hin' as [E|Hin'].
      + inversion E; subst. exists a. split; [|reflexivity].
        apply Hsub. now left.
      + now apply (Hs n' i'). }
  intros n i Hin. rewrite Hself in Hin.
  eapply Hgen; [| |exact Hin].
  - intros n' i' [].
  - intros a Ha. exact Ha.
Qed.

Lemma answer_from_catalog_core (set_iteration : list string -> list string)
        (self : extractor) (text : string) (r : result) :
  built self ->
  extract_from set_iteration self text = inr r ->
  (forall id, entity_value r "audit_id" = Some id ->
              exists a, In a (audits_data self) /\ audit_id a = id)
  /\ (forall name, entity_value r "audit_name" = Some name ->
                   exists a, In a (audits_data self)
                             /\ (audit_name a = name
                                 \/ Text.lower (audit_name a) = name)).
Proof.
  intros Hb Hr.
  destruct (BuildFacts.lookup_round_trip_core self Hb) as [_ [Hid [Hname _]]].
  destruct (answer_forms set_iteration self text) as [r' [Hr' Hform]].
  rewrite Hr in Hr'. inversion Hr'; subst r'. clear Hr'.
  destruct Hform as [_ ->| ->|m name Hm ->|name id score Hn ->|c score _ ->];
    unfold entity_value; simpl; (split; intros x Hx); try discriminate Hx;
    inversion Hx; subst x.
  - destruct (Hid m name Hm) as [a [H1 [H2 H3]]]. now exists a.
  - destruct (Hid m name Hm) as [a [H1 [H2 H3]]]. exists a. tauto.
  - destruct Hn as [Hn|Hn].
    + destruct (Hname name id Hn) as [a [H1 [H2 H3]]]. now exists a.
    + apply (built_name_entries self Hb name id Hn).
  - destruct Hn as [Hn|Hn].
    + destruct (Hname name id Hn) as [a [H1 [H2 H3]]]. exists a. tauto.
    + destruct (ResolverFacts.get_of_key (audit_name_to_id self) name)
        as [id' E].
      { unfold Dict.keys. change name with (fst (name, id)).
        now apply in_map. }
      destruct (Hname name id' E) as [a [H1 [H2 H3]]]. exists a. tauto.
Qed.

(** On a built extractor every audit id the resolver answers with is the
    id of an audit of the catalog, and the name that comes with it is the
    name of such an audit, as stored or lower-cased. *)
Theorem answer_from_catalog (set_iteration : list string -> list string)
        (self : extractor) (text : string) (r : result) :
  built self ->
  extract_from set_iteration self text = inr r ->
  (forall id, entity_value r "audit_id" = Some id ->
              exists a, In a (audits_data self) /\ audit_id a = id)
  /\ (forall name, entity_value r "audit_name" = Some name ->
                   exists a, In a (audits_data self)
                             /\ (audit_name a = name
                                 \/ Text.lower (audit_name a) = name)).
Proof. exact (answer_from_catalog_core set_iteration self text r). Qed.

(** "run audit 16" on the demo catalog: the id of the answer is the id
    of one of its two audits. *)
Lemma answer_from_catalog_witness :
  exists a, In a (audits_data demo_extractor) /\ audit_id a = "16".
Proof.
  destruct (answer_from_catalog
              in_order demo_extractor "run audit 16"
              (specific_audit ("audit_id", "16")
                              ("audit_name", "Cisco Audit New") 1.0%Q)
              BuildFacts.demo_extractor_built) as [H _].
  - vm_compute. reflexivity.
  - apply H. reflexivity.
Defined.

(** On a built extractor a "category_clarification" always names a
    category of the catalog and lists exactly the audits of that
    category, in catalog order; the list is never empty.  (The walk over
    the set of categories may follow any order, as long as it yields
    elements of the set.) *)
Theorem category_answer_content
        (set_iteration : list string -> list string)
        (self : extractor) (text : string) (r : result) :
  built self ->
  (forall l x, In x (set_iteration l) -> In x l) ->
  extract_from set_iteration self text = inr r ->
  type r = "category_clarification" ->
  exists c,
    entity_value r "audit_category" = Some c
    /\ In c (audit_categories self)
    /\ category_audits r
       = Some (filter (in_category c) (audits_data self))
    /\ filter (in_category c) (audits_data self) <> [].
Proof.
  intros Hb Hsub Hr Htype.
  destruct (CategoryFacts.category_index_core self Hb) as [_ [Hmem [Hget Hne]]].
  destruct (answer_forms set_iteration self text) as [r' [Hr' Hform]].
  rewrite Hr in Hr'. inversion Hr'; subst r'. clear Hr'.
  destruct Hform as [_ ->| ->|m name _ ->|name id score _ ->|c score Hc ->];
    try discriminate Htype.
  apply Hsub in Hc. exists c.
  assert (Hlow : Text.lower c = c).
  { apply Hmem in Hc as [a [_ <-]]. apply CategoryFacts.lower_idempotent. }
  split; [reflexivity|]. split; [exact Hc|].
  pose proof (Hget c) as Hg. rewrite Hlow in Hg.
  split.
  - simpl. now rewrite Hg.
  - rewrite <- Hg. now apply Hne.
Qed.

(** "show network audits" on the demo catalog lists audit 16. *)
Lemma category_answer_witness :
  exists c,
    c = "network"
    /\ map audit_id (filter (in_category c) (audits_data demo_extractor))
       = ["16"].
Proof.
  destruct (category_answer_content
              in_order demo_extractor "show network audits"
              (category_answer demo_extractor "network" 1.0%Q)
              BuildFacts.demo_extractor_built)
    as [c [Hc _]].
  - intros l x H. exact H.
  - vm_compute. reflexivity.
  - reflexivity.
  - exists c. inversion Hc. split; reflexivity.
Defined.

End AnswerFacts.

(* ================================================================= *)
(** ** Cleaned text *)

Module TextFacts.
Import Text CleanText.

Local Open Scope string_scope.

Lemma append_nil_r (s : string) : s ++ "" = s.
Proof. induction s as [|c s IH]; simpl; [reflexivity|now rewrite IH]. Qed.

Lemma append_assoc (a b c : string) : (a ++ b) ++ c = a ++ (b ++ c).
Proof. induction a as [|x a IH]; simpl; [reflexivity|now rewrite IH]. Qed.

Lemma all_chars_app (p : ascii -> bool) (a b : string) :
  all_chars p (a ++ b) = all_chars p a && all_chars p b.
Proof.
  induction a as [|x a IH]; simpl; [reflexivity|].
  now rewrite IH, andb_assoc.
Qed.

Lemma all_chars_impl (p q : ascii -> bool) (s : string) :
  (forall c, p c = true -> q c = true) ->
  all_chars p s = true -> all_chars q s = true.
Proof.
  intros H. induction s as [|c s IH]; simpl; [reflexivity|].
  intros E. apply andb_prop in E as [E1 E2].
  now rewrite (H c E1), (IH E2).
Qed.

Lemma all_chars_join (p : ascii -> bool) (words : list string) :
  p " "%char = true ->
  forallb (all_chars p) words = true ->
  all_chars p (join " " words) = true.
Proof.
  intros Hsp. unfold join.
  induction words as [|w words IH]; simpl; [reflexivity|].
  intros E. apply andb_prop in E as [E1 E2].
  destruct words as [|w' words]; [exact E1|].
  rewrite all_chars_app, E1. simpl. rewrite Hsp. simpl.
  now apply IH.
Qed.

Lemma map_string_fixed (f : ascii -> ascii) (s : string) :
  all_chars (fun c => Ascii.eqb (f c) c) s = true -> map_string f s = s.
Proof.
  induction s as [|c s IH]; simpl; [reflexivity|].
  intros E. apply andb_prop in E as [E1 E2].
  apply Ascii.eqb_eq in E1. now rewrite E1, (IH E2).
Qed.

Lemma map_string_app (f : ascii -> ascii) (a b : string) :
  map_string f (a ++ b) = map_string f a ++ map_string f b.
Proof. induction a as [|x a IH]; simpl; [reflexivity|now rewrite IH]. Qed.

(** *** [split] *)

(** A run of characters that are no blanks goes to the word being
    read. *)
Lemma split_from_word (w : string) :
  forall cur rest,
    all_chars (fun c => negb (isspace c)) w = true ->
    split_from cur (w ++ rest) = split_from (cur ++ w) rest.
Proof.
  induction w as [|c w IH]; intros cur rest H; simpl.
  - now rewrite append_nil_r.
  - simpl in H. apply andb_prop in H as [H1 H2].
    apply negb_true_iff in H1. rewrite H1.
    rewrite (IH _ _ H2), append_assoc. reflexivity.
Qed.

Lemma clean_word_parts (w : string) :
  clean_word w = true ->
  String.eqb w "" = false
  /\ all_chars (fun c => negb (isspace c)) w = true
  /\ all_chars clean_char w = true.
Proof.
  unfold clean_word. intros H. apply andb_prop in H as [H1 H2].
  apply negb_true_iff in H1. split; [exact H1|]. split; [|exact H2].
  apply (all_chars_impl clean_char); [|exact H2].
  intros c Hc. unfold clean_char in Hc.
  apply andb_prop in Hc as [Hc _]. now apply andb_prop in Hc as [_ Hc].
Qed.

(** Splitting what [join] made of clean words gives the words back. *)
Lemma split_join (words : list string) :
  forallb clean_word words = true -> split (join " " words) = words.
Proof.
  unfold split, join.
  induction words as [|w words IH]; simpl; [reflexivity|].
  intros E. apply andb_prop in E as [E1 E2].
  destruct (clean_word_parts w E1) as [Hne [Hns _]].
  destruct words as [|w' words].
  - rewrite <- (append_nil_r w) at 1.
    rewrite (split_from_word w "" "" Hns). simpl. now rewrite Hne.
  - rewrite (split_from_word w "" _ Hns). simpl. rewrite Hne.
    f_equal. now apply IH.
Qed.

(** The words [split] finds: none is empty, none holds a blank, and
    their characters come from the text. *)
Lemma split_from_words (p : ascii -> bool) (s : string) :
  forall cur,
    all_chars p cur = true ->
    all_chars (fun c => isspace c || p c) s = true ->
    forallb (fun w => negb (String.eqb w "") && all_chars p w)
            (split_from cur s) = true.
Proof.
  induction s as [|c s IH]; intros cur Hcur Hs; simpl.
  - destruct (String.eqb cur "") eqn:E; simpl; [reflexivity|].
    now rewrite E, Hcur.
  - simpl in Hs. apply andb_prop in Hs as [Hc Hs].
    destruct (isspace c) eqn:Esp.
    + destruct (String.eqb cur "") eqn:E; simpl.
      * now apply IH.
      * rewrite E, Hcur. simpl. now apply IH.
    + simpl in Hc. apply IH; [|exact Hs].
      rewrite all_chars_app, Hcur. simpl. now rewrite Hc.
Qed.

Lemma lower_char_cleans (c : ascii) :
  isword c && negb (isspace c) = true -> clean_char (lower_char c) = true.
Proof.
  destruct c as [[|] [|] [|] [|] [|] [|] [|] [|]]; vm_compute;
    intros H; (reflexivity || discriminate H).
Qed.

Lemma blank_or_word (c : ascii) :
  let c' := if isword c || isspace c then c else " "%char in
  isspace c' || (isword c' && negb (isspace c')) = true.
Proof.
  destruct c as [[|] [|] [|] [|] [|] [|] [|] [|]]; reflexivity.
Qed.

Lemma lower_join (words : list string) :
  lower (join " " words) = join " " (map lower words).
Proof.
  unfold lower, join.
  induction words as [|w words IH]; simpl; [reflexivity|].
  destruct words as [|w' words]; [reflexivity|].
  rewrite map_string_app. simpl in *. now rewrite IH.
Qed.

Lemma lower_cleans_word (w : string) :
  negb (String.eqb w "")
  && all_chars (fun c => isword c && negb (isspace c)) w = true ->
  clean_word (lower w) = true.
Proof.
  unfold clean_word. intros H. apply andb_prop in H as [H1 H2].
  apply andb_true_intro. split.
  - destruct w; [discriminate H1|reflexivity].
  - unfold lower. clear H1. induction w as [|c w IH]; [reflexivity|].
    cbn [map_string all_chars] in *. apply andb_prop in H2 as [Hc Hw].
    rewrite (lower_char_cleans c Hc), (IH Hw). reflexivity.
Qed.

Lemma preprocess_text_normal_core (text : string) :
  normal (preprocess_text text).
Proof.
  unfold preprocess_text, normal.
  exists (map lower (split (blank_punctuation text))).
  split; [|apply lower_join].
  assert (H : forallb
                (fun w => negb (String.eqb w "")
                          && all_chars
                               (fun c => isword c && negb (isspace c)) w)
                (split (blank_punctuation text)) = true).
  { apply split_from_words; [reflexivity|].
    unfold blank_punctuation. induction text as [|c text IH];
      [reflexivity|].
    cbn [map_string all_chars]. rewrite IH, andb_true_r.
    apply blank_or_word. }
  revert H. generalize (split (blank_punctuation text)). intros words.
  induction words as [|w words IH]; simpl; [reflexivity|].
  intros H. apply andb_prop in H as [H1 H2].
  now rewrite (lower_cleans_word w H1), (IH H2).
Qed.

(** The text [preprocess_text] returns is in normal form: words made of
    word characters none of which is an upper-case letter, separated by
    single spaces, with no blank at either end and no punctuation.  (For
    strings of code points 0 to 255.) *)
Theorem preprocess_text_normal (text : string) :
  normal (preprocess_text text).
Proof. exact (preprocess_text_normal_core text). Qed.

(** A text in normal form is left as it is. *)
Lemma preprocess_text_fixes_normal (s : string) :
  normal s -> preprocess_text s = s.
Proof.
  intros [words [Hw ->]]. unfold preprocess_text.
  assert (Hall : forall (p : ascii -> bool),
             (forall c, clean_char c = true -> p c = true) ->
             forallb (all_chars p) words = true).
  { intros p Hp. revert Hw.
    induction words as [|w words IH]; intros Hw; [reflexivity|].
    cbn [forallb] in *. apply andb_prop in Hw as [H1 H2].
    destruct (clean_word_parts w H1) as [_ [_ H3]].
    rewrite (all_chars_impl clean_char p w Hp H3). now apply IH. }
  assert (H1 : blank_punctuation (join " " words) = join " " words).
  { unfold blank_punctuation. apply map_string_fixed.
    apply all_chars_join; [reflexivity|]. apply Hall.
    intros c Hc. unfold clean_char in Hc.
    apply andb_prop in Hc as [Hc _]. apply andb_prop in Hc as [Hc _].
    rewrite Hc. simpl. apply Ascii.eqb_refl. }
  rewrite H1, (split_join words Hw).
  unfold lower. apply map_string_fixed.
  apply all_chars_join; [reflexivity|]. apply Hall.
  intros c Hc. unfold clean_char in Hc. now apply andb_prop in Hc as [_ Hc].
Qed.

(** [preprocess_text] is idempotent: cleaning a cleaned text changes
    nothing.  (For strings of code points 0 to 255.) *)
Theorem preprocess_text_idempotent (text : string) :
  preprocess_text (preprocess_text text) = preprocess_text text.
Proof.
  apply preprocess_text_fixes_normal, preprocess_text_normal_core.
Qed.

(** The words the fuzzy stages read off a cleaned text are the words of
    its normal form: joined by single spaces they give the text back. *)
Theorem split_of_clean_text (text : string) :
  join " " (split (preprocess_text text)) = preprocess_text text
  /\ forallb clean_word (split (preprocess_text text)) = true.
Proof.
  destruct (preprocess_text_normal_core text) as [words [Hw E]].
  rewrite E, (split_join words Hw). split; [reflexivity|exact Hw].
Qed.

End TextFacts.

(* ================================================================= *)
(** ** The loaders and the lookups in the cache *)

Module CacheFacts.
Import Database CacheLookups.

Local Open Scope string_scope.

Lemma split_on_not_nil (sep : ascii) (s : string) :
  forall cur, split_on sep cur s <> [].
Proof.
  induction s as [|c s IH]; intros cur; simpl; [discriminate|].
  destruct (Ascii.eqb c sep); [discriminate|apply IH].
Qed.

Lemma concat_split_on (sep : ascii) (s : string) :
  forall cur,
    String.concat (String sep "") (split_on sep cur s) = cur ++ s.
Proof.
  induction s as [|c s IH]; intros cur; simpl.
  - now rewrite TextFacts.append_nil_r.
  - destruct (Ascii.eqb_spec c sep) as [->|Hne].
    + specialize (IH ""). simpl in IH.
      destruct (split_on sep "" s) as [|x xs] eqn:E.
      * exfalso. apply (split_on_not_nil sep s "" E).
      * change (String.concat (String sep "") (cur :: x :: xs))
          with (cur ++ String sep "" ++ String.concat (String sep "")
                                                       (x :: xs)).
        now rewrite IH.
    + rewrite IH, TextFacts.append_assoc. reflexivity.
Qed.

Lemma split_on_pieces (sep : ascii) (s : string) :
  forall cur,
    CleanText.all_chars (fun c => negb (Ascii.eqb c sep)) cur = true ->
    forallb (CleanText.all_chars (fun c => negb (Ascii.eqb c sep)))
            (split_on sep cur s) = true.
Proof.
  induction s as [|c s IH]; intros cur Hcur; simpl.
  - now rewrite Hcur.
  - destruct (Ascii.eqb c sep) eqn:E; simpl.
    + rewrite Hcur. now apply IH.
    + apply IH. rewrite TextFacts.all_chars_app, Hcur. simpl.
      now rewrite E.
Qed.

(** The loader keeps one audit per row, in the order of the rows, and
    the list [device_categories] it makes of the stored comma-separated
    text can be joined back to that text: no category is lost, none
    holds a comma, and a NULL or empty column gives the empty list. *)
Theorem loaded_categories_round_trip (db : store) (rows : list audit_row) :
  audits_table db = Some rows ->
  let loaded := load_audits_data_from_db db in
  map audit_id loaded = map (fun row => str_of_int (row_audit_id row)) rows
  /\ map (fun a => String.concat "," (device_categories a)) loaded
     = map stored_categories rows
  /\ (forall a, In a loaded ->
                forallb (CleanText.all_chars
                           (fun c => negb (Ascii.eqb c ","%char)))
                        (device_categories a) = true)
  /\ (forall row, In row rows -> stored_categories row = "" ->
                  exists a, In a loaded
                            /\ audit_name a = row_audit_name row
                            /\ device_categories a = []).
Proof.
  intros H loaded. subst loaded. unfold load_audits_data_from_db.
  rewrite H. rewrite !map_map. simpl.
  split; [reflexivity|]. split; [|split].
  - apply map_ext. intros row. unfold stored_categories.
    destruct (row_device_categories row) as [s|]; [|reflexivity].
    destruct (String.eqb_spec s "") as [->|_]; [reflexivity|].
    apply (concat_split_on ","%char s "").
  - intros a Hin. apply in_map_iff in Hin as [row [<- _]]. simpl.
    destruct (row_device_categories row) as [s|]; [|reflexivity].
    destruct (String.eqb s ""); [reflexivity|].
    now apply split_on_pieces.
  - intros row Hin Hs. eexists. split; [apply in_map_iff; eauto|].
    simpl. split; [reflexivity|]. unfold stored_categories in Hs.
    destruct (row_device_categories row) as [s|]; [|reflexivity].
    now rewrite Hs.
Qed.

(** The two rows of the demo store. *)
Lemma loaded_categories_witness :
  map device_categories (load_audits_data_from_db Catalog.demo_store)
  = [[]; ["Router"; "Switch"]]
  /\ map (fun a => String.concat "," (device_categories a))
         (load_audits_data_from_db Catalog.demo_store)
     = [""; "Router,Switch"].
Proof.
  destruct (loaded_categories_round_trip
              Catalog.demo_store Catalog.demo_rows eq_refl)
    as [_ [H _]].
  split; [reflexivity|exact H].
Defined.

Lemma compatibility_get (l : list audit) (name : string) :
  forall start,
    Dict.get (fold_left (fun compatibility a =>
                           Dict.set compatibility (audit_name a)
                                    (device_categories a)) l start) name
    = match Lookup.find_last (fun a => String.eqb (audit_name a) name) l with
      | Some a => Some (device_categories a)
      | None => Dict.get start name
      end.
Proof.
  induction l as [|a l IH] using rev_ind; intros start; [reflexivity|].
  rewrite fold_left_app, BuildFacts.find_last_snoc. simpl.
  destruct (String.eqb_spec (audit_name a) name) as [<-|Hne].
  - apply DictFacts.get_set_same.
  - rewrite DictFacts.get_set_other by congruence. apply IH.
Qed.

(** After [refresh_all_data]: [get_audit_by_name] finds an audit exactly
    when its name is in the cache; with pairwise distinct names the
    compatibility table lists for the audit the categories the audit
    itself carries, and [get_compatible_devices_for_audit] returns the
    cached devices of those categories, in the order of the cache; an
    unknown name gives no audit, no table entry and no device. *)
Theorem compatible_devices_after_refresh
        (set_iteration : list string -> list string)
        (db : store) (now : nat) (p : process) (name : string) :
  let d := fst (refresh_all_data set_iteration db now p) in
  let p' := snd (refresh_all_data set_iteration db now p) in
  (In name (audit_names d) <->
   exists a, get_audit_by_name p' name = Some a)
  /\ (~ In name (audit_names d) ->
      Dict.get (audit_device_compatibility d) name = None
      /\ get_compatible_devices_for_audit p' name = [])
  /\ (NoDup (audit_names d) ->
      forall a,
        get_audit_by_name p' name = Some a ->
        In a (audits d) /\ audit_name a = name
        /\ Dict.get (audit_device_compatibility d) name
           = Some (device_categories a)
        /\ get_compatible_devices_for_audit p' name
           = filter (fun x =>
                       existsb (String.eqb (device_category x))
                               (device_categories a))
                    (devices d)).
Proof.
  intros d p'. subst d p'. simpl.
  set (l := load_audits_data_from_db db).
  unfold get_audit_by_name, get_compatible_devices_for_audit,
    get_audit_by_name, generate_audit_device_compatibility. simpl.
  fold l.
  assert (Hfind : In name (map audit_name l)
                  <-> exists a,
                      find (fun a => String.eqb (audit_name a) name) l
                      = Some a).
  { split.
    - intros Hin. apply in_map_iff in Hin as [a [E Ha]].
      destruct (find (fun a => String.eqb (audit_name a) name) l)
        as [a'|] eqn:Ef; [now exists a'|].
      pose proof (find_none _ _ Ef a Ha) as Hn. simpl in Hn.
      rewrite E, String.eqb_refl in Hn. discriminate Hn.
    - intros [a Ef]. apply find_some in Ef as [Ha E].
      apply String.eqb_eq in E. apply in_map_iff. now exists a. }
  split; [exact Hfind|]. split.
  - intros Hnot. rewrite compatibility_get.
    destruct (Lookup.find_last _ l) as [a|] eqn:E.
    + exfalso. apply BuildFacts.find_last_some in E as [Ha E].
      apply String.eqb_eq in E. apply Hnot, in_map_iff. now exists a.
    + split; [reflexivity|].
      destruct (find _ l) as [a|] eqn:Ef; [|reflexivity].
      exfalso. apply Hnot, Hfind. now exists a.
  - intros Hnd a Ef. rewrite Ef.
    pose proof (find_some _ _ Ef) as [Ha E]. apply String.eqb_eq in E.
    split; [exact Ha|]. split; [exact E|]. split; [|reflexivity].
    rewrite compatibility_get.
    destruct (BuildFacts.find_last_exists
                (fun a => String.eqb (audit_name a) name) l a Ha)
      as [a' El]; [rewrite E; apply String.eqb_refl|].
    rewrite El. apply BuildFacts.find_last_some in El as [Ha' E'].
    apply String.eqb_eq in E'.
    rewrite (BuildFacts.NoDup_map_injective audit_name l a' a Hnd Ha' Ha)
      by congruence.
    reflexivity.
Qed.

End CacheFacts.

(* ================================================================= *)
(** ** The index built by [__chain_b] *)

Module ChainFacts.
Import Difflib Chain.

Lemma lookup_setdefault_append (elt : ascii) (i : nat)
      (d : list (ascii * list nat)) (c : ascii) :
  lookup (setdefault_append elt i d) c
  = if Ascii.eqb elt c then lookup d c ++ [i] else lookup d c.
Proof.
  unfold lookup. induction d as [|[e idxs] d IH]; simpl.
  - destruct (Ascii.eqb elt c); reflexivity.
  - destruct (Ascii.eqb_spec e elt) as [->|Hne]; simpl.
    + destruct (Ascii.eqb elt c); reflexivity.
    + destruct (Ascii.eqb_spec e c) as [->|Hc].
      * destruct (Ascii.eqb_spec elt c) as [->|_]; [contradiction|].
        reflexivity.
      * exact IH.
Qed.

Lemma lookup_chain_b_loop (bs : list ascii) (c : ascii) :
  forall i d,
    lookup (chain_b_loop i bs d) c = lookup d c ++ positions c bs i.
Proof.
  induction bs as [|x bs IH]; intros i d; simpl.
  - now rewrite app_nil_r.
  - rewrite IH, lookup_setdefault_append.
    destruct (Ascii.eqb x c); [now rewrite <- app_assoc|reflexivity].
Qed.

Lemma keys_setdefault_append (elt : ascii) (i : nat)
      (d : list (ascii * list nat)) :
  NoDup (map fst d) -> NoDup (map fst (setdefault_append elt i d))
  /\ forall e, In e (map fst (setdefault_append elt i d))
               <-> e = elt \/ In e (map fst d).
Proof.
  induction d as [|[e0 idxs] d IH]; simpl; intros Hnd.
  - split; [repeat constructor; intros []|]. intros e. intuition.
  - inversion Hnd as [|k ks Hnotin Hnd']; subst.
    destruct (Ascii.eqb_spec e0 elt) as [->|Hne]; simpl.
    + split; [exact Hnd|]. intros e. intuition.
    + destruct (IH Hnd') as [H1 H2]. split.
      * constructor; [|exact H1]. rewrite H2. intros [E|Hin];
          [now subst|contradiction].
      * intros e. rewrite H2. intuition.
Qed.

Lemma keys_chain_b_loop (bs : list ascii) :
  forall i d, NoDup (map fst d) -> NoDup (map fst (chain_b_loop i bs d)).
Proof.
  induction bs as [|x bs IH]; intros i d Hnd; simpl; [exact Hnd|].
  apply IH. now apply keys_setdefault_append.
Qed.

Lemma lookup_filter (f : ascii * list nat -> bool)
      (d : list (ascii * list nat)) (c : ascii) :
  NoDup (map fst d) ->
  lookup (filter f d) c
  = if f (c, lookup d c) then lookup d c else [].
Proof.
  unfold lookup. induction d as [|[e idxs] d IH]; simpl; intros Hnd.
  - destruct (f (c, [])); reflexivity.
  - inversion Hnd as [|k ks Hnotin Hnd']; subst.
    destruct (Ascii.eqb_spec e c) as [->|Hne].
    + simpl. destruct (f (c, idxs)) eqn:Ef; simpl.
      * now rewrite Ascii.eqb_refl.
      * (* removed: no other entry has this key *)
        destruct (find (fun p => Ascii.eqb (fst p) c) (filter f d))
          as [p|] eqn:E; [|reflexivity].
        exfalso. apply find_some in E as [Hin Hk].
        apply Ascii.eqb_eq in Hk. apply filter_In in Hin as [Hin _].
        apply Hnotin. rewrite <- Hk. now apply in_map.
    + destruct (f (e, idxs)); simpl.
      * destruct (Ascii.eqb_spec e c) as [E|_]; [contradiction|].
        now apply IH.
      * now apply IH.
Qed.

(** [b2j.get(c, [])]: all the positions of [c] in [b], in increasing
    order, or nothing when [c] is popular. *)
Lemma b2j_get_positions (b : list ascii) (c : ascii) :
  b2j_get b c = if popular b c then [] else positions c b 0.
Proof.
  unfold b2j_get, b2j, popular.
  fold (lookup (if autojunk && (200 <=? lb b)
                then filter (fun p => negb (lb b / 100 + 1
                                            <? List.length (snd p)))
                            (chain_b_loop 0 b [])
                else chain_b_loop 0 b []) c).
  assert (Hl : lookup (chain_b_loop 0 b []) c = positions c b 0).
  { now rewrite lookup_chain_b_loop. }
  unfold lb. destruct (autojunk && (200 <=? List.length b)); simpl.
  - rewrite lookup_filter by (apply keys_chain_b_loop; constructor).
    cbn [snd]. rewrite Hl.
    match goal with
    | |- context [?x <? ?y] => destruct (x <? y)
    end; reflexivity.
  - exact Hl.
Qed.

Lemma positions_spec (c : ascii) (bs : list ascii) :
  forall i j,
    In j (positions c bs i)
    <-> i <= j /\ j < i + List.length bs /\ nth (j - i) bs zero = c.
Proof.
  induction bs as [|x bs IH]; intros i j; simpl.
  - split; [intros []|lia].
  - rewrite in_app_iff, IH. split.
    + intros [H|[H1 [H2 H3]]].
      * destruct (Ascii.eqb_spec x c) as [->|_]; [|destruct H].
        destruct H as [<-|[]]. rewrite Nat.sub_diag. split; [lia|].
        split; [lia|reflexivity].
      * split; [lia|]. split; [lia|].
        replace (j - i) with (S (j - S i)) by lia. exact H3.
    + intros [H1 [H2 H3]].
      destruct (Nat.eq_dec j i) as [->|Hne].
      * left. rewrite Nat.sub_diag in H3. subst x.
        rewrite Ascii.eqb_refl. now left.
      * right. split; [lia|]. split; [lia|].
        replace (j - i) with (S (j - S i)) in H3 by lia. exact H3.
Qed.

Lemma positions_sorted (c : ascii) (bs : list ascii) :
  forall i, Sorted.StronglySorted lt (positions c bs i).
Proof.
  induction bs as [|x bs IH]; intros i; simpl; [constructor|].
  destruct (Ascii.eqb x c); simpl; [|apply IH].
  constructor; [apply IH|].
  apply Forall_forall. intros j Hj. apply positions_spec in Hj. lia.
Qed.

End ChainFacts.

(* ================================================================= *)
(** ** A sequence matched against itself *)

Module SelfMatch.
Import Difflib Chain.

Section Self.

Variable s : list ascii.

Local Abbreviation n := (List.length s).

Lemma run_le (x : nat) : run s x <= S x.
Proof.
  induction x as [|x IH]; simpl.
  - destruct (popular s _); lia.
  - destruct (popular s _); lia.
Qed.

Lemma run_indexed (j : nat) :
  popular s (nth j s zero) = false -> run s j = S (run_before s j).
Proof.
  intros H. destruct j as [|j]; simpl in *; now rewrite H.
Qed.

Lemma run_popular (j : nat) :
  popular s (nth j s zero) = true -> run s j = 0.
Proof.
  intros H. destruct j as [|j]; simpl in *; now rewrite H.
Qed.

(** One row of the search, for a position [i] whose element is
    indexed: the best block stays on the diagonal. *)
Lemma scan_row_diagonal (i : nat) (j2len : list (nat * nat)) :
  i < n ->
  popular s (nth i s zero) = false ->
  (forall j, j2len_get j2len j <= run_before s i
             /\ j2len_get j2len j <= run s j) ->
  before j2len i = run_before s i ->
  forall js newj2len bi bk,
    StronglySorted lt js ->
    (forall j, In j js -> j < n /\ nth j s zero = nth i s zero) ->
    (forall j, j2len_get newj2len j <= run s i
               /\ j2len_get newj2len j <= run s j) ->
    bi + bk <= n ->
    (forall x, x < i -> run s x <= bk) ->
    (In i js \/ (run s i <= bk /\ j2len_get newj2len i = run s i)) ->
    exists newj2len' bi' bk',
      scan_row i 0 n js j2len newj2len (bi, bi, bk)
      = (newj2len', (bi', bi', bk'))
      /\ (forall j, j2len_get newj2len' j <= run s i
                    /\ j2len_get newj2len' j <= run s j)
      /\ bi' + bk' <= n
      /\ (forall x, x < i -> run s x <= bk')
      /\ run s i <= bk'
      /\ j2len_get newj2len' i = run s i.
Proof.
  intros Hi Hpop HJ1 HJ2.
  induction js as [|j js IH];
    intros newj2len bi bk Hsorted Hjs HN HB1 HB2 HD.
  - destruct HD as [[]|[HD1 HD2]].
    exists newj2len, bi, bk. simpl. repeat split; try assumption;
      apply HN.
  - inversion Hsorted as [|j0 js0 Hsorted' Hhead]; subst.
    destruct (Hjs j (or_introl eq_refl)) as [Hjn Hjc].
    assert (Hpj : popular s (nth j s zero) = false) by now rewrite Hjc.
    cbn [scan_row]. change (j <? 0) with false. cbv iota.
    destruct (Nat.leb_spec n j) as [Hc|_]; [lia|].
    fold (before j2len j).
    set (k := before j2len j + 1).
    assert (Hk1 : k <= run s i).
    { subst k. rewrite (run_indexed i Hpop).
      destruct j as [|j']; simpl; [lia|]. destruct (HJ1 j'). lia. }
    assert (Hk2 : k <= run s j).
    { subst k. rewrite (run_indexed j Hpj).
      destruct j as [|j']; simpl; [lia|]. destruct (HJ1 j'). lia. }
    assert (HN' : forall j0,
               j2len_get ((j, k) :: newj2len) j0 <= run s i
               /\ j2len_get ((j, k) :: newj2len) j0 <= run s j0).
    { intros j0. simpl. destruct (Nat.eqb_spec j j0) as [<-|_];
        [split; assumption|apply HN]. }
    unfold block_size. cbn [snd].
    destruct (Nat.lt_trichotomy j i) as [Hlt|[Heq|Hgt]].
    + (* before the diagonal: no longer than the run that ends at [j] *)
      assert (Hno : (bk <? k) = false).
      { apply Nat.ltb_ge. specialize (HB2 j Hlt). lia. }
      rewrite Hno.
      apply IH; try assumption.
      * intros j0 Hj0. apply Hjs. now right.
      * destruct HD as [[E|HD]|[HD1 HD2]]; [lia|now left|].
        right. split; [exact HD1|]. simpl.
        destruct (Nat.eqb_spec j i); [lia|exact HD2].
    + (* on the diagonal: exactly the run that ends at [i] *)
      subst j.
      assert (Hk : k = run s i).
      { subst k. rewrite (run_indexed i Hpop), HJ2. lia. }
      assert (Hget : j2len_get ((i, k) :: newj2len) i = run s i).
      { simpl. now rewrite Nat.eqb_refl. }
      pose proof (run_le i) as Hle.
      destruct (bk <? k) eqn:Eup.
      * apply Nat.ltb_lt in Eup.
        replace (i + 1 - k, i + 1 - k, k)
          with (i + 1 - k, i + 1 - k, k) by reflexivity.
        apply IH; try assumption.
        -- intros j0 Hj0. apply Hjs. now right.
        -- lia.
        -- intros x Hx. specialize (HB2 x Hx). lia.
        -- right. split; [lia|exact Hget].
      * apply Nat.ltb_ge in Eup.
        apply IH; try assumption.
        -- intros j0 Hj0. apply Hjs. now right.
        -- right. split; [lia|exact Hget].
    + (* after the diagonal: the diagonal was seen first *)
      assert (HD' : run s i <= bk /\ j2len_get newj2len i = run s i).
      { destruct HD as [[E|HD]|HD]; [lia| |exact HD].
        rewrite Forall_forall in Hhead. specialize (Hhead i HD). lia. }
      destruct HD' as [HD1 HD2].
      assert (Hno : (bk <? k) = false) by (apply Nat.ltb_ge; lia).
      rewrite Hno.
      apply IH; try assumption.
      * intros j0 Hj0. apply Hjs. now right.
      * right. split; [exact HD1|]. simpl.
        destruct (Nat.eqb_spec j i); [lia|exact HD2].
Qed.

(** All the rows from [i] on. *)
Lemma scan_rows_diagonal :
  forall rows i j2len bi bk,
    i + rows = n ->
    (forall j, j2len_get j2len j <= run_before s i
               /\ j2len_get j2len j <= run s j) ->
    before j2len i = run_before s i ->
    bi + bk <= n ->
    (forall x, x < i -> run s x <= bk) ->
    exists bi' bk',
      scan_rows s s rows i 0 n j2len (bi, bi, bk) = (bi', bi', bk')
      /\ bi' + bk' <= n.
Proof.
  induction rows as [|rows IH]; intros i j2len bi bk Hn HJ1 HJ2 HB1 HB2.
  - exists bi, bk. split; [reflexivity|exact HB1].
  - cbn [scan_rows]. unfold at_a.
    rewrite ChainFacts.b2j_get_positions.
    destruct (popular s (nth i s zero)) eqn:Hpop.
    + cbn [scan_row].
      apply IH; try assumption; try lia.
      * intros j. simpl. lia.
      * simpl. now rewrite (run_popular i Hpop).
      * intros x Hx. destruct (Nat.eq_dec x i) as [->|Hne].
        -- rewrite (run_popular i Hpop). lia.
        -- apply HB2. lia.
    + destruct (scan_row_diagonal
                  i j2len ltac:(lia) Hpop HJ1 HJ2
                  (positions (nth i s zero) s 0) [] bi bk)
        as [newj2len' [bi' [bk' [E [HN [HB1' [HB2' [HD1 HD2]]]]]]]];
        try assumption.
      * apply ChainFacts.positions_sorted.
      * intros j Hj. apply ChainFacts.positions_spec in Hj.
        rewrite Nat.sub_0_r in Hj. split; [lia|tauto].
      * intros j. simpl. lia.
      * left. apply ChainFacts.positions_spec. rewrite Nat.sub_0_r.
        split; [lia|]. split; [lia|reflexivity].
      * rewrite E. apply IH; try assumption; try lia.
        intros x Hx. destruct (Nat.eq_dec x i) as [->|Hne];
          [exact HD1|apply HB2'; lia].
Qed.

Lemma extend_left_diagonal (junk : bool) :
  forall bi bk,
    extend_left s s junk 0 0 bi bi bk
    = if junk then (bi, bi, bk) else (0, 0, bk + bi).
Proof.
  induction bi as [|bi IH]; intros bk; cbn [extend_left].
  - destruct junk; [reflexivity|]. now rewrite Nat.add_0_r.
  - unfold isbjunk. rewrite Ascii.eqb_refl.
    destruct junk; cbn [Bool.eqb Nat.ltb Nat.leb andb]; [reflexivity|].
    rewrite IH. f_equal. lia.
Qed.

Lemma extend_right_diagonal :
  forall m size,
    size + m = n -> extend_right s s false m n 0 0 size = n.
Proof.
  induction m as [|m IH]; intros size H; cbn [extend_right].
  - lia.
  - unfold isbjunk. rewrite Ascii.eqb_refl. cbn [Bool.eqb Nat.add andb].
    destruct (Nat.ltb_spec size n) as [_|Hc]; [|lia].
    cbn [andb]. apply IH. lia.
Qed.

(** The longest match of a sequence with itself is the whole
    sequence. *)
Lemma find_longest_match_self :
  find_longest_match s s 0 n 0 n = (0, 0, n).
Proof.
  unfold find_longest_match. rewrite Nat.sub_0_r.
  destruct (scan_rows_diagonal n 0 [] 0 0)
    as [bi [bk [E Hle]]]; try lia.
  - intros j. simpl. lia.
  - reflexivity.
  - rewrite E, (extend_left_diagonal false).
    rewrite (extend_right_diagonal (n - (0 + (bk + bi))) (bk + bi))
      by lia.
    rewrite (extend_left_diagonal true).
    replace (n - (0 + n)) with 0 by lia. reflexivity.
Qed.

Lemma raw_blocks_self :
  raw_blocks s s = Some (if n =? 0 then [] else [(0, 0, n)]).
Proof.
  unfold raw_blocks, la, lb.
  replace (2 * n + 1) with (S (2 * n)) by lia.
  cbn [blocks_loop]. rewrite find_longest_match_self.
  destruct (Nat.eqb_spec n 0) as [E|E].
  - destruct (2 * n); reflexivity.
  - rewrite Nat.ltb_irrefl. cbn [andb Nat.add].
    rewrite Nat.ltb_irrefl.
    destruct (2 * n); reflexivity.
Qed.

Lemma matches_self : total_size (get_matching_blocks s s) = n.
Proof.
  unfold get_matching_blocks. rewrite raw_blocks_self.
  rewrite DifflibFacts.total_size_app, DifflibFacts.total_size_collapse,
    DifflibFacts.total_size_sort.
  destruct (Nat.eqb_spec n 0) as [E|E];
    unfold total_size, block_size; simpl; lia.
Qed.

(** The ratio of a sequence with itself is 1. *)
Lemma ratio_self : (ratio s s == 1)%Q.
Proof.
  unfold ratio, calculate_ratio, la, lb. rewrite matches_self.
  destruct (Nat.eqb_spec (n + n) 0) as [E|E]; [reflexivity|].
  replace (2 * inject_Z (Z.of_nat n))%Q
    with (inject_Z 2 * inject_Z (Z.of_nat n))%Q by reflexivity.
  rewrite <- inject_Z_mult.
  replace (2 * Z.of_nat n)%Z with (Z.of_nat (n + n)) by lia.
  apply Qmult_inv_r. intros H.
  unfold Qeq in H. simpl in H. lia.
Qed.

End Self.

End SelfMatch.

(* ================================================================= *)
(** ** More on the string matcher *)

Module SimilarityMore.
Import Extractor Catalog.

Local Open Scope string_scope.

(** Two strings that differ at most in the case of their letters have
    similarity 1; in particular every string has similarity 1 with
    itself. *)
Theorem similarity_of_equal (a b : string) :
  Text.lower a = Text.lower b -> (similarity a b == 1)%Q.
Proof.
  intros H. unfold similarity. rewrite H. apply SelfMatch.ratio_self.
Qed.

Lemma similarity_of_equal_witness :
  (similarity "Network" "NETWORK" == 1)%Q.
Proof.
  apply similarity_of_equal. reflexivity.
Defined.

Lemma list_of_lower_nil (a : string) :
  list_ascii_of_string (Text.lower a) = [] -> a = "".
Proof. destruct a; [reflexivity|discriminate]. Qed.

(** The similarity of the empty string with any other string is 0, in
    both orders; with itself it is 1. *)
Theorem similarity_with_empty (b : string) :
  b <> "" ->
  (similarity "" b == 0)%Q /\ (similarity b "" == 0)%Q
  /\ (similarity "" "" == 1)%Q.
Proof.
  intros Hb.
  assert (Hlen : List.length (list_ascii_of_string (Text.lower b)) <> 0).
  { destruct b; [contradiction|discriminate]. }
  assert (Hzero : forall m n, m = 0 -> n <> 0 ->
                              (Difflib.calculate_ratio m n == 0)%Q).
  { intros m n -> Hn. unfold Difflib.calculate_ratio.
    destruct (Nat.eqb_spec n 0); [contradiction|]. reflexivity. }
  split; [|split]; [| |reflexivity].
  - unfold similarity, Difflib.ratio. apply Hzero.
    + pose proof (DifflibFacts.matches_bound
                    (list_ascii_of_string (Text.lower ""))
                    (list_ascii_of_string (Text.lower b))) as H.
      unfold Difflib.la, Difflib.lb in H.
      change (List.length (list_ascii_of_string (Text.lower ""))) with 0
        in H.
      lia.
    + unfold Difflib.la, Difflib.lb.
      change (List.length (list_ascii_of_string (Text.lower ""))) with 0.
      exact Hlen.
  - unfold similarity, Difflib.ratio. apply Hzero.
    + pose proof (DifflibFacts.matches_bound
                    (list_ascii_of_string (Text.lower b))
                    (list_ascii_of_string (Text.lower ""))) as H.
      unfold Difflib.la, Difflib.lb in H.
      change (List.length (list_ascii_of_string (Text.lower ""))) with 0
        in H.
      lia.
    + unfold Difflib.la, Difflib.lb.
      change (List.length (list_ascii_of_string (Text.lower ""))) with 0.
      lia.
Qed.

Lemma similarity_with_empty_witness :
  (similarity "" "audit" == 0)%Q.
Proof.
  destruct (similarity_with_empty "audit") as [H _];
    [discriminate|exact H].
Defined.

Lemma word_hit_of_equal (audit_word : string) (text_words : list string) :
  (exists text_word, In text_word text_words
                     /\ Text.lower text_word = Text.lower audit_word) ->
  word_hit audit_word text_words = true.
Proof.
  intros [w [Hin E]]. rewrite ResolverFacts.word_hit_existsb.
  apply existsb_exists. exists w. split; [exact Hin|].
  assert (Hsim : (similarity audit_word w == 1)%Q).
  { unfold similarity. rewrite E. apply SelfMatch.ratio_self. }
  apply Qle_bool_iff. rewrite Hsim. discriminate.
Qed.

(** When every word of an audit name occurs among the words of the text
    (whatever the case of the letters), all its words count as similar
    and its match percentage is 1. *)
Theorem full_name_full_percentage (name text_clean : string) :
  Text.split name <> [] ->
  (forall audit_word,
      In audit_word (Text.split name) ->
      exists text_word,
        In text_word (Text.split text_clean)
        /\ Text.lower text_word = Text.lower audit_word) ->
  similar_words name text_clean = Text.split name
  /\ (percentage name text_clean == 1)%Q.
Proof.
  intros Hne Hall.
  assert (Hsim : similar_words name text_clean = Text.split name).
  { unfold similar_words.
    assert (H : forall l,
               (forall w, In w l -> In w (Text.split name)) ->
               filter (fun audit_word =>
                         existsb
                           (fun text_word =>
                              Qle_bool 0.70%Q
                                       (similarity audit_word text_word))
                           (Text.split text_clean)) l = l).
    { induction l as [|w l IH]; intros Hsub; [reflexivity|].
      cbn [filter]. rewrite <- ResolverFacts.word_hit_existsb.
      rewrite word_hit_of_equal by (apply Hall, Hsub; now left).
      f_equal. apply IH. intros w' Hw'. apply Hsub. now right. }
    apply H. intros w Hw. exact Hw. }
  split; [exact Hsim|].
  unfold percentage. rewrite Hsim.
  destruct (Text.split name) as [|w ws]; [contradiction|].
  apply Qmult_inv_r. intros H. unfold Qeq in H. simpl in H. lia.
Qed.

(** "cisco audit new" inside a longer request. *)
Lemma full_name_witness :
  (percentage "cisco audit new" "run the new cisco audit now" == 1)%Q.
Proof.
  destruct (full_name_full_percentage
              "cisco audit new" "run the new cisco audit now")
    as [_ H].
  - discriminate.
  - intros w [<-|[<-|[<-|[]]]]; eexists; (split; [|reflexivity]);
      simpl; tauto.
  - exact H.
Defined.

End SimilarityMore.

(* ================================================================= *)
(** ** The states an extractor goes through *)

Module LifecycleFacts.
Import Database Extractor Catalog Lookup.

Local Open Scope string_scope.

Lemma adopt_built (self : extractor) (d : cached_data) :
  audits d <> [] ->
  built (adopt self d) /\ audits_data (adopt self d) = audits d
  /\ data (adopt self d) = Some d.
Proof.
  intros Hne. unfold adopt.
  set (before := {| data := Some d; audits_data := audits d;
                    audit_categories := audit_categories self;
                    audit_name_to_id := audit_name_to_id self;
                    audit_id_to_name := audit_id_to_name self;
                    category_to_audits := category_to_audits self |}).
  assert (Hdata : audits_data (_build_lookup_maps before) = audits d
                  /\ data (_build_lookup_maps before) = Some d).
  { unfold _build_lookup_maps. simpl.
    destruct (audits d) as [|a l] eqn:E; [contradiction|].
    rewrite <- E.
    match goal with
    | |- context [fold_left add_audit ?l ?start] =>
        destruct (BuildFacts.fold_add_audit l start) as [H1 [H2 _]]
    end.
    split; [exact H2|exact H1]. }
  destruct Hdata as [Hd1 Hd2].
  split; [|split; assumption].
  split; [now rewrite Hd1|].
  exists before. split; [now rewrite Hd1|reflexivity].
Qed.

Lemma extractor_stays_built_core
        (set_iteration : list string -> list string)
        (db : store) (now : nat) (p : process) (self : extractor) :
  let created := snd (new_extractor set_iteration db now p) in
  let after := refresh_data_if_needed set_iteration db now p self in
  (audits_data created = [] \/ built created)
  /\ (audits_data self = [] \/ built self ->
      audits_data (snd after) = [] \/ built (snd after))
  /\ (fst (fst after) = true ->
      built (snd after)
      /\ audits_data (snd after) = load_audits_data_from_db db).
Proof.
  intros created after.
  split; [|split].
  - subst created. unfold new_extractor, load_fresh_audit_data,
      refresh_all_data. cbn [audits].
    destruct (load_audits_data_from_db db) as [|a l] eqn:E.
    + left. reflexivity.
    + right. apply adopt_built. cbn [audits]. discriminate.
  - subst after. unfold refresh_data_if_needed, refresh_all_data.
    cbn [audits].
    destruct (load_audits_data_from_db db) as [|a l] eqn:E.
    + intros H. exact H.
    + intros _. right. apply adopt_built. cbn [audits]. discriminate.
  - subst after. unfold refresh_data_if_needed, refresh_all_data.
    cbn [audits].
    destruct (load_audits_data_from_db db) as [|a l] eqn:E.
    + discriminate.
    + intros _.
      match goal with
      | |- built (snd (_, _, adopt self ?d)) /\ _ =>
          destruct (adopt_built self d) as [H1 [H2 _]];
            [cbn [audits]; discriminate|]
      end.
      split; [exact H1|exact H2].
Qed.


(** When the store is reachable and holds audits, every id
    [extract_audit_entities] answers with is the id of a row that is in
    the store at the time of the call: the refresh at its beginning
    leaves no room for a stale id. *)
Theorem answer_from_fresh_rows
        (set_iteration : list string -> list string)
        (db : store) (now : nat) (p : process) (self : extractor)
        (text : string) (rows : list audit_row) (r : result) :
  audits_table db = Some rows ->
  rows <> [] ->
  fst (fst (extract_audit_entities set_iteration db now p self text))
  = inr r ->
  forall id, entity_value r "audit_id" = Some id ->
             exists row, In row rows
                         /\ str_of_int (row_audit_id row) = id.
Proof.
  intros Hrows Hne Hr id Hid.
  assert (Hload : load_audits_data_from_db db <> []).
  { unfold load_audits_data_from_db. rewrite Hrows.
    destruct rows; [contradiction|discriminate]. }
  destruct (extractor_stays_built_core set_iteration db now p self)
    as [_ [_ Hok]].
  unfold extract_audit_entities in Hr.
  remember (refresh_data_if_needed set_iteration db now p self) as after
    eqn:Eafter.
  assert (Hflag : fst (fst after) = true).
  { rewrite Eafter. unfold refresh_data_if_needed, refresh_all_data.
    cbn [audits].
    destruct (load_audits_data_from_db db); [contradiction|reflexivity]. }
  destruct (Hok Hflag) as [Hb Hdata].
  destruct after as [[ok p'] self']. cbn [fst snd] in *.
  destruct (AnswerFacts.answer_from_catalog_core
              set_iteration self' text r Hb Hr) as [H _].
  destruct (H id Hid) as [a [Ha E]].
  rewrite Hdata in Ha. unfold load_audits_data_from_db in Ha.
  rewrite Hrows in Ha. apply in_map_iff in Ha as [row [Erow Hin]].
  exists row. split; [exact Hin|]. rewrite <- E, <- Erow. reflexivity.
Qed.

(** The scenario of the spec: the id answered, "16", is the id of the
    one row of the store. *)
Lemma answer_from_fresh_rows_witness :
  exists row, In row [ {| row_audit_id := 16;
                          row_audit_name := "Cisco Audit New";
                          row_category := "Network"; row_tags := "";
                          row_description := "";
                          row_device_categories := None |} ]
              /\ str_of_int (row_audit_id row) = "16".
Proof.
  apply (answer_from_fresh_rows
           in_order scenario_store 1 fresh_process empty_extractor
           "run audit 16" _
           (specific_audit ("audit_id", "16")
                           ("audit_name", "Cisco Audit New") 1.0%Q)).
  - reflexivity.
  - discriminate.
  - vm_compute. reflexivity.
  - reflexivity.
Defined.

End LifecycleFacts.
(** ** The execution agent *)

Module ExecutionFacts.
Import Database Extractor Lookup ExecutionAgent.

Local Open Scope string_scope.

Lemma length_append (s t : string) :
  String.length (s ++ t) = String.length s + String.length t.
Proof. induction s as [|c s IH]; simpl; [reflexivity|now rewrite IH]. Qed.

Lemma length_prefix (n : nat) (s : string) :
  String.length (prefix n s) <= n.
Proof.
  unfold prefix. revert s. induction n as [|n IH]; intros s.
  - destruct s; simpl; lia.
  - destruct s as [|c s]; simpl; [lia|]. specialize (IH s). lia.
Qed.

Lemma prefix_not_empty (n : nat) (s : string) :
  s <> "" -> prefix (S n) s <> "".
Proof. destruct s as [|c s]; [contradiction|discriminate]. Qed.

Lemma append_not_empty (s t : string) : s <> "" -> s ++ t <> "".
Proof. destruct s; [contradiction|discriminate]. Qed.

Lemma length_zero (s : string) : String.length s = 0 -> s = "".
Proof. destruct s; [reflexivity|discriminate]. Qed.

(** [_generate_safe_summary] never returns the empty string, and a
    summary taken from a result that is not blank has at most 103
    characters: at most 100 of the stripped result and the three
    dots. *)
Theorem summary_never_empty (execution_result audit_name status : string) :
  _generate_safe_summary execution_result audit_name status <> ""
  /\ (strip execution_result <> "" ->
      String.length
        (_generate_safe_summary execution_result audit_name status) <= 103).
Proof.
  unfold _generate_safe_summary.
  destruct (Nat.ltb 0 (String.length (strip execution_result))) eqn:E.
  - apply Nat.ltb_lt in E.
    assert (Hs : strip execution_result <> "").
    { intros H. rewrite H in E. simpl in E. lia. }
    pose proof (length_prefix 100 (strip execution_result)) as Hl.
    pose proof (prefix_not_empty 99 (strip execution_result) Hs) as Hp.
    destruct (String.eqb execution_result "") eqn:E0.
    + apply String.eqb_eq in E0. subst execution_result.
      exfalso. apply Hs. reflexivity.
    + cbn [negb andb].
      destruct (Nat.ltb 100 (String.length execution_result)).
      * split; [now apply append_not_empty|].
        intros _. rewrite length_append. simpl String.length. lia.
      * split; [exact Hp|]. intros _. lia.
  - apply Nat.ltb_ge in E.
    assert (Hs : strip execution_result = "").
    { apply length_zero. lia. }
    rewrite andb_false_r. split; [discriminate|].
    intros H. contradiction.
Qed.

(** [_generate_safe_error_message] is empty exactly when the status is
    none of "failed", "error" and "timeout": a failing status always
    gets a text, the result of the run or a default one. *)
Theorem error_message_iff_failing (execution_result status : string) :
  _generate_safe_error_message execution_result status = ""
  <-> ~ In status ["failed"; "error"; "timeout"].
Proof.
  unfold _generate_safe_error_message.
  destruct (existsb (String.eqb status) ["failed"; "error"; "timeout"])
    eqn:E.
  - apply existsb_exists in E as [x [Hin Hx]].
    apply String.eqb_eq in Hx. subst x.
    split; [|intros H; contradiction].
    destruct (String.eqb execution_result "") eqn:E0.
    + discriminate.
    + intros H. apply String.eqb_neq in E0. contradiction.
  - split; [|reflexivity]. intros _ Hin.
    assert (existsb (String.eqb status) ["failed"; "error"; "timeout"]
            = true) as H.
    { apply existsb_exists. exists status. split; [exact Hin|].
      apply String.eqb_refl. }
    congruence.
Qed.

Lemma values_of_missing (d : Dict.dict pyvalue) (k : string)
      (columns : list string) :
  Dict.get d k = None -> values_of d (k :: columns) = inl (KeyError k).
Proof. intros H. simpl. unfold subscript. now rewrite H. Qed.

Lemma safe_values_no_report_id
      (now : nat) (n : Z)
      (audit_id audit_name execution_result status : string) (d : Q) :
  Dict.get (safe_values_of now n audit_id audit_name execution_result
                           status d) "report_id" = None.
Proof. reflexivity. Qed.

(** What [create_execution_report] returns, whatever the INSERT would
    do. *)
Lemma create_execution_report_closed
      (int : string -> option Z) (rs : report_store) (now : nat)
      (audit_id audit_name execution_result status : string) (d : Q) :
  create_execution_report int rs now audit_id audit_name execution_result
                          status d
  = if negb (report_connection rs) then Ok None
    else if report_close_raises rs then Exc "close"
    else match table_exists rs with
         | Some false => Ok None
         | _ => if rollback_raises rs then Exc "rollback" else Ok None
         end.
Proof.
  unfold create_execution_report, report_body.
  destruct (negb (report_connection rs)); [reflexivity|].
  destruct (report_close_raises rs); [reflexivity|].
  destruct (table_exists rs) as [[|]|]; try reflexivity.
  destruct (int audit_id) as [n|]; [|reflexivity].
  unfold insert_patterns. cbn [try_patterns].
  rewrite values_of_missing by apply safe_values_no_report_id.
  destruct (rollback_raises rs); reflexivity.
Qed.

(** [create_execution_report] never returns a report id, and what it
    returns does not depend on the INSERT: the only pattern lists the
    column "report_id", which is no key of [safe_values], so building
    the values raises before the statement is executed. *)
Theorem report_never_created
        (int : string -> option Z) (rs : report_store)
        (answer : list string -> list pyvalue -> option (option Z))
        (now : nat)
        (audit_id audit_name execution_result status : string) (d : Q) :
  create_execution_report int (with_insert rs answer) now audit_id
                          audit_name execution_result status d
  = create_execution_report int rs now audit_id audit_name
                            execution_result status d
  /\ forall report_id,
      create_execution_report int rs now audit_id audit_name
                              execution_result status d
      = Ok report_id ->
      report_id = None.
Proof.
  rewrite !create_execution_report_closed. split; [reflexivity|].
  intros report_id.
  destruct (negb (report_connection rs)); [congruence|].
  destruct (report_close_raises rs); [discriminate|].
  destruct (table_exists rs) as [[|]|];
    destruct (rollback_raises rs); congruence.
Qed.


Section Handler.

Variable int : string -> option Z.
Variable format_2f : Q -> string.
Variable str : exn -> string.
Variable set_iteration : list string -> list string.

Lemma execute_specific_shape (w : world) (entities : Dict.dict entity) :
  fst (execute_specific int format_2f str w entities) = []
  \/ exists id_entity,
      Dict.get entities "audit_id" = Some id_entity
      /\ fst (execute_specific int format_2f str w entities)
         = [Execute (value id_entity) 30].
Proof.
  unfold execute_specific, subscript.
  destruct (Dict.get entities "audit_id") as [ie|]; [|now left].
  destruct (Dict.get entities "audit_name") as [ne|]; [|now left].
  right. exists ie. split; [reflexivity|].
  destruct (safe_execute_audit w (value ie) 30) as [[ok out] d].
  reflexivity.
Qed.

Lemma respond_shape (w : world) (self : extractor)
      (extraction : exn + result) :
  fst (respond int format_2f str w self extraction) = []
  \/ exists r id_entity,
      extraction = inr r /\ success r = true
      /\ Dict.get (entities r) "audit_id" = Some id_entity
      /\ fst (respond int format_2f str w self extraction)
         = [Execute (value id_entity) 30].
Proof.
  unfold respond.
  destruct extraction as [e|r]; [now left|].
  destruct (success r) eqn:Es; [|now left].
  destruct (String.eqb (type r) "specific_audit").
  - destruct (execute_specific_shape w (entities r)) as [H|[ie [H1 H2]]];
      [now left|].
    right. exists r, ie. repeat split; assumption.
  - left.
    destruct (String.eqb (type r) "category_clarification").
    + destruct (subscript (entities r) "audit_category"); [reflexivity|].
      destruct (category_audits r); reflexivity.
    + destruct (String.eqb (type r) "no_data"); reflexivity.
Qed.

Lemma handle_task_context
      (w : world) (now : nat) (p : process) (self : extractor)
      (context : list message) :
  exists text,
    snd (fst (fst (handle_task int format_2f str set_iteration w now p
                               self context)))
    = (context ++ [ {| Orchestrator.content := text;
                       Orchestrator.source := agent_type w |} ])%list.
Proof.
  unfold handle_task.
  destruct (String.eqb (_extract_user_message context) "").
  - eexists. reflexivity.
  - destruct (extract_audit_entities set_iteration (db w) now p self
                                     (_extract_user_message context))
      as [[extraction p'] self'].
    destruct (respond int format_2f str w self' extraction)
      as [executed answer].
    eexists. reflexivity.
Qed.

(** Every run of [handle_task] ends with exactly one publication, of the
    context extended by one message of the agent; before it the agent
    executes at most one audit, with a timeout of 30 seconds.  A request
    without user text executes nothing and leaves the cache and the
    extractor as they were. *)
Theorem handle_task_replies_once
        (w : world) (now : nat) (p : process) (self : extractor)
        (context : list message) :
  let out :=
    handle_task int format_2f str set_iteration w now p self context in
  let events := fst (fst (fst out)) in
  let context' := snd (fst (fst out)) in
  let self' := snd out in
  exists executed text,
    events
    = (executed
       ++ [Publish context'
                   {| execution_status := "completed";
                      data_freshness := "fresh";
                      tools_available := TOOLS_AVAILABLE w;
                      audit_count := List.length (audits_data self');
                      agent_version := "complete_working_v1.0" |}])%list
    /\ context'
       = (context ++ [ {| Orchestrator.content := text;
                          Orchestrator.source := agent_type w |} ])%list
    /\ (executed = [] \/ exists id, executed = [Execute id 30])
    /\ (_extract_user_message context = "" ->
        executed = [] /\ snd (fst out) = p /\ self' = self).
Proof.
  intros out events context' self'.
  subst events context' self' out. unfold handle_task.
  destruct (String.eqb (_extract_user_message context) "") eqn:E.
  - exists [], "❌ No message content found for audit execution.".
    cbn [_send_response fst snd app].
    repeat split; try reflexivity. now left.
  - apply String.eqb_neq in E.
    destruct (extract_audit_entities set_iteration (db w) now p self
                                     (_extract_user_message context))
      as [[extraction p'] self'].
    pose proof (respond_shape w self' extraction) as Hshape.
    destruct (respond int format_2f str w self' extraction)
      as [executed answer].
    cbn [fst] in Hshape. cbn [_send_response fst snd].
    exists executed.
    exists (match answer with
            | Ok text => text
            | Exc what => "❌ Error during audit execution: " ++ what
            end).
    split; [reflexivity|]. split; [reflexivity|]. split.
    + destruct Hshape as [H|[r [ie [_ [_ [_ H]]]]]]; [now left|].
      right. now exists (value ie).
    + intros H. contradiction.
Qed.

(** The audits [handle_task] executes are audits of the catalog: when the
    extractor it starts from has an empty catalog or maps built from its
    catalog, the id it passes to the tool is the id of an audit the
    extractor holds when the handler returns, and the timeout is 30. *)
Theorem executes_catalog_audits
        (w : world) (now : nat) (p : process) (self : extractor)
        (context : list message) (id : string) (t : nat) :
  audits_data self = [] \/ built self ->
  let out :=
    handle_task int format_2f str set_iteration w now p self context in
  In (Execute id t) (fst (fst (fst out))) ->
  t = 30 /\ exists a, In a (audits_data (snd out)) /\ audit_id a = id.
Proof.
  intros Hself out. subst out. unfold handle_task.
  destruct (String.eqb (_extract_user_message context) "") eqn:E.
  - cbn [_send_response fst snd]. intros [H|[]]. discriminate H.
  - pose proof (LifecycleFacts.extractor_stays_built_core
                  set_iteration (db w) now p self) as [_ [Hkeep _]].
    specialize (Hkeep Hself). unfold extract_audit_entities.
    destruct (refresh_data_if_needed set_iteration (db w) now p self)
      as [[ok p'] self'].
    cbn [fst snd] in Hkeep.
    pose proof (respond_shape
                  w self'
                  (extract_from set_iteration self'
                                (_extract_user_message context)))
      as Hshape.
    destruct (respond int format_2f str w self'
                      (extract_from set_iteration self'
                                    (_extract_user_message context)))
      as [executed answer].
    cbn [fst] in Hshape. cbn [_send_response fst snd].
    intros Hin. apply in_app_or in Hin as [Hin|[Hin|[]]];
      [|discriminate Hin].
    destruct Hshape as [H|[r [ie [Hr [Hs [Hget H]]]]]].
    { rewrite H in Hin. destruct Hin. }
    rewrite H in Hin. destruct Hin as [Hin|[]].
    inversion Hin; subst id t. split; [reflexivity|].
    assert (Hb : built self').
    { destruct Hkeep as [Hempty|Hb]; [|exact Hb].
      unfold extract_from in Hr. rewrite Hempty in Hr.
      inversion Hr; subst r. discriminate Hs. }
    destruct (AnswerFacts.answer_from_catalog_core
                set_iteration self' (_extract_user_message context) r
                Hb Hr) as [Hid _].
    apply Hid. unfold entity_value. rewrite Hget. reflexivity.
Qed.

(** The reply to an executed audit always says that the report could not
    be created: when the resolver answers with a specific audit and
    neither the rollback nor the closing of the connection raises, the
    agent runs the audit once and sends the identification of the audit
    followed by the text for a failed report creation, with the result
    of the run or its error. *)
Theorem executed_audit_reply
        (w : world) (now : nat) (p : process) (self : extractor)
        (context : list message) (r : result) (id_entity name_entity : entity) :
  _extract_user_message context <> "" ->
  fst (fst (extract_audit_entities set_iteration (db w) now p self
                                   (_extract_user_message context)))
  = inr r ->
  success r = true ->
  type r = "specific_audit" ->
  Dict.get (entities r) "audit_id" = Some id_entity ->
  Dict.get (entities r) "audit_name" = Some name_entity ->
  rollback_raises (reports w) = false ->
  report_close_raises (reports w) = false ->
  let out :=
    handle_task int format_2f str set_iteration w now p self context in
  let run_result := safe_execute_audit w (value id_entity) 30 in
  let ok := fst (fst run_result) in
  let execution_result := snd (fst run_result) in
  let duration := snd run_result in
  exists published,
    fst (fst (fst out)) = [Execute (value id_entity) 30; published]
    /\ snd (fst (fst out))
       = (context
          ++ [ {| Orchestrator.content :=
                    (format_specific_audit_response format_2f (entities r)
                     ++ nl ++ nl
                     ++ (if ok
                         then "✅ Execution completed successfully in "
                              ++ format_2f duration ++ " seconds!" ++ nl
                              ++ "⚠️  Report creation failed, but execution succeeded"
                              ++ nl
                              ++ "📝 Results: "
                              ++ shown_result execution_result
                         else "❌ Execution failed after "
                              ++ format_2f duration ++ " seconds!" ++ nl
                              ++ "⚠️  Report creation also failed" ++ nl
                              ++ "🔍 Error: " ++ execution_result))%string;
                  Orchestrator.source := agent_type w |} ])%list.
Proof.
  intros Hmsg Hr Hs Ht Hid Hname Hroll Hclose out run_result ok
         execution_result duration.
  subst out. unfold handle_task.
  apply String.eqb_neq in Hmsg. rewrite Hmsg.
  destruct (extract_audit_entities set_iteration (db w) now p self
                                   (_extract_user_message context))
    as [[extraction p'] self'].
  cbn [fst] in Hr. subst extraction.
  unfold respond. rewrite Hs, Ht. cbn [String.eqb Ascii.eqb Bool.eqb].
  change (String.eqb "specific_audit" "specific_audit") with true.
  cbv iota.
  unfold execute_specific, subscript. rewrite Hid, Hname.
  fold run_result.
  assert (Erun : run_result = (ok, execution_result, duration)).
  { subst ok execution_result duration.
    destruct run_result as [[a b] c]. reflexivity. }
  rewrite Erun. rewrite create_execution_report_closed.
  rewrite Hroll, Hclose.
  eexists.
  assert (Hreport :
            (if negb (report_connection (reports w)) then Ok None
             else if false then Exc "close"
                  else match table_exists (reports w) with
                       | Some false => Ok None
                       | _ => if false then Exc "rollback" else Ok None
                       end)
            = (Ok None : outcome (option Z))).
  { destruct (negb (report_connection (reports w))); [reflexivity|].
    destruct (table_exists (reports w)) as [[|]|]; reflexivity. }
  rewrite Hreport.
  cbn [_send_response fst snd app]. split; [reflexivity|].
  unfold execution_text. cbn [truthy].
  destruct ok; reflexivity.
Qed.

Lemma endswith_skipped (context : list message) (reply : message) :
  endswith (source reply) "Agent" = true ->
  _extract_user_message (context ++ [reply])%list
  = _extract_user_message context.
Proof.
  intros H. unfold _extract_user_message.
  rewrite rev_unit. cbn [find]. rewrite H. reflexivity.
Qed.

(** The agent never takes its own reply for the request: when the type
    of the agent ends with "Agent", the context [handle_task] returns
    holds the same user message as the context it was given. *)
Theorem own_reply_is_skipped
        (w : world) (now : nat) (p : process) (self : extractor)
        (context : list message) :
  endswith (agent_type w) "Agent" = true ->
  _extract_user_message
    (snd (fst (fst (handle_task int format_2f str set_iteration w now p
                                self context))))
  = _extract_user_message context.
Proof.
  intros H.
  destruct (handle_task_context w now p self context)
    as [text E].
  rewrite E. apply endswith_skipped. exact H.
Qed.

End Handler.

(** "run audit 16" on the demo catalog: the audit executed is the audit
    number 16 of the catalog. *)
Lemma executes_catalog_witness :
  30 = 30
  /\ exists a,
      In a (audits_data
              (snd (handle_task demo_int demo_format demo_str
                                Catalog.in_order demo_world 1
                                Catalog.fresh_process empty_extractor
                                (Routing.demo_context "run audit 16"))))
      /\ audit_id a = "16".
Proof.
  apply (executes_catalog_audits
           demo_int demo_format demo_str Catalog.in_order demo_world 1
           Catalog.fresh_process empty_extractor
           (Routing.demo_context "run audit 16") "16" 30).
  - left. reflexivity.
  - vm_compute. left. reflexivity.
Defined.

(** "run audit 16" on the demo catalog, with a tool that succeeds and a
    [reports] table ready to return the id 7: the reply still says that
    the report could not be created. *)
Lemma executed_audit_witness :
  exists published,
    fst (fst (fst (handle_task demo_int demo_format demo_str
                               Catalog.in_order demo_world 1
                               Catalog.fresh_process empty_extractor
                               (Routing.demo_context "run audit 16"))))
    = [Execute "16" 30; published]
    /\ snd (fst (fst (handle_task demo_int demo_format demo_str
                                  Catalog.in_order demo_world 1
                                  Catalog.fresh_process empty_extractor
                                  (Routing.demo_context "run audit 16"))))
       = (Routing.demo_context "run audit 16"
          ++ [ {| Orchestrator.content :=
                    ("🎯 Audit Identified for Execution:" ++ nl ++ nl
                     ++ "ID: 16" ++ nl
                     ++ "Name: Cisco Audit New" ++ nl
                     ++ "Confidence: 1.00" ++ nl ++ nl
                     ++ "🚀 Executing audit now..." ++ nl ++ nl
                     ++ "✅ Execution completed successfully in 1.50 seconds!"
                     ++ nl
                     ++ "⚠️  Report creation failed, but execution succeeded"
                     ++ nl
                     ++ "📝 Results: 42 checks passed")%string;
                  Orchestrator.source := "ExecuteAuditAgent" |} ])%list.
Proof.
  destruct (executed_audit_reply
              demo_int demo_format demo_str Catalog.in_order demo_world 1
              Catalog.fresh_process empty_extractor
              (Routing.demo_context "run audit 16")
              (Catalog.specific_audit ("audit_id", "16")
                                      ("audit_name", "Cisco Audit New")
                                      1.0%Q)
              {| value := "16"; confidence := 1.0%Q |}
              {| value := "Cisco Audit New"; confidence := 1.0%Q |})
    as [published [H1 H2]].
  - vm_compute. discriminate.
  - vm_compute. reflexivity.
  - reflexivity.
  - reflexivity.
  - reflexivity.
  - reflexivity.
  - reflexivity.
  - reflexivity.
  - exists published. split; [exact H1|]. rewrite H2. vm_compute.
    reflexivity.
Defined.

(** The context returned for "run audit 16" still has that text as its
    user message. *)
Lemma own_reply_witness :
  _extract_user_message
    (snd (fst (fst (handle_task demo_int demo_format demo_str
                                Catalog.in_order demo_world 1
                                Catalog.fresh_process empty_extractor
                                (Routing.demo_context "run audit 16")))))
  = "run audit 16".
Proof.
  rewrite (own_reply_is_skipped
             demo_int demo_format demo_str Catalog.in_order demo_world 1
             Catalog.fresh_process empty_extractor
             (Routing.demo_context "run audit 16")); reflexivity.
Defined.

End ExecutionFacts.
